(** * Decode_videos.py: barcode detection and decoding

    A shallow embedding of [SCRIPTS_2020/Bup/Decode_videos.py] and the
    properties of its per-frame detection pipeline.

    Conventions of the model:
    - pixel coordinates and uint8 samples are integers ([Z]);
    - Python and NumPy floats are their real value ([R]), extended with the
      IEEE special values the program can produce ([npfloat]); rounding is
      not modelled;
    - a Python exception is a [Raise] result;
    - the OpenCV functions are parameters ([Cv2]). *)

From Stdlib Require Import ZArith List Reals Lra Lia Bool Psatz.
From stdpp Require Import base decidable list gmap sets strings.
Import ListNotations.

(** * Python exceptions and results *)

(** The exception classes the modelled statements can raise.
    [ConfigurationError] is the error kind named by the specification; no
    statement of [Decode_videos.py] constructs it. *)
Inductive exn : Set :=
| AssertionError
| ValueError
| IndexError
| AxisError
| ZeroDivisionError
| Cv2Error
| ConfigurationError.

Inductive result (A : Type) : Type :=
| Ok (a : A)
| Raise (e : exn).
Arguments Ok {A} a.
Arguments Raise {A} e.

#[global] Instance result_ret : MRet result := fun A a => Ok a.
#[global] Instance result_bind : MBind result :=
  fun A B f m => match m with Ok a => f a | Raise e => Raise e end.

(** [assert cond] of Python. *)
Definition py_assert (cond : bool) : result unit :=
  if cond then Ok tt else Raise AssertionError.

(** * Floating-point values

    Python and NumPy floats are modelled by their real value, extended with
    the IEEE special values the program can produce; rounding is not
    modelled. *)

#[global] Instance Rlt_decision (x y : R) : Decision (x < y)%R := Rlt_dec x y.
#[global] Instance Rle_decision (x y : R) : Decision (x <= y)%R := Rle_dec x y.
#[global] Instance Req_decision : EqDecision R := Req_dec_T.

Inductive npfloat : Type :=
| Fin (r : R)
| PInf
| NInf
| NaN.

Definition isnan (a : npfloat) : bool :=
  match a with NaN => true | _ => false end.

(** [a <= b] on floats: false as soon as one side is NaN. *)
Definition np_le (a b : npfloat) : bool :=
  match a, b with
  | NaN, _ | _, NaN => false
  | NInf, _ => true
  | _, PInf => true
  | Fin x, Fin y => bool_decide (x <= y)%R
  | _, _ => false
  end.

(** [a > b] on floats: false as soon as one side is NaN. *)
Definition np_gt (a b : npfloat) : bool :=
  match a, b with
  | NaN, _ | _, NaN => false
  | PInf, PInf => false
  | PInf, _ => true
  | _, NInf => match a with NInf => false | _ => true end
  | Fin x, Fin y => bool_decide (y < x)%R
  | _, _ => false
  end.

(** [a < b] on floats. *)
Definition np_lt (a b : npfloat) : bool := np_gt b a.

#[global] Instance npfloat_eq_dec : EqDecision npfloat.
Proof. solve_decision. Defined.

Module Np.
Section Numeric.
Local Open Scope R_scope.

(** [np.divide] of two finite values: a zero divisor gives an infinity or,
    for [0/0], NaN (NumPy warns and does not raise). *)
Definition divide (a b : R) : npfloat :=
  if decide (b = 0) then
    if decide (a = 0) then NaN
    else if decide (0 < a) then PInf else NInf
  else Fin (a / b).

Definition sum (v : list R) : R := fold_right Rplus 0 v.

(** [v.mean()] of one row. *)
Definition mean (v : list R) : R := sum v / INR (length v).

Definition square (v : list R) : list R := map (fun a => a * a) v.

(** One entry of [np.dot(X, Y.T)]: the inner product of a row of [X] with a
    row of [Y]. *)
Definition inner (u v : list R) : R :=
  sum (map (fun p => fst p * snd p) (combine u v)).

(** [np.max]: NaN propagates; an empty array raises. *)
Definition maximum (a b : npfloat) : npfloat :=
  if isnan a then a else if isnan b then b else if np_le b a then a else b.

Definition max (v : list npfloat) : result npfloat :=
  match v with
  | [] => Raise ValueError
  | a :: v' => Ok (fold_left maximum v' a)
  end.

(** [np.argmax]: index of the first maximal entry, a NaN counting as
    maximal (the scan stops at the first NaN). *)
Fixpoint argmax_from (v : list npfloat) (i : nat) (mp : npfloat) (ind : nat) : nat :=
  match v with
  | [] => ind
  | a :: v' =>
      if isnan mp then ind
      else if negb (np_le a mp) then argmax_from v' (S i) a i
      else argmax_from v' (S i) mp ind
  end.

Definition argmax (v : list npfloat) : result nat :=
  match v with
  | [] => Raise ValueError
  | a :: v' => Ok (argmax_from v' 1 a 0)
  end.

End Numeric.
End Np.

(** * [corr2_coeff] *)

(** A 2-D float array is the list of its rows. *)
Abbreviation matrix := (list (list R)).

Section Corr.
Local Open Scope R_scope.

Definition ncols (A : matrix) : nat := length (hd [] A).

Definition rectangular (A : matrix) : bool :=
  forallb (fun row => Nat.eqb (length row) (ncols A)) A.

(** [np.subtract(A, A.mean(1)[:,None])]. *)
Definition sub_row_mean (A : matrix) : matrix :=
  map (fun row => map (fun a => a - Np.mean row) row) A.

(** [np.square(A).sum(1)]. *)
Definition sum_squares (A : matrix) : list R :=
  map (fun row => Np.sum (Np.square row)) A.

(** Row-wise correlation of the rows of [A] with the rows of [B]
    (lines 162-172).  A list without rows stands for [np.array([])], of
    shape (0,): [.mean(1)] needs a second axis and raises.  [np.dot] raises
    when the row lengths of [A] and [B] differ.  The argument of [np.sqrt]
    is a product of two sums of squares and is never negative. *)
Definition corr2_coeff (A B : matrix) : result (list (list npfloat)) :=
  match A, B with
  | [], _ | _, [] => Raise AxisError
  | _, _ =>
      if negb (rectangular A && rectangular B && Nat.eqb (ncols A) (ncols B))
      then Raise ValueError
      else
        let A_mA := sub_row_mean A in
        let B_mB := sub_row_mean B in
        let ssA := sum_squares A_mA in
        let ssB := sum_squares B_mB in
        Ok (map (fun ia =>
                   map (fun jb =>
                          Np.divide (Np.inner (fst ia) (fst jb))
                                    (sqrt (snd ia * snd jb)))
                       (combine B_mB ssB))
                (combine A_mA ssA))
  end.

End Corr.

(** * Pixel geometry *)

(** A pixel position (x, y); contours and polygons are int32 arrays. *)
Abbreviation point := (Z * Z)%type.
Abbreviation contour := (list (Z * Z)%type).

(** ** [np.argsort]

    With the default kind NumPy sorts partitions of at most 16 elements by
    insertion: an entry moves left only past strictly greater keys, so equal
    keys stay in index order.  Every array sorted here has at most 4
    entries. *)
Section Argsort.
Context {K : Type} (ltb : K -> K -> bool).

Fixpoint insert_key (x : nat * K) (sorted : list (nat * K)) : list (nat * K) :=
  match sorted with
  | [] => [x]
  | y :: rest =>
      if ltb (snd x) (snd y) then x :: y :: rest else y :: insert_key x rest
  end.

Definition argsort (keys : list K) : list nat :=
  map fst (fold_left (fun sorted x => insert_key x sorted) (imap pair keys) []).

End Argsort.

(** Fancy indexing [a[idx, :]] with in-range indices. *)
Definition rows_at {A : Type} (a : list A) (idx : list nat) : list A :=
  omap (fun i => a !! i) idx.

Definition Rltb (a b : R) : bool := bool_decide (a < b)%R.

(** Squared Euclidean distance between two pixel positions. *)
Definition sqdist (p q : point) : Z :=
  ((fst p - fst q) * (fst p - fst q) + (snd p - snd q) * (snd p - snd q))%Z.

(** One entry of [dist.cdist(_, _, "euclidean")]. *)
Definition euclidean (p q : point) : R := sqrt (IZR (sqdist p q)).

(** Lines 135-160.  The float32 result holds the same integer coordinates
    as the int32 input, so both are lists of [point]. *)
Definition order_points (pts : list point) : result (list point) :=
  let sorted_ := rows_at pts (argsort Z.ltb (map fst pts)) in
  let left := take 2 sorted_ in
  let right := drop 2 sorted_ in
  let left := rows_at left (argsort Z.ltb (map snd left)) in
  match left with
  | [tl; bl] =>
      let D := map (euclidean tl) right in
      match rows_at right (rev (argsort Rltb D)) with
      | [br; tr] => Ok [tl; tr; br; bl]
      | _ => Raise ValueError
      end
  | _ => Raise ValueError
  end.

(** [order_points] with the distances compared through their squares, which
    evaluates by computation. *)
Definition order_points_sq (pts : list point) : result (list point) :=
  let sorted_ := rows_at pts (argsort Z.ltb (map fst pts)) in
  let left := take 2 sorted_ in
  let right := drop 2 sorted_ in
  let left := rows_at left (argsort Z.ltb (map snd left)) in
  match left with
  | [tl; bl] =>
      let D := map (sqdist tl) right in
      match rows_at right (rev (argsort Z.ltb D)) with
      | [br; tr] => Ok [tl; tr; br; bl]
      | _ => Raise ValueError
      end
  | _ => Raise ValueError
  end.


(** * Slices and 2-D arrays *)

(** [slice(start, stop).indices(len)] of Python, step 1. *)
Definition slice_bounds (start stop len : Z) : Z * Z :=
  let adj (i : Z) := if (i <? 0)%Z then Z.max (i + len) 0 else Z.min i len in
  (adj start, adj stop).

Definition slice_len (start stop len : Z) : Z :=
  let '(lo, hi) := slice_bounds start stop len in Z.max 0 (hi - lo).

Definition py_slice {A : Type} (l : list A) (start stop : Z) : list A :=
  let '(lo, hi) := slice_bounds start stop (Z.of_nat (length l)) in
  take (Z.to_nat (hi - lo)) (drop (Z.to_nat lo) l).

(** A 2-D NumPy array with its shape kept apart from its cells, so that
    arrays with an empty axis keep the length of the other one. *)
Record ndarray2 (A : Type) : Type := mk_ndarray2 {
  shape0 : Z;
  shape1 : Z;
  at2 : Z -> Z -> A
}.
Arguments mk_ndarray2 {A}.
Arguments shape0 {A}.
Arguments shape1 {A}.
Arguments at2 {A}.

Definition zrange (n : Z) : list Z := map Z.of_nat (seq 0 (Z.to_nat n)).

Definition to_rows {A : Type} (a : ndarray2 A) : list (list A) :=
  map (fun i => map (fun j => at2 a i j) (zrange (shape1 a))) (zrange (shape0 a)).

Definition flatten {A : Type} (a : ndarray2 A) : list A := concat (to_rows a).

Section Arrays.
Context {A : Type} (default : A).

(** [np.zeros(shape)] / [np.ones(shape)]: a negative dimension raises. *)
Definition np_full (v : A) (shape : Z * Z) : result (ndarray2 A) :=
  if ((fst shape <? 0) || (snd shape <? 0))%Z then Raise ValueError
  else Ok (mk_ndarray2 (fst shape) (snd shape) (fun _ _ => v)).

(** [v.reshape(shape)] of a 1-D array: NumPy reads a negative dimension as
    the unknown one and infers it (two unknown dimensions raise); otherwise
    the cell count must be kept. *)
Definition reshape2 (v : list A) (shape : Z * Z) : result (ndarray2 A) :=
  let n := Z.of_nat (length v) in
  let '(h, w) := shape in
  let build (h w : Z) :=
    Ok (mk_ndarray2 h w (fun i j => nth (Z.to_nat (i * w + j)) v default)) in
  if ((h <? 0) && (w <? 0))%Z then Raise ValueError
  else if (h <? 0)%Z then
    if ((w =? 0) || negb (n mod w =? 0))%Z then Raise ValueError
    else build (n / w)%Z w
  else if (w <? 0)%Z then
    if ((h =? 0) || negb (n mod h =? 0))%Z then Raise ValueError
    else build h (n / h)%Z
  else if (h * w =? n)%Z then build h w
  else Raise ValueError.

(** [dst[r0:r1, c0:c1] = src]: the source must broadcast to the shape of
    the sliced region (equal length, or length 1, on each axis). *)
Definition set_slice (dst : ndarray2 A) (r0 r1 c0 c1 : Z) (src : ndarray2 A)
  : result (ndarray2 A) :=
  let '(rlo, _) := slice_bounds r0 r1 (shape0 dst) in
  let '(clo, _) := slice_bounds c0 c1 (shape1 dst) in
  let rn := slice_len r0 r1 (shape0 dst) in
  let cn := slice_len c0 c1 (shape1 dst) in
  let fits (s n : Z) := ((s =? n) || (s =? 1))%Z in
  if fits (shape0 src) rn && fits (shape1 src) cn then
    Ok (mk_ndarray2 (shape0 dst) (shape1 dst)
          (fun i j =>
             if ((rlo <=? i) && (i <? rlo + rn) && (clo <=? j) && (j <? clo + cn))%Z
             then at2 src (if (shape0 src =? 1)%Z then 0 else i - rlo)%Z
                          (if (shape1 src =? 1)%Z then 0 else j - clo)%Z
             else at2 dst i j))
  else Raise ValueError.

Context (zero one : A).

(** Lines 86-119. *)
Definition add_border (tag : list A) (tag_shape : Z * Z)
    (white_width black_width : Z) : result ((Z * Z) * ndarray2 A) :=
  tag ← reshape2 tag tag_shape;
  black_border ← np_full zero
    (fst tag_shape + 2 * white_width + 2 * black_width,
     snd tag_shape + 2 * white_width + 2 * black_width)%Z;
  white_border ← np_full one
    (fst tag_shape + 2 * white_width, snd tag_shape + 2 * white_width)%Z;
  white_border ← set_slice white_border
    white_width (fst tag_shape + white_width)
    white_width (snd tag_shape + white_width) tag;
  black_border ← set_slice black_border
    black_width (fst tag_shape + 2 * white_width + black_width)
    black_width (snd tag_shape + 2 * white_width + black_width) white_border;
  let tag := black_border in
  bordered_tag ← reshape2 (flatten tag) (1, shape0 tag * shape1 tag)%Z;
  let tag_shape := (shape0 black_border, shape1 black_border) in
  Ok (tag_shape, bordered_tag).

End Arrays.


(** * Orientation angle *)
Section Angle.
Local Open Scope R_scope.

(** [np.arctan2(y, x)] on finite arguments, with [arctan2(0, 0) = 0]. *)
Definition arctan2 (y x : R) : R :=
  if decide (0 < x) then atan (y / x)
  else if decide (x < 0) then
    if decide (0 <= y) then atan (y / x) + PI else atan (y / x) - PI
  else if decide (0 < y) then PI / 2
  else if decide (y < 0) then - PI / 2
  else 0.

(** [a % b] on floats: the result has the sign of the divisor. *)
Definition py_mod (a b : R) : R := a - b * IZR (Int_part (a / b)).

Definition degrees (a : R) : R := a * (180 / PI).

(** Lines 180-210.  The [np.isnan] branch is taken only for a NaN angle,
    which finite vector components never give. *)
Definition angle (vector : R * R) (degrees_flag : bool) : R :=
  let angle := py_mod (arctan2 (snd vector) (fst vector)) (2 * PI) in
  if degrees_flag then degrees angle else angle.

End Angle.

(** * Images *)

(** A single-channel uint8 image and a 3-channel BGR image, as lists of
    rows. *)
Abbreviation gray_image := (list (list Z)).
Abbreviation color_image := (list (list (Z * Z * Z)%type)).

(** [image.shape[0]] and [image.shape[1]]. *)
Definition height {A : Type} (image : list (list A)) : Z := Z.of_nat (length image).
Definition width {A : Type} (image : list (list A)) : Z := Z.of_nat (length (hd [] image)).

(** Lines 121-127. *)
Definition crop {A : Type} (src : list (list A)) (pt1 pt2 : Z * Z) : list (list A) :=
  map (fun row => py_slice row (fst pt1) (fst pt2)) (py_slice src (snd pt1) (snd pt2)).

(** * The OpenCV functions the decoder calls

    OpenCV is an external library: its functions are parameters of the
    model, with the flag arguments the source passes fixed. *)
Record Cv2 : Type := {
  transform : Type;
  cvtColor_BGR2GRAY : color_image -> gray_image;
  GaussianBlur : gray_image -> Z * Z -> R -> gray_image;
  (* ADAPTIVE_THRESH_MEAN_C, THRESH_BINARY: maxValue, blockSize, C *)
  adaptiveThreshold : gray_image -> Z -> Z -> R -> gray_image;
  (* RETR_TREE, CHAIN_APPROX_SIMPLE *)
  findContours : gray_image -> list contour;
  (* oriented = True *)
  contourArea : contour -> R;
  (* closed = True *)
  arcLength : contour -> R;
  (* closed = True *)
  approxPolyDP : contour -> R -> contour;
  isContourConvex : contour -> bool;
  getPerspectiveTransform : list point -> list (Z * Z) -> transform;
  (* dsize, borderValue *)
  warpPerspective : gray_image -> transform -> Z * Z -> Z -> gray_image;
  (* INTER_AREA, on a uint8 image *)
  resize : gray_image -> Z * Z -> gray_image;
  (* INTER_AREA, on a float64 array; [None] is a [cv2.error] *)
  resize_f64 : matrix -> Z * Z -> option matrix
}.

Section Decoder.
Context (cv : Cv2).
(** Type of the entries of [tags.id_list]. *)
Context {ID : Type}.

(** Lines 212-249.  The assertions on the array type, rank, channel count
    and dtype hold by the type of [image].  On an image without pixels
    [cv2.split] returns no channel, so the unpacking into three names raises
    ValueError, and [cv2.cvtColor] raises its own error. *)
Definition get_grayscale (image : color_image) (channel : option string)
  : result gray_image :=
  _ ← py_assert (bool_decide
         (channel ∈ [Some "blue"; Some "green"; Some "red"; Some "none"; None]));
  let no_pixels := bool_decide (concat image = []) in
  if bool_decide (channel = Some "blue") then
    if no_pixels then Raise ValueError
    else Ok (map (map (fun bgr => fst (fst bgr))) image)
  else if bool_decide (channel = Some "green") then
    if no_pixels then Raise ValueError
    else Ok (map (map (fun bgr => snd (fst bgr))) image)
  else if bool_decide (channel = Some "red") then
    if no_pixels then Raise ValueError
    else Ok (map (map (fun bgr => snd bgr)) image)
  else
    if no_pixels then Raise Cv2Error
    else Ok (cvtColor_BGR2GRAY cv image).

(** Lines 251-280.  The assertions on the array type, rank and dtype hold
    by the type of [gray].  [cv2.adaptiveThreshold] itself requires an odd
    block size above 1 and raises its own error otherwise. *)
Definition get_threshold (gray : gray_image) (block_size : Z) (offset : R)
  : result gray_image :=
  _ ← py_assert (block_size `mod` 2 =? 1)%Z;
  if (block_size <=? 1)%Z then Raise Cv2Error
  else Ok (adaptiveThreshold cv gray 255 block_size offset).

(** [np.unique(image)] as the set of its values. *)
Definition np_unique (image : gray_image) : gset Z := list_to_set (concat image).

(** Lines 282-301: the assertion takes the set difference
    [{0, 255} - unique values] and requires it to be empty. *)
Definition get_contours (threshold_image : gray_image) : result (list contour) :=
  _ ← py_assert
        (bool_decide (size (({[0%Z; 255%Z]} : gset Z) ∖ np_unique threshold_image) = 0%nat));
  Ok (findContours cv threshold_image).

(** One line of the output file (line 513). *)
Record DetectionRecord : Type := mk_record {
  msec : R;
  frame_number : R;
  id : ID;
  id_prob : npfloat;
  x : R;
  y : R;
  orientation : R
}.

(** Constants of [run_decoder]. *)
Definition barcode_size : Z * Z := (7, 7)%Z.
Definition flat_len : Z := (fst barcode_size * snd barcode_size)%Z.
Definition maxSide : Z := 100.
Definition length_ : Z := (maxSide - 1)%Z.
Definition dst : list (Z * Z) :=
  [(0, 0); (length_, 0); (length_, length_); (0, length_)]%Z.
Definition pt1 : Z * Z := (0, 0)%Z.
Definition edge_thresh : Z := 1.

(** Lines 318-326, with the constants of the call as parameters. *)
Definition build_barcodes (master_list : list (list R)) (tag_shape : Z * Z)
    (white_width black_width : Z) (barcode_size : Z * Z) : result matrix :=
  mapM (fun barcode =>
          '(tag_shape, barcode) ← add_border 0%R 0%R 1%R barcode tag_shape
                                              white_width black_width;
          barcode ← reshape2 0%R (flatten barcode) tag_shape;
          barcode ← match resize_f64 cv (to_rows barcode) barcode_size with
                    | Some b => Ok b
                    | None => Raise Cv2Error
                    end;
          Ok (concat barcode))
       master_list.

(** Python's [a / b] on floats. *)
Definition py_div (a b : R) : result R :=
  if decide (b = 0%R) then Raise ZeroDivisionError else Ok (a / b)%R.

Definition to_float (p : point) : R * R := (IZR (fst p), IZR (snd p)).

(** [np.mean(rows, axis = 0)] of 2-column rows. *)
Definition mean0 (rows : list (R * R)) : R * R :=
  (Np.mean (map fst rows), Np.mean (map snd rows)).

(** Line 457: the rectified patch, flattened, against every library row. *)
Definition correlate (barcodes : matrix) (resize_warp : gray_image)
  : result (list (list npfloat)) :=
  patch ← reshape2 0%Z (concat resize_warp) (1, flat_len)%Z;
  corr2_coeff barcodes (map (map IZR) (to_rows patch)).

(** Lines 458-514: accept the best match above the threshold, estimate the
    pose and write the record. *)
Definition match_and_write (barcodes : matrix) (IDs : list ID)
    (pos_msec pos_frames : R) (pts : list point) (tl tr br bl : point)
    (resize_warp : gray_image) : result (option DetectionRecord) :=
  correlation ← correlate barcodes resize_warp;
  best_value ← Np.max (concat correlation);
  if np_gt best_value (Fin 0.8) then
    best_index ← Np.argmax (concat correlation);
    ID ← match IDs !! best_index with
         | Some i => Ok i
         | None => Raise IndexError
         end;
    let centroid := mean0 (map to_float pts) in
    let rotate_test := (best_index mod 4)%nat in
    let edge :=
      if (rotate_test =? 3)%nat then mean0 [to_float tl; to_float tr]
      else if (rotate_test =? 0)%nat then mean0 [to_float tl; to_float bl]
      else if (rotate_test =? 1)%nat then mean0 [to_float br; to_float bl]
      else (* rotate_test == 2 *) mean0 [to_float br; to_float tr] in
    (* edge[1] = -edge[1]; centroid[1] = -centroid[1] *)
    let edge := (fst edge, - snd edge)%R in
    let centroid := (fst centroid, - snd centroid)%R in
    let vector := (fst edge - fst centroid, snd edge - snd centroid)%R in
    let vector_angle := angle vector true in
    Ok (Some (mk_record pos_msec pos_frames ID best_value
                (fst centroid + IZR (fst pt1))
                (snd centroid + IZR (snd pt1))
                vector_angle))
  else Ok None.

(** Lines 401-514: the body of [for cnt in contours].  The drawing calls on
    [display_img] are left out. *)
Definition contour_body (gray : gray_image) (image_shape : Z * Z)
    (barcodes : matrix) (IDs : list ID) (pos_msec pos_frames : R)
    (cnt : contour) : result (option DetectionRecord) :=
  let maxx_thresh := (snd image_shape - edge_thresh)%Z in
  let maxy_thresh := (fst image_shape - edge_thresh)%Z in
  if (4 <=? length cnt)%nat then
    let area := contourArea cv cnt in
    if bool_decide (-10 > area)%R && bool_decide (area > -2000)%R then
      let cnt_x := map fst cnt in
      let cnt_y := map snd cnt in
      let flat := concat (map (fun p => [fst p; snd p]) cnt) in
      let edge_zero := length (filter (fun c => c <= edge_thresh)%Z flat) in
      let edge_maxx := length (filter (fun c => c >= maxx_thresh)%Z cnt_x) in
      let edge_maxy := length (filter (fun c => c >= maxy_thresh)%Z cnt_y) in
      if (edge_zero =? 0)%nat && (edge_maxx =? 0)%nat && (edge_maxy =? 0)%nat then
        let peri_cnt := arcLength cv cnt in
        let approx := approxPolyDP cv cnt (0.07 * peri_cnt)%R in
        let poly_area := contourArea cv approx in
        if (length approx =? 4)%nat
           && (bool_decide (-10 > poly_area)%R && bool_decide (poly_area > -2000)%R)
           && isContourConvex cv approx
           && (bool_decide (0 < peri_cnt)%R && bool_decide (peri_cnt < 500)%R)
        then
          let peri_approx := arcLength cv approx in
          periarea ← py_div peri_cnt area;
          if bool_decide (-0.5 < periarea)%R && bool_decide (periarea <= 0)%R then
            pts ← order_points approx;
            match pts with
            | [tl; tr; br; bl] =>
                let M := getPerspectiveTransform cv pts dst in
                let warped := warpPerspective cv gray M (maxSide, maxSide) 255 in
                let resize_warp := resize cv warped barcode_size in
                match_and_write barcodes IDs pos_msec pos_frames pts tl tr br bl
                                resize_warp
            | _ => Raise ValueError
            end
          else Ok None
        else Ok None
      else Ok None
    else Ok None
  else Ok None.

(** The loop over the contours of one frame: the records written so far
    stay in the file when a later contour raises. *)
Fixpoint contours_loop (gray : gray_image) (image_shape : Z * Z)
    (barcodes : matrix) (IDs : list ID) (pos_msec pos_frames : R)
    (contours : list contour) : list DetectionRecord * result unit :=
  match contours with
  | [] => ([], Ok tt)
  | cnt :: rest =>
      match contour_body gray image_shape barcodes IDs pos_msec pos_frames cnt with
      | Raise e => ([], Raise e)
      | Ok written =>
          let '(more, outcome) :=
            contours_loop gray image_shape barcodes IDs pos_msec pos_frames rest in
          (from_option (fun r => [r]) [] written ++ more, outcome)
      end
  end.

(** Lines 382-514: one frame that [cap.read()] returned.  [pt2] is the frame
    size reported by the capture. *)
Definition frame_body (barcodes : matrix) (IDs : list ID) (pt2 : Z * Z)
    (image : color_image) (pos_msec pos_frames : R)
  : list DetectionRecord * result unit :=
  let image := crop image pt1 pt2 in
  match
    (gray ← get_grayscale image (Some "green");
     let gray := GaussianBlur cv gray (1, 1)%Z 1%R in
     thresh ← get_threshold gray 201 (-25)%R;
     contours ← get_contours thresh;
     Ok (gray, contours))
  with
  | Raise e => ([], Raise e)
  | Ok (gray, contours) =>
      contours_loop gray (height image, width image) barcodes IDs
                    pos_msec pos_frames contours
  end.

(** The loop of lines 377-532 over the frames that [cap.read()] returns,
    each with its position in milliseconds and its frame number. *)
Fixpoint frames_loop (barcodes : matrix) (IDs : list ID) (pt2 : Z * Z)
    (frames : list (color_image * R * R)) : list DetectionRecord * result unit :=
  match frames with
  | [] => ([], Ok tt)
  | (image, pos_msec, pos_frames) :: rest =>
      match frame_body barcodes IDs pt2 image pos_msec pos_frames with
      | (written, Raise e) => (written, Raise e)
      | (written, Ok _) =>
          let '(more, outcome) := frames_loop barcodes IDs pt2 rest in
          (written ++ more, outcome)
      end
  end.

(** Lines 304-544: [master_list] and [IDs] are the loaded tag dictionary,
    [frame_size] the (width, height) of the opened video. *)
Definition run_decoder (master_list : list (list R)) (IDs : list ID)
    (frame_size : Z * Z) (frames : list (color_image * R * R))
  : list DetectionRecord * result unit :=
  match build_barcodes master_list (5, 5)%Z 1%Z 0%Z barcode_size with
  | Raise e => ([], Raise e)
  | Ok barcodes => frames_loop barcodes IDs frame_size frames
  end.

End Decoder.

(** * Notions the claims are stated with *)
Section SpecNotions.
Local Open Scope R_scope.

(** The Pearson correlation coefficient of two rows, as [corr2_coeff]
    computes one entry. *)
Definition deviations (v : list R) : list R := map (fun a => a - Np.mean v) v.
Definition sum_sq_dev (v : list R) : R := Np.sum (Np.square (deviations v)).
Definition pearson (a b : list R) : npfloat :=
  Np.divide (Np.inner (deviations a) (deviations b))
            (sqrt (sum_sq_dev a * sum_sq_dev b)).

(** The flattened patch as the float row given to [corr2_coeff]. *)
Definition candidate (resize_warp : gray_image) : list R :=
  map IZR (concat resize_warp).

(** A finite value that is at most [m]. *)
Definition fin_le (m : R) (a : npfloat) : Prop := exists r, a = Fin r /\ r <= m.

(** A row with zero variance. *)
Definition is_constant (v : list R) : Prop := exists c, forall a, a ∈ v -> a = c.

End SpecNotions.

Section GateNotions.
Context (cv : Cv2).
Local Open Scope R_scope.

(** Some vertex of the contour lies within [edge_thresh] pixels of the
    frame boundary; [image_shape] is (height, width). *)
Definition near_frame_edge (image_shape : Z * Z) (cnt : contour) : Prop :=
  exists p, p ∈ cnt /\
    (fst p <= edge_thresh \/ snd p <= edge_thresh \/
     fst p >= snd image_shape - edge_thresh \/
     snd p >= fst image_shape - edge_thresh)%Z.

(** The strict area band of the source. *)
Definition area_in_band (area : R) : Prop := -2000 < area < -10.

(** The simplified polygon of a contour, as line 425 computes it. *)
Definition simplified (cnt : contour) : contour :=
  approxPolyDP cv cnt (0.07 * arcLength cv cnt).

(** The conditions of lines 432 and 440 on the simplified polygon. *)
Definition polygon_accepted (cnt : contour) : Prop :=
  length (simplified cnt) = 4%nat /\
  isContourConvex cv (simplified cnt) = true /\
  area_in_band (contourArea cv (simplified cnt)) /\
  0 < arcLength cv cnt < 500 /\
  -0.5 < arcLength cv cnt / contourArea cv cnt <= 0.

(** The 7x7 patch rectified from the quadrilateral [pts] (lines 452-454). *)
Definition rectified (gray : gray_image) (pts : list point) : gray_image :=
  resize cv
    (warpPerspective cv gray (getPerspectiveTransform cv pts dst)
                     (maxSide, maxSide) 255)
    barcode_size.

End GateNotions.

Section GateNotions2.
Context (cv : Cv2).

(** All the geometric conditions of lines 403-440. *)
Definition passes_gates (image_shape : Z * Z) (cnt : contour) : Prop :=
  (4 <= length cnt)%nat /\
  area_in_band (contourArea cv cnt) /\
  ~ near_frame_edge image_shape cnt /\
  polygon_accepted cv cnt.

End GateNotions2.

Section QuadNotions.
Local Open Scope Z_scope.

(** The order in which [order_points] leaves a quadrilateral, stated on the
    corners: the upper of the two left corners first, and the right corner
    farther from it as bottom-right (ties by x). *)
Definition canonical_order (tl tr br bl : point) : Prop :=
  (snd tl < snd bl \/ (snd tl = snd bl /\ fst tl <= fst bl)) /\
  (sqdist tl tr < sqdist tl br \/ (sqdist tl tr = sqdist tl br /\ fst tr <= fst br)).

(** The two left corners lie strictly left of the two right corners. *)
Definition strict_split (tl tr br bl : point) : Prop :=
  fst tl < fst tr /\ fst tl < fst br /\ fst bl < fst tr /\ fst bl < fst br.

(** z-component of the cross product of the edges [p -> q] and [q -> r]. *)
Definition cross (p q r : point) : Z :=
  (fst q - fst p) * (snd r - snd q) - (snd q - snd p) * (fst r - fst q).

(** A convex, non-degenerate quadrilateral: its four turns have one strict
    sign. *)
Definition convex_quad (a b c d : point) : Prop :=
  (0 < cross a b c /\ 0 < cross b c d /\ 0 < cross c d a /\ 0 < cross d a b) \/
  (cross a b c < 0 /\ cross b c d < 0 /\ cross c d a < 0 /\ cross d a b < 0).

End QuadNotions.

Section PoseNotions.
Local Open Scope R_scope.

(** Arithmetic mean of the four corners of a quadrilateral. *)
Definition quad_centroid (tl tr br bl : point) : R * R :=
  ((IZR (fst tl) + IZR (fst tr) + IZR (fst br) + IZR (fst bl)) / 4,
   (IZR (snd tl) + IZR (snd tr) + IZR (snd br) + IZR (snd bl)) / 4).

Definition midpoint (p q : point) : R * R :=
  ((IZR (fst p) + IZR (fst q)) / 2, (IZR (snd p) + IZR (snd q)) / 2).

(** The reference edge selected by the rotation index: 0 is the left edge,
    1 the bottom edge, 2 the right edge and 3 the top edge of the canonical
    quadrilateral. *)
Definition reference_edge (rotation_index : nat) (tl tr br bl : point) : R * R :=
  match (rotation_index mod 4)%nat with
  | 0%nat => midpoint tl bl
  | 1%nat => midpoint br bl
  | 2%nat => midpoint br tr
  | _ => midpoint tl tr
  end.

End PoseNotions.

(** * A concrete scene

    One square marker contour in a 100x100 frame, with the values OpenCV
    reports for it, and a one-entry pattern library. *)
Module Scene.

Definition square : contour := [(10, 10); (10, 20); (20, 20); (20, 10)]%Z.
Definition cut_square : contour := [(0, 10); (0, 20); (20, 20); (20, 10)]%Z.

(** A 7x7 patch with a single white cell, and its two complements. *)
Definition patch : gray_image := [1; 0; 0; 0; 0; 0; 0]%Z :: repeat (repeat 0%Z 7) 6.
Definition inverse_patch : gray_image := [0; 1; 1; 1; 1; 1; 1]%Z :: repeat (repeat 1%Z 7) 6.
Definition blank_patch : gray_image := repeat (repeat 255%Z 7) 7.

Definition stored : list R := 1%R :: repeat 0%R 48.
Definition all_white : list R := repeat 1%R 49.
Definition white_patch : gray_image := repeat (repeat 1%Z 7) 7.

(** [adaptiveThreshold] on an image whose pixels all equal its first one:
    the block mean is that value, and THRESH_BINARY keeps a pixel only if
    it exceeds mean - C. *)
Definition threshold_uniform (gray : gray_image) (maxValue : Z) (C : R) : gray_image :=
  let mean := IZR (hd 0%Z (hd [] gray)) in
  map (map (fun p => if decide (IZR p > mean - C)%R then maxValue else 0%Z)) gray.

Definition cv (rectified_patch : gray_image) : Cv2 := {|
  transform := unit;
  cvtColor_BGR2GRAY := fun image => map (map (fun bgr => snd (fst bgr))) image;
  GaussianBlur := fun gray _ _ => gray;
  adaptiveThreshold := fun gray maxValue _ C => threshold_uniform gray maxValue C;
  findContours := fun _ => [square];
  contourArea := fun _ => (-100)%R;
  arcLength := fun _ => 40%R;
  approxPolyDP := fun cnt _ => cnt;
  isContourConvex := fun _ => true;
  getPerspectiveTransform := fun _ _ => tt;
  warpPerspective := fun gray _ _ _ => gray;
  resize := fun _ _ => rectified_patch;
  resize_f64 := fun m _ => Some m
|}.



Definition black_frame : color_image := repeat (repeat (0, 0, 0)%Z 4) 4.

Definition tag : list R :=
  [0; 1; 0; 1; 0;  1; 1; 0; 0; 1;  0; 0; 0; 0; 0;  1; 0; 1; 0; 1;  0; 1; 1; 1; 0]%R.

End Scene.

(** * Border layout, vectors and calibration *)

(** A point whose coordinates float32 represents exactly: [order_points]
    receives its points as a float32 array. *)
Definition float32_exact (p : point) : Prop :=
  (Z.abs (fst p) <= 2 ^ 24 /\ Z.abs (snd p) <= 2 ^ 24)%Z.

Section BorderNotions.
Context {A : Type} (default zero one : A).
Local Open Scope Z_scope.

(** The cell at row [i], column [j] of a tag of [h] rows and [w] columns
    surrounded by a ring of [ww] white cells and, around it, a ring of [bw]
    black cells. *)
Definition bordered_cell (tag : list A) (h w ww bw i j : Z) : A :=
  if (bw <=? i) && (i <? bw + 2 * ww + h) && (bw <=? j) && (j <? bw + 2 * ww + w)
  then
    if (bw + ww <=? i) && (i <? bw + ww + h)
       && (bw + ww <=? j) && (j <? bw + ww + w)
    then nth (Z.to_nat ((i - bw - ww) * w + (j - bw - ww))) tag default
    else one
  else zero.

End BorderNotions.

(** * [unit_vector] *)

Section Vectors.
Local Open Scope R_scope.

(** [np.linalg.norm] of a 1-D array: its 2-norm. *)
Definition linalg_norm (vector : list R) : R := sqrt (Np.sum (Np.square vector)).

(** Lines 174-178: every component is divided by the norm; for a zero norm
    NumPy warns and gives NaN or an infinity. *)
Definition unit_vector (vector : list R) : list npfloat :=
  map (fun a => Np.divide a (linalg_norm vector)) vector.

End Vectors.

(** * [undistort_image] *)

(** The OpenCV calibration functions, with the flag arguments the source
    passes fixed; [V] is the type of the values of the calibration
    dictionary. *)
Record Cv2Calib (V Pixel : Type) : Type := {
  remap_table : Type;
  (* alpha = 1, newImgSize = imageSize: new camera matrix and (x, y, w, h) *)
  getOptimalNewCameraMatrix : V -> V -> Z * Z -> V * (Z * Z * Z * Z);
  (* R = None, m1type = 5 *)
  initUndistortRectifyMap : V -> V -> V -> Z * Z -> remap_table * remap_table;
  (* INTER_LINEAR *)
  remap : list (list Pixel) -> remap_table -> remap_table -> list (list Pixel)
}.
Arguments remap_table {V Pixel}.
Arguments getOptimalNewCameraMatrix {V Pixel}.
Arguments initUndistortRectifyMap {V Pixel}.
Arguments remap {V Pixel}.

(** The outcome of [undistort_image]: the only exception the function itself
    raises is the [TypeError] of line 41. *)
Inductive undistorted (Pixel : Type) : Type :=
| Undistorted (dst : list (list Pixel))
| RaiseTypeError.
Arguments Undistorted {Pixel}.
Arguments RaiseTypeError {Pixel}.

Section Undistort.
Context {V Pixel : Type} (cvc : Cv2Calib V Pixel).

(** Lines 15-57.  The five look-ups are inside one [try]; a failing one is
    turned into [TypeError] by the bare [except]. *)
Definition undistort_image (image : list (list Pixel)) (calib_params : gmap string V)
    (crop_flag : bool) : undistorted Pixel :=
  match calib_params !! "ret", calib_params !! "mtx", calib_params !! "dist",
        calib_params !! "rvecs", calib_params !! "tvecs" with
  | Some ret, Some mtx, Some dist, Some rvecs, Some tvecs =>
      let img := image in
      let h := height img in
      let w := width img in
      let '(newcameramtx, roi) := getOptimalNewCameraMatrix cvc mtx dist (w, h) in
      let '(mapx, mapy) := initUndistortRectifyMap cvc mtx dist newcameramtx (w, h) in
      let dst := remap cvc img mapx mapy in
      if crop_flag then
        let '(x, y, w, h) := roi in
        Undistorted (map (fun row => py_slice row x (x + w)) (py_slice dst y (y + h)))
      else Undistorted dst
  | _, _, _, _, _ => RaiseTypeError
  end.

End Undistort.

(** * Whole runs *)

Section RunNotions.
Context (cv : Cv2) {ID : Type}.
Local Open Scope R_scope.

(** The thresholded image that [frame_body] gives to [get_contours]
    (lines 385-390). *)
Definition frame_threshold (pt2 : Z * Z) (image : color_image) : gray_image :=
  adaptiveThreshold cv
    (GaussianBlur cv (map (map (fun bgr : Z * Z * Z => snd (fst bgr))) (crop image pt1 pt2))
                  (1, 1)%Z 1)
    255 201 (-25).

(** A record whose ID is one of the first [n_tags] entries of [IDs], whose
    confidence is a finite value above 0.8 and whose orientation is in
    [0, 360). *)
Definition well_formed_record (n_tags : nat) (IDs : list ID)
    (rec : @DetectionRecord ID) : Prop :=
  (exists j, (j < n_tags)%nat /\ IDs !! j = Some (id rec)) /\
  (exists r, id_prob rec = Fin r /\ 0.8 < r) /\
  0 <= orientation rec < 360.

End RunNotions.

Section RunNotions2.
Context (cv : Cv2).

(** [cv2.resize] returns a 7x7 array for every 7x7 float array, and every
    rectified patch has 49 pixels. *)
Definition resize_well_behaved : Prop :=
  (forall m : matrix,
     length m = 7%nat -> (forall row, row ∈ m -> length row = 7%nat) ->
     exists m', resize_f64 cv m barcode_size = Some m' /\ length (concat m') = 49%nat) /\
  (forall gray pts, length (concat (rectified cv gray pts)) = 49%nat).

End RunNotions2.

(** Scenes for whole runs and for the calibration. *)

Module Footage.

(** [Scene.tag] inside its white ring, as the 7x7 patch a perfect
    rectification would give. *)
Definition tag_patch : gray_image :=
  [[1; 1; 1; 1; 1; 1; 1];
   [1; 0; 1; 0; 1; 0; 1];
   [1; 1; 1; 0; 0; 1; 1];
   [1; 0; 0; 0; 0; 0; 1];
   [1; 1; 0; 1; 0; 1; 1];
   [1; 0; 1; 1; 1; 0; 1];
   [1; 1; 1; 1; 1; 1; 1]]%Z.

(** A 30x30 frame, dark at its first pixel and bright elsewhere. *)
Definition frame : color_image :=
  ((0, 0, 0) :: repeat (0, 100, 0) 29)%Z :: repeat (repeat (0, 100, 0)%Z 30) 29.

End Footage.

Module Calib.

(** A calibration whose remapping leaves the image unchanged and whose
    region of interest is the 2x2 rectangle at (1, 1). *)
Definition cvc : Cv2Calib Z Z := {|
  remap_table := unit;
  getOptimalNewCameraMatrix := fun mtx _ _ => (mtx, (1, 1, 2, 2)%Z);
  initUndistortRectifyMap := fun _ _ _ _ => (tt, tt);
  remap := fun img _ _ => img
|}.

Definition params : gmap string Z :=
  <["ret" := 0%Z]> (<["mtx" := 1%Z]> (<["dist" := 2%Z]>
    (<["rvecs" := 3%Z]> (<["tvecs" := 4%Z]> ∅)))).

Definition image : list (list Z) := repeat (repeat 0%Z 4) 4.

End Calib.

(** * Properties *)

Section CorrFacts.
Local Open Scope R_scope.

Lemma sum_cons (a : R) (v : list R) : Np.sum (a :: v) = a + Np.sum v.
Proof. reflexivity. Qed.

Lemma square_cons (a : R) (v : list R) : Np.square (a :: v) = a * a :: Np.square v.
Proof. reflexivity. Qed.

Lemma inner_cons (a b : R) (u v : list R) :
  Np.inner (a :: u) (b :: v) = a * b + Np.inner u v.
Proof. reflexivity. Qed.

Lemma inner_nil_l (v : list R) : Np.inner [] v = 0.
Proof. reflexivity. Qed.

Lemma inner_nil_r (u : list R) : Np.inner u [] = 0.
Proof. destruct u; reflexivity. Qed.

Lemma sum_repeat (c : R) (n : nat) : Np.sum (repeat c n) = INR n * c.
Proof.
  induction n as [|n IH].
  - simpl. unfold Np.sum; simpl. lra.
  - change (repeat c (S n)) with (c :: repeat c n).
    rewrite sum_cons, IH, S_INR. lra.
Qed.

Lemma mean_repeat (c : R) (n : nat) : (0 < n)%nat -> Np.mean (repeat c n) = c.
Proof.
  intros Hn. unfold Np.mean. rewrite sum_repeat, repeat_length.
  assert (0 < INR n) by (apply lt_0_INR; lia). field. lra.
Qed.

Lemma sub_mean_repeat (c : R) (n : nat) :
  map (fun a => a - Np.mean (repeat c n)) (repeat c n) = repeat 0 n.
Proof.
  destruct n as [|n]; [reflexivity|].
  rewrite mean_repeat by lia.
  generalize (S n) as m. induction m as [|m IH]; simpl; [reflexivity|].
  rewrite IH. f_equal. lra.
Qed.

Lemma sum_square_zeros (n : nat) : Np.sum (Np.square (repeat 0 n)) = 0.
Proof.
  induction n as [|n IH]; [reflexivity|].
  change (repeat 0 (S n)) with (0 :: repeat 0 n).
  rewrite square_cons, sum_cons, IH. lra.
Qed.

Lemma inner_zeros_r (u : list R) (n : nat) : Np.inner u (repeat 0 n) = 0.
Proof.
  revert n. induction u as [|a u IH]; intros [|n]; try reflexivity.
  change (repeat 0 (S n)) with (0 :: repeat 0 n).
  rewrite inner_cons, IH. lra.
Qed.

Lemma divide_zero_zero : Np.divide 0 0 = NaN.
Proof. unfold Np.divide. repeat case_decide; congruence. Qed.

Lemma sum_square_nonneg (v : list R) : 0 <= Np.sum (Np.square v).
Proof.
  induction v as [|a v IH]; [unfold Np.sum; simpl; lra|].
  rewrite square_cons, sum_cons. nra.
Qed.

(** Cauchy-Schwarz for the inner product of two rows. *)
Lemma inner_cauchy_schwarz (u v : list R) :
  Np.inner u v * Np.inner u v
  <= Np.sum (Np.square u) * Np.sum (Np.square v).
Proof.
  revert v. induction u as [|a u IH]; intros [|b v].
  - rewrite inner_nil_l. unfold Np.sum; simpl. lra.
  - rewrite inner_nil_l. pose proof (sum_square_nonneg (b :: v)).
    unfold Np.sum at 1; simpl. lra.
  - rewrite inner_nil_r. pose proof (sum_square_nonneg (a :: u)).
    unfold Np.sum at 2; simpl. lra.
  - specialize (IH v).
    pose proof (sum_square_nonneg u) as Hu.
    pose proof (sum_square_nonneg v) as Hv.
    rewrite inner_cons, !square_cons, !sum_cons.
    set (s := Np.inner u v) in *.
    set (U := Np.sum (Np.square u)) in *.
    set (V := Np.sum (Np.square v)) in *.
    assert (H2 : 2 * s * (a * b) <= U * (b * b) + V * (a * a)).
    { destruct (Rle_dec (2 * s * (a * b)) 0) as [Hn|Hp].
      - nra.
      - apply Rnot_le_lt in Hp.
        assert (Hsq : (2 * s * (a * b)) * (2 * s * (a * b))
                      <= (U * (b * b) + V * (a * a)) * (U * (b * b) + V * (a * a))).
        { assert (H4 : (s * s) * ((a * b) * (a * b)) <= (U * V) * ((a * b) * (a * b))).
          { apply Rmult_le_compat_r; [apply Rle_0_sqr | exact IH]. }
          pose proof (Rle_0_sqr (U * (b * b) - V * (a * a))) as Hd.
          unfold Rsqr in Hd. lra. }
        assert (0 <= U * (b * b) + V * (a * a)) by nra.
        nra. }
    nra.
Qed.

End CorrFacts.

Section CorrFacts2.
Local Open Scope R_scope.

Lemma combine_map_same {A B C : Type} (f : A -> B) (g : A -> C) (l : list A) :
  combine (map f l) (map g l) = map (fun a => (f a, g a)) l.
Proof. induction l as [|a l IH]; simpl; [reflexivity|]. by rewrite IH. Qed.

Lemma rectangular_spec (A : matrix) :
  rectangular A = true <-> forall row, row ∈ A -> length row = ncols A.
Proof.
  unfold rectangular. rewrite forallb_forall. split.
  - intros H row Hin. apply Nat.eqb_eq, H. by apply list_elem_of_In.
  - intros H row Hin. apply Nat.eqb_eq, H. by apply list_elem_of_In.
Qed.

(** [corr2_coeff] against a single row. *)
Lemma corr2_coeff_row (A : matrix) (b : list R) :
  A <> [] ->
  (forall row, row ∈ A -> length row = length b) ->
  corr2_coeff A [b] = Ok (map (fun a => [pearson a b]) A).
Proof.
  intros Hne Hlen. unfold corr2_coeff.
  destruct A as [|a0 A']; [congruence|].
  assert (Hr : rectangular (a0 :: A') = true).
  { apply rectangular_spec. intros row Hin. rewrite (Hlen row Hin).
    unfold ncols. simpl. symmetry. apply Hlen. left. }
  assert (Hb : rectangular [b] = true).
  { apply rectangular_spec. intros row Hin. apply list_elem_of_singleton in Hin. by subst. }
  assert (Hc : Nat.eqb (ncols (a0 :: A')) (ncols [b]) = true).
  { apply Nat.eqb_eq. unfold ncols; simpl. apply Hlen. left. }
  rewrite Hr, Hb, Hc. simpl negb. cbv iota zeta.
  f_equal. unfold sub_row_mean, sum_squares.
  rewrite !List.map_map. rewrite !combine_map_same. rewrite List.map_map.

  apply map_ext. intros a. reflexivity.
Qed.

Lemma deviations_repeat (c : R) (n : nat) : deviations (repeat c n) = repeat 0 n.
Proof. apply sub_mean_repeat. Qed.

Lemma is_constant_repeat (v : list R) :
  is_constant v -> exists c, v = repeat c (length v).
Proof.
  intros [c Hc]. exists c. induction v as [|a v IH]; [reflexivity|].
  simpl. rewrite <- IH.
  - f_equal. apply Hc. left.
  - intros a' Ha'. apply Hc. by right.
Qed.

Lemma pearson_constant_r (a b : list R) : is_constant b -> pearson a b = NaN.
Proof.
  intros Hb. destruct (is_constant_repeat b Hb) as [c Hc].
  unfold pearson, sum_sq_dev. rewrite Hc, deviations_repeat.
  rewrite inner_zeros_r, sum_square_zeros, Rmult_0_r, sqrt_0.
  apply divide_zero_zero.
Qed.

Lemma pearson_constant_l (a b : list R) : is_constant a -> pearson a b = NaN.
Proof.
  intros Ha. destruct (is_constant_repeat a Ha) as [c Hc].
  unfold pearson, sum_sq_dev. rewrite Hc, deviations_repeat.
  assert (Hi : Np.inner (repeat 0 (length a)) (deviations b) = 0).
  { generalize (deviations b) as u. generalize (length a) as n.
    induction n as [|n IH]; intros [|x u]; try reflexivity.
    change (repeat 0 (S n)) with (0 :: repeat 0 n).
    rewrite inner_cons, IH. lra. }
  rewrite Hi, sum_square_zeros, Rmult_0_l, sqrt_0.
  apply divide_zero_zero.
Qed.

Lemma sum_square_zero_all (v : list R) :
  Np.sum (Np.square v) = 0 -> forall a, a ∈ v -> a = 0.
Proof.
  induction v as [|x v IH]; intros Hs a Ha.
  - by apply elem_of_nil in Ha.
  - rewrite square_cons, sum_cons in Hs.
    pose proof (sum_square_nonneg v) as Hv.
    assert (x * x = 0 /\ Np.sum (Np.square v) = 0) as [Hx Hv0] by nra.
    apply elem_of_cons in Ha as [->|Ha].
    + nra.
    + by apply IH.
Qed.

Lemma sum_sq_dev_zero_constant (v : list R) : sum_sq_dev v = 0 -> is_constant v.
Proof.
  intros Hs. exists (Np.mean v). intros a Ha.
  pose proof (sum_square_zero_all _ Hs (a - Np.mean v)) as H.
  assert (a - Np.mean v = 0); [|lra].
  apply H. unfold deviations. apply list_elem_of_fmap. exists a. split; [reflexivity|done].
Qed.

Lemma sum_sq_dev_pos (v : list R) : ~ is_constant v -> 0 < sum_sq_dev v.
Proof.
  intros Hn. pose proof (sum_square_nonneg (deviations v)) as H.
  destruct (Req_dec (sum_sq_dev v) 0) as [H0|H0].
  - exfalso. by apply Hn, sum_sq_dev_zero_constant.
  - unfold sum_sq_dev in *. lra.
Qed.

Lemma pearson_self (v : list R) : ~ is_constant v -> pearson v v = Fin 1.
Proof.
  intros Hn. pose proof (sum_sq_dev_pos v Hn) as Hp.
  unfold pearson. rewrite sqrt_square by lra.
  assert (Hi : Np.inner (deviations v) (deviations v) = sum_sq_dev v).
  { unfold sum_sq_dev. generalize (deviations v) as u.
    induction u as [|x u IH]; [reflexivity|].
    rewrite inner_cons, square_cons, sum_cons, IH. reflexivity. }
  rewrite Hi. unfold Np.divide. case_decide; [lra|].
  f_equal. field. lra.
Qed.

Lemma pearson_le_1 (a b : list R) :
  ~ is_constant a -> ~ is_constant b -> exists r, pearson a b = Fin r /\ r <= 1.
Proof.
  intros Ha Hb.
  pose proof (sum_sq_dev_pos a Ha) as Hpa. pose proof (sum_sq_dev_pos b Hb) as Hpb.
  pose proof (inner_cauchy_schwarz (deviations a) (deviations b)) as Hcs.
  fold (sum_sq_dev a) in Hcs. fold (sum_sq_dev b) in Hcs.
  unfold pearson.
  set (n := Np.inner (deviations a) (deviations b)) in *.
  set (p := sum_sq_dev a * sum_sq_dev b) in *.
  assert (Hp : 0 < p) by (unfold p; nra).
  pose proof (sqrt_lt_R0 p Hp) as Hs.
  pose proof (sqrt_sqrt p (Rlt_le _ _ Hp)) as Hss.
  unfold Np.divide. case_decide; [lra|].
  eexists. split; [reflexivity|].
  apply (Rmult_le_reg_r (sqrt p)); [done|].
  unfold Rdiv. rewrite Rmult_assoc, Rinv_l by lra.
  nra.
Qed.

End CorrFacts2.

Section MaxFacts.
Local Open Scope R_scope.

Lemma maximum_nan_l (b : npfloat) : Np.maximum NaN b = NaN.
Proof. reflexivity. Qed.

Lemma fold_maximum_nan (v : list npfloat) : fold_left Np.maximum v NaN = NaN.
Proof. induction v as [|a v IH]; simpl; [reflexivity|exact IH]. Qed.

Lemma max_nan_head (v : list npfloat) : Np.max (NaN :: v) = Ok NaN.
Proof. unfold Np.max. by rewrite fold_maximum_nan. Qed.

Lemma fold_maximum_fin (v : list npfloat) (m : R) :
  m <= 1 -> Forall (fin_le 1) v ->
  exists m', fold_left Np.maximum v (Fin m) = Fin m' /\ m <= m' <= 1
             /\ Forall (fin_le m') v.
Proof.
  revert m. induction v as [|a v IH]; intros m Hm Hv; simpl.
  - exists m. repeat split; [lra|lra|constructor].
  - inversion Hv as [|? ? [r [-> Hr]] Hv']; subst.
    unfold Np.maximum at 2. simpl. case_bool_decide as Hc.
    + destruct (IH m Hm Hv') as (m' & -> & Hb & Hall).
      exists m'. repeat split; try lra. constructor; [|done].
      exists r. split; [done|lra].
    + destruct (IH r Hr Hv') as (m' & -> & Hb & Hall).
      exists m'. repeat split; try lra. constructor; [|done].
      exists r. split; [done|lra].
Qed.

Lemma max_with_one (v : list npfloat) :
  Forall (fin_le 1) v -> Fin 1 ∈ v -> Np.max v = Ok (Fin 1).
Proof.
  intros Hv Hin. destruct v as [|a v]; [by apply elem_of_nil in Hin|].
  inversion Hv as [|? ? [r [-> Hr]] Hv']; subst.
  destruct (fold_maximum_fin v r Hr Hv') as (m' & Hf & Hb & Hall).
  unfold Np.max. rewrite Hf. do 2 f_equal.
  apply elem_of_cons in Hin as [Hin|Hin].
  - inversion Hin; subst. lra.
  - rewrite Forall_forall in Hall. destruct (Hall _ Hin) as (r' & Hr' & Hle).
    inversion Hr'; subst. lra.
Qed.

Lemma argmax_from_first_one (v : list npfloat) (i : nat) (m : R) (ind : nat) :
  Forall (fin_le 1) v -> m <= 1 ->
  (m = 1 -> Np.argmax_from v i (Fin m) ind = ind) /\
  (m <> 1 -> forall k, v !! k = Some (Fin 1) ->
             (forall k', (k' < k)%nat -> v !! k' <> Some (Fin 1)) ->
             Np.argmax_from v i (Fin m) ind = (i + k)%nat).
Proof.
  revert i m ind. induction v as [|a v IH]; intros i m ind Hv Hm.
  - split; [reflexivity|]. intros _ k Hk. by destruct k.
  - inversion Hv as [|? ? [r [-> Hr]] Hv']; subst. simpl.
    split.
    + intros ->. case_bool_decide; [|lra]. simpl.
      by apply (IH (S i) 1 ind Hv').
    + intros Hm1 k Hk Hfirst. destruct k as [|k].
      * simpl in Hk. inversion Hk; subst.
        case_bool_decide; [lra|]. simpl.
        destruct (IH (S i) 1 i Hv' ltac:(lra)) as [H1 _].
        rewrite H1 by reflexivity. lia.
      * simpl in Hk.
        assert (Hr1 : r <> 1).
        { intros ->. apply (Hfirst 0%nat); [lia|reflexivity]. }
        assert (Hfirst' : forall k', (k' < k)%nat -> v !! k' <> Some (Fin 1)).
        { intros k' Hlt. apply (Hfirst (S k')). lia. }
        case_bool_decide; simpl.
        -- destruct (IH (S i) m ind Hv' Hm) as [_ H2].
           rewrite (H2 Hm1 k Hk Hfirst'). lia.
        -- destruct (IH (S i) r i Hv' Hr) as [_ H2].
           rewrite (H2 Hr1 k Hk Hfirst'). lia.
Qed.

Lemma argmax_first_one (v : list npfloat) (k : nat) :
  Forall (fin_le 1) v -> v !! k = Some (Fin 1) ->
  (forall k', (k' < k)%nat -> v !! k' <> Some (Fin 1)) ->
  Np.argmax v = Ok k.
Proof.
  intros Hv Hk Hfirst. destruct v as [|a v]; [by destruct k|].
  inversion Hv as [|? ? [r [-> Hr]] Hv']; subst.
  unfold Np.argmax. f_equal.
  destruct (argmax_from_first_one v 1 r 0 Hv' Hr) as [H1 H2].
  destruct k as [|k].
  - simpl in Hk. inversion Hk; subst. by apply H1.
  - simpl in Hk. rewrite (H2 ltac:(intros ->; by apply (Hfirst 0%nat); [lia|]) k Hk).
    + lia.
    + intros k' Hlt. apply (Hfirst (S k')). lia.
Qed.

(** The first index of a list at which a decidable property holds. *)
Lemma first_index {A : Type} (P : A -> Prop) `{forall a, Decision (P a)}
    (l : list A) (k : nat) (a : A) :
  l !! k = Some a -> P a ->
  exists j b, (j <= k)%nat /\ l !! j = Some b /\ P b /\
    forall j' b', (j' < j)%nat -> l !! j' = Some b' -> ~ P b'.
Proof.
  revert k. induction l as [|x l IH]; intros k Hk HP; [by destruct k|].
  destruct (decide (P x)) as [Hx|Hx].
  - exists 0%nat, x. repeat split; [lia|done|]. intros j' b' Hlt. lia.
  - destruct k as [|k]; simpl in Hk.
    + inversion Hk; subst. done.
    + destruct (IH k Hk HP) as (j & b & Hj & Hb & HPb & Hmin).
      exists (S j), b. repeat split; [lia|done|done|].
      intros [|j'] b' Hlt Hb'; simpl in Hb'.
      * inversion Hb'; subst. done.
      * apply (Hmin j' b'); [lia|done].
Qed.

End MaxFacts.


Section MatchFacts.
Context {ID : Type}.
Local Open Scope R_scope.

Lemma map_nth_zrange {A : Type} (d : A) (v : list A) :
  map (fun j => nth (Z.to_nat j) v d) (zrange (Z.of_nat (length v))) = v.
Proof.
  unfold zrange. rewrite Nat2Z.id, List.map_map.
  induction v as [|a v IH] using rev_ind; [reflexivity|].
  rewrite length_app. simpl. rewrite Nat.add_1_r, seq_S, map_app. simpl.
  rewrite Nat2Z.id, app_nth2, Nat.sub_diag by lia. simpl. f_equal.
  rewrite <- IH at 2. apply map_ext_in. intros j Hj. apply in_seq in Hj.
  rewrite Nat2Z.id. apply app_nth1. lia.
Qed.

Lemma reshape2_one_row {A : Type} (d : A) (v : list A) :
  exists arr, reshape2 d v (1, Z.of_nat (length v))%Z = Ok arr /\ to_rows arr = [v].
Proof.
  unfold reshape2.
  replace (1 <? 0)%Z with false by reflexivity.
  replace (Z.of_nat (length v) <? 0)%Z with false by (symmetry; apply Z.ltb_ge; lia).
  replace (1 * Z.of_nat (length v) =? Z.of_nat (length v))%Z with true
    by (symmetry; apply Z.eqb_eq; lia).
  simpl. eexists. split; [reflexivity|].
  unfold to_rows. simpl. f_equal.
  rewrite <- (map_nth_zrange d v) at 2. apply map_ext. intros j. reflexivity.
Qed.

Lemma concat_singletons {A B : Type} (f : A -> B) (l : list A) :
  concat (map (fun a => [f a]) l) = map f l.
Proof. induction l as [|a l IH]; simpl; [reflexivity|]. by rewrite IH. Qed.

Lemma flat_len_nat : Z.of_nat 49 = flat_len.
Proof. reflexivity. Qed.

Lemma correlate_rows (barcodes : matrix) (resize_warp : gray_image) :
  barcodes <> [] ->
  length (concat resize_warp) = 49%nat ->
  (forall row, row ∈ barcodes -> length row = 49%nat) ->
  correlate barcodes resize_warp
  = Ok (map (fun a => [pearson a (candidate resize_warp)]) barcodes).
Proof.
  intros Hne Hlen Hrows. unfold correlate.
  destruct (reshape2_one_row 0%Z (concat resize_warp)) as (arr & Harr & Hto).
  rewrite Hlen, flat_len_nat in Harr. rewrite Harr. simpl.
  rewrite Hto. simpl. apply corr2_coeff_row; [done|].
  intros row Hin. unfold candidate. rewrite length_map, Hlen. by apply Hrows.
Qed.

Lemma np_lt_not_gt (a b : npfloat) : np_lt a b = true -> np_gt a b = false.
Proof.
  unfold np_lt. destruct a, b; simpl; try done.
  intros H%bool_decide_eq_true. apply bool_decide_eq_false. lra.
Qed.

End MatchFacts.

Section MatchTheorems.
Context {ID : Type}.
Local Open Scope R_scope.

(** What [match_and_write] returns once the correlations are known. *)
Lemma match_and_write_below (barcodes : matrix) (IDs : list ID)
    (pos_msec pos_frames : R) (pts : list point) (tl tr br bl : point)
    (resize_warp : gray_image) (correlation : list (list npfloat)) (best : npfloat) :
  correlate barcodes resize_warp = Ok correlation ->
  Np.max (concat correlation) = Ok best ->
  np_gt best (Fin 0.8) = false ->
  match_and_write barcodes IDs pos_msec pos_frames pts tl tr br bl resize_warp = Ok None.
Proof.
  intros Hc Hm Hgt. unfold match_and_write. rewrite Hc. simpl. rewrite Hm. simpl.
  by rewrite Hgt.
Qed.

Lemma match_and_write_inv (barcodes : matrix) (IDs : list ID)
    (pos_msec pos_frames : R) (pts : list point) (tl tr br bl : point)
    (resize_warp : gray_image) (rec : DetectionRecord) :
  match_and_write barcodes IDs pos_msec pos_frames pts tl tr br bl resize_warp
  = Ok (Some rec) ->
  exists correlation best_index,
    correlate barcodes resize_warp = Ok correlation /\
    Np.max (concat correlation) = Ok (id_prob rec) /\
    np_gt (id_prob rec) (Fin 0.8) = true /\
    Np.argmax (concat correlation) = Ok best_index /\
    IDs !! best_index = Some (id rec) /\
    msec rec = pos_msec /\ frame_number rec = pos_frames /\
    let centroid := mean0 (map to_float pts) in
    let edge :=
      if (best_index mod 4 =? 3)%nat then mean0 [to_float tl; to_float tr]
      else if (best_index mod 4 =? 0)%nat then mean0 [to_float tl; to_float bl]
      else if (best_index mod 4 =? 1)%nat then mean0 [to_float br; to_float bl]
      else mean0 [to_float br; to_float tr] in
    x rec = fst centroid + IZR (fst pt1) /\
    y rec = - snd centroid + IZR (snd pt1) /\
    orientation rec
    = angle (fst edge - fst centroid, - snd edge - - snd centroid) true.
Proof.
  unfold match_and_write. intros H.
  destruct (correlate barcodes resize_warp) as [correlation|e]; simpl in H; [|done].
  destruct (Np.max (concat correlation)) as [best|e] eqn:Hm; simpl in H; [|done].
  destruct (np_gt best (Fin 0.8)) eqn:Hgt; [|done].
  destruct (Np.argmax (concat correlation)) as [best_index|e] eqn:Ha; simpl in H; [|done].
  destruct (IDs !! best_index) as [i|] eqn:Hid; simpl in H; [|done].
  inversion H; subst; clear H. simpl.
  exists correlation, best_index. repeat split; done.
Qed.

Lemma match_and_write_accept (barcodes : matrix) (IDs : list ID)
    (pos_msec pos_frames : R) (pts : list point) (tl tr br bl : point)
    (resize_warp : gray_image) (correlation : list (list npfloat))
    (best : npfloat) (best_index : nat) (i : ID) :
  correlate barcodes resize_warp = Ok correlation ->
  Np.max (concat correlation) = Ok best ->
  np_gt best (Fin 0.8) = true ->
  Np.argmax (concat correlation) = Ok best_index ->
  IDs !! best_index = Some i ->
  exists rec,
    match_and_write barcodes IDs pos_msec pos_frames pts tl tr br bl resize_warp
    = Ok (Some rec) /\ id rec = i /\ id_prob rec = best.
Proof.
  intros Hc Hm Hgt Ha Hi. unfold match_and_write.
  rewrite Hc; simpl. rewrite Hm; simpl. rewrite Hgt, Ha; simpl. rewrite Hi; simpl.
  eexists. split; [reflexivity|]. split; reflexivity.
Qed.

End MatchTheorems.


Section ContourFacts.
Context (cv : Cv2) {ID : Type}.
Local Open Scope R_scope.

Lemma filter_length_zero {A : Type} (P : A -> Prop) `{forall a, Decision (P a)}
    (l : list A) :
  (length (filter P l) =? 0)%nat = true <-> forall a, a ∈ l -> ~ P a.
Proof.
  rewrite Nat.eqb_eq. split.
  - intros Hl a Ha HP.
    assert (Hin : a ∈ filter P l) by (apply list_elem_of_filter; done).
    apply length_zero_iff_nil in Hl. rewrite Hl in Hin. by apply elem_of_nil in Hin.
  - intros Hall. apply length_zero_iff_nil.
    induction l as [|a l IH]; [reflexivity|].
    rewrite filter_cons. destruct (decide (P a)) as [HP|HP].
    + exfalso. apply (Hall a); [left|done].
    + apply IH. intros b Hb. apply Hall. by right.
Qed.

(** The edge test of lines 410-418. *)
Lemma edge_test_spec (image_shape : Z * Z) (cnt : contour) :
  ((length (filter (fun c => c <= edge_thresh)%Z
              (concat (map (fun p => [fst p; snd p]) cnt))) =? 0)%nat
   && (length (filter (fun c => c >= snd image_shape - edge_thresh)%Z (map fst cnt)) =? 0)%nat
   && (length (filter (fun c => c >= fst image_shape - edge_thresh)%Z (map snd cnt)) =? 0)%nat)
  = true <-> ~ near_frame_edge image_shape cnt.
Proof.
  rewrite !andb_true_iff, !filter_length_zero. split.
  - intros [[H0 Hx] Hy] (p & Hp & Hedge).
    destruct Hedge as [H|[H|[H|H]]].
    + apply (H0 (fst p)); [|done]. apply list_elem_of_In, in_concat.
      exists [fst p; snd p]. split; [|left; done].
      apply in_map_iff. exists p. split; [done|]. by apply list_elem_of_In.
    + apply (H0 (snd p)); [|done]. apply list_elem_of_In, in_concat.
      exists [fst p; snd p]. split; [|right; left; done].
      apply in_map_iff. exists p. split; [done|]. by apply list_elem_of_In.
    + apply (Hx (fst p)); [|done]. apply list_elem_of_fmap. by exists p.
    + apply (Hy (snd p)); [|done]. apply list_elem_of_fmap. by exists p.
  - intros Hn. repeat split.
    + intros c Hc HP. apply list_elem_of_In, in_concat in Hc as (l & Hl & Hc).
      apply in_map_iff in Hl as (p & <- & Hp). apply Hn. exists p.
      split; [by apply list_elem_of_In|].
      destruct Hc as [<-|[<-|[]]]; auto.
    + intros c Hc HP. apply list_elem_of_fmap in Hc as (p & -> & Hp).
      apply Hn. exists p. split; [done|]. auto.
    + intros c Hc HP. apply list_elem_of_fmap in Hc as (p & -> & Hp).
      apply Hn. exists p. split; [done|]. auto.
Qed.

Lemma band_test_spec (area : R) :
  bool_decide (-10 > area) && bool_decide (area > -2000) = true <-> area_in_band area.
Proof.
  rewrite andb_true_iff, !bool_decide_eq_true. unfold area_in_band. split; intros; lra.
Qed.

End ContourFacts.

Section ContourFacts2.
Context (cv : Cv2) {ID : Type}.
Local Open Scope R_scope.

Lemma polygon_test_spec (cnt : contour) :
  area_in_band (contourArea cv cnt) ->
  ((length (simplified cv cnt) =? 4)%nat
   && (bool_decide (-10 > contourArea cv (simplified cv cnt))
       && bool_decide (contourArea cv (simplified cv cnt) > -2000))
   && isContourConvex cv (simplified cv cnt)
   && (bool_decide (0 < arcLength cv cnt) && bool_decide (arcLength cv cnt < 500))
   = true /\
   py_div (arcLength cv cnt) (contourArea cv cnt)
   = Ok (arcLength cv cnt / contourArea cv cnt) /\
   bool_decide (-0.5 < arcLength cv cnt / contourArea cv cnt)
   && bool_decide (arcLength cv cnt / contourArea cv cnt <= 0) = true)
  <-> polygon_accepted cv cnt.
Proof.
  intros Hband. unfold polygon_accepted, area_in_band in *.
  rewrite !andb_true_iff, !bool_decide_eq_true, Nat.eqb_eq.
  assert (Hdiv : py_div (arcLength cv cnt) (contourArea cv cnt)
                 = Ok (arcLength cv cnt / contourArea cv cnt)).
  { unfold py_div. case_decide; [|done]. lra. }
  split.
  - intros ((((H4 & Ha1 & Ha2) & Hcv) & Hp1 & Hp2) & _ & Hr1 & Hr2).
    repeat split; try done; lra.
  - intros (H4 & Hcv & (Ha1 & Ha2) & (Hp1 & Hp2) & Hr1 & Hr2).
    repeat split; try done; lra.
Qed.

(** A contour that fails a geometric condition is skipped. *)
Lemma contour_body_rejected (gray : gray_image) (image_shape : Z * Z)
    (barcodes : matrix) (IDs : list ID) (pos_msec pos_frames : R) (cnt : contour) :
  ~ passes_gates cv image_shape cnt ->
  contour_body cv gray image_shape barcodes IDs pos_msec pos_frames cnt = Ok None.
Proof.
  intros Hn. unfold contour_body.
  destruct (4 <=? length cnt)%nat eqn:Hlen; [|done].
  destruct (bool_decide (-10 > contourArea cv cnt)
            && bool_decide (contourArea cv cnt > -2000)) eqn:Hband; [|done].
  apply band_test_spec in Hband.
  match goal with |- (if ?c then _ else _) = _ => destruct c eqn:Hedge end; [|done].
  apply edge_test_spec in Hedge.
  fold (simplified cv cnt).
  match goal with |- (if ?c then _ else _) = _ => destruct c eqn:Hpoly end; [|done].
  pose proof (polygon_test_spec cnt Hband) as Hspec.
  unfold py_div at 1. case_decide as Hz; [unfold area_in_band in Hband; lra|].
  simpl.
  match goal with |- (if ?c then _ else _) = _ => destruct c eqn:Hratio end; [|done].
  exfalso. apply Hn.
  split; [by apply Nat.leb_le|]. split; [done|]. split; [done|].
  apply Hspec. split; [done|]. split; [|done].
  unfold py_div. case_decide; done.
Qed.

(** A contour that passes every geometric condition is canonicalized,
    rectified and matched. *)
Lemma contour_body_gated (gray : gray_image) (image_shape : Z * Z)
    (barcodes : matrix) (IDs : list ID) (pos_msec pos_frames : R) (cnt : contour) :
  passes_gates cv image_shape cnt ->
  contour_body cv gray image_shape barcodes IDs pos_msec pos_frames cnt
  = (pts ← order_points (simplified cv cnt);
     match pts with
     | [tl; tr; br; bl] =>
         match_and_write barcodes IDs pos_msec pos_frames pts tl tr br bl
                         (rectified cv gray pts)
     | _ => Raise ValueError
     end).
Proof.
  intros (Hlen & Hband & Hedge & Hpoly). unfold contour_body.
  apply Nat.leb_le in Hlen. rewrite Hlen.
  pose proof (proj2 (band_test_spec _) Hband) as ->.
  pose proof (proj2 (edge_test_spec image_shape cnt) Hedge) as ->.
  fold (simplified cv cnt).
  destruct (proj2 (polygon_test_spec cnt Hband) Hpoly) as (-> & -> & Hr).
  simpl. rewrite Hr. reflexivity.
Qed.

Lemma passes_gates_dec (image_shape : Z * Z) (cnt : contour) :
  passes_gates cv image_shape cnt \/ ~ passes_gates cv image_shape cnt.
Proof.
  assert (Hdec : forall P : Prop, Decision P -> P \/ ~ P).
  { intros P [HP|HP]; [by left|by right]. }
  assert (He : near_frame_edge image_shape cnt \/ ~ near_frame_edge image_shape cnt).
  { destruct (decide (Exists (fun p : point =>
                (fst p <= edge_thresh \/ snd p <= edge_thresh \/
                 fst p >= snd image_shape - edge_thresh \/
                 snd p >= fst image_shape - edge_thresh)%Z) cnt)) as [H|H].
    - left. by apply Exists_exists in H.
    - right. intros Hn. by apply H, Exists_exists. }
  unfold passes_gates, polygon_accepted, area_in_band.
  destruct He as [He|He]; [right; intros H'; decompose [and] H'; contradiction|].
  destruct (Hdec (4 <= length cnt)%nat _);
    [|right; intros H'; decompose [and] H'; contradiction].
  destruct (Hdec (-2000 < contourArea cv cnt) _);
    [|right; intros H'; decompose [and] H'; contradiction].
  destruct (Hdec (contourArea cv cnt < -10) _);
    [|right; intros H'; decompose [and] H'; contradiction].
  destruct (Hdec (length (simplified cv cnt) = 4%nat) _);
    [|right; intros H'; decompose [and] H'; contradiction].
  destruct (Hdec (isContourConvex cv (simplified cv cnt) = true) _);
    [|right; intros H'; decompose [and] H'; contradiction].
  destruct (Hdec (-2000 < contourArea cv (simplified cv cnt)) _);
    [|right; intros H'; decompose [and] H'; contradiction].
  destruct (Hdec (contourArea cv (simplified cv cnt) < -10) _);
    [|right; intros H'; decompose [and] H'; contradiction].
  destruct (Hdec (0 < arcLength cv cnt) _);
    [|right; intros H'; decompose [and] H'; contradiction].
  destruct (Hdec (arcLength cv cnt < 500) _);
    [|right; intros H'; decompose [and] H'; contradiction].
  destruct (Hdec (-0.5 < arcLength cv cnt / contourArea cv cnt) _);
    [|right; intros H'; decompose [and] H'; contradiction].
  destruct (Hdec (arcLength cv cnt / contourArea cv cnt <= 0) _);
    [|right; intros H'; decompose [and] H'; contradiction].
  left. repeat split; assumption.
Qed.

Lemma contour_body_inv (gray : gray_image) (image_shape : Z * Z)
    (barcodes : matrix) (IDs : list ID) (pos_msec pos_frames : R) (cnt : contour)
    (rec : DetectionRecord) :
  contour_body cv gray image_shape barcodes IDs pos_msec pos_frames cnt = Ok (Some rec) ->
  passes_gates cv image_shape cnt /\
  exists tl tr br bl,
    order_points (simplified cv cnt) = Ok [tl; tr; br; bl] /\
    match_and_write barcodes IDs pos_msec pos_frames [tl; tr; br; bl] tl tr br bl
                    (rectified cv gray [tl; tr; br; bl]) = Ok (Some rec).
Proof.
  intros H.
  assert (Hg : passes_gates cv image_shape cnt).
  { destruct (passes_gates_dec image_shape cnt) as [Hg|Hg]; [done|].
    rewrite (contour_body_rejected _ _ _ _ _ _ _ Hg) in H. done. }
  split; [done|].
  rewrite (contour_body_gated _ _ _ _ _ _ _ Hg) in H.
  destruct (order_points (simplified cv cnt)) as [pts|e]; simpl in H; [|done].
  destruct pts as [|tl [|tr [|br [|bl [|]]]]]; try done.
  by exists tl, tr, br, bl.
Qed.

End ContourFacts2.

Section AngleFacts.
Local Open Scope R_scope.

Lemma py_mod_range (a b : R) : 0 < b -> 0 <= py_mod a b < b.
Proof.
  intros Hb. unfold py_mod.
  destruct (base_Int_part (a / b)) as [H1 H2].
  set (k := IZR (Int_part (a / b))) in *.
  assert (Ha : a = a / b * b) by (field; lra).
  split.
  - assert (b * k <= a / b * b) by nra. lra.
  - assert (a / b * b < b * (k + 1)) by nra. lra.
Qed.

Lemma py_mod_zero (b : R) : py_mod 0 b = 0.
Proof.
  unfold py_mod. replace (0 / b) with 0 by (unfold Rdiv; ring).
  assert (H : Int_part 0 = 0%Z).
  { destruct (base_Int_part 0) as [H1 H2].
    assert (Hlo : (-1 < Int_part 0)%Z) by (apply lt_IZR; lra).
    assert (Hhi : (Int_part 0 < 1)%Z) by (apply lt_IZR; lra).
    lia. }
  rewrite H. lra.
Qed.

Lemma arctan2_zero : arctan2 0 0 = 0.
Proof. unfold arctan2. repeat case_decide; lra. Qed.

Lemma angle_degrees_range (vector : R * R) : 0 <= angle vector true < 360.
Proof.
  unfold angle, degrees.
  assert (Hpi := PI_RGT_0).
  destruct (py_mod_range (arctan2 (snd vector) (fst vector)) (2 * PI)) as [H1 H2]; [lra|].
  set (a := py_mod _ _) in *.
  assert (H180 : 0 < 180 / PI) by (apply Rdiv_lt_0_compat; lra).
  split; [nra|].
  replace 360 with (2 * PI * (180 / PI)) by (field; lra).
  nra.
Qed.

Lemma angle_zero_vector : angle (0, 0) true = 0.
Proof.
  unfold angle, degrees. simpl. rewrite arctan2_zero, py_mod_zero. lra.
Qed.

Lemma py_mod_small (a b : R) : 0 <= a < b -> py_mod a b = a.
Proof.
  intros H. unfold py_mod.
  assert (Hinv : 0 < / b) by (apply Rinv_0_lt_compat; lra).
  assert (Hbb : b * / b = 1) by (apply Rinv_r; lra).
  assert (Hk : 0%Z = Int_part (a / b)).
  { apply Int_part_spec. unfold Rdiv. split; nra. }
  rewrite <- Hk. lra.
Qed.

Lemma py_mod_negative (a b : R) : - b <= a < 0 -> py_mod a b = a + b.
Proof.
  intros H. unfold py_mod.
  assert (Hb : 0 < b) by lra.
  assert (Hinv : 0 < / b) by (apply Rinv_0_lt_compat; lra).
  assert (Hbb : b * / b = 1) by (apply Rinv_r; lra).
  assert (Hk : (-1)%Z = Int_part (a / b)).
  { apply Int_part_spec. unfold Rdiv. split; nra. }
  rewrite <- Hk. lra.
Qed.

Lemma arctan2_range (y x : R) : - PI < arctan2 y x <= PI.
Proof.
  assert (Hpi := PI_RGT_0). unfold arctan2.
  pose proof (atan_bound (y / x)) as Hb.
  repeat case_decide; try lra.
  - (* x < 0, 0 <= y: y / x <= 0 *)
    assert (Hinv : 0 < / - x) by (apply Rinv_0_lt_compat; lra).
    assert (y / x <= 0).
    { replace (y / x) with (- (y * / - x)) by (field; lra). nra. }
    assert (atan (y / x) <= 0).
    { destruct (Req_dec (y / x) 0) as [->|Hn]; [rewrite atan_0; lra|].
      left. rewrite <- atan_0. apply atan_increasing. lra. }
    lra.
  - (* x < 0, y < 0: y / x > 0 *)
    assert (Hinv : 0 < / - x) by (apply Rinv_0_lt_compat; lra).
    assert (0 < y / x).
    { replace (y / x) with ((- y) * / - x) by (field; lra). nra. }
    assert (0 < atan (y / x)) by (rewrite <- atan_0; by apply atan_increasing).
    lra.
Qed.

Lemma arctan2_polar (x y : R) :
  x <> 0 \/ y <> 0 ->
  cos (arctan2 y x) * sqrt (x * x + y * y) = x /\
  sin (arctan2 y x) * sqrt (x * x + y * y) = y.
Proof.
  intros Hnz. unfold arctan2.
  set (t := y / x).
  assert (Hs : 0 < sqrt (1 + t²)).
  { apply sqrt_lt_R0. unfold Rsqr. nra. }
  assert (Hn : x <> 0 -> sqrt (x * x + y * y) = Rabs x * sqrt (1 + t²)).
  { intros Hx. replace (x * x + y * y) with (Rsqr x * (1 + t²))
      by (unfold Rsqr, t; field; lra).
    rewrite sqrt_mult_alt by apply Rle_0_sqr. by rewrite sqrt_Rsqr_abs. }
  assert (Hx0 : forall s, 0 <= s -> sqrt (0 * 0 + s * s) = s).
  { intros s Hs0. replace (0 * 0 + s * s) with (s * s) by ring. by apply sqrt_square. }
  destruct (decide (0 < x)) as [Hx|Hx].
  { rewrite Hn by lra. rewrite Rabs_right by lra.
    rewrite cos_atan, sin_atan. fold t. split; [field; lra|].
    transitivity (t * x); [field; lra|unfold t; field; lra]. }
  destruct (decide (x < 0)) as [Hx'|Hx'].
  { rewrite Hn by lra. rewrite Rabs_left by lra.
    destruct (decide (0 <= y)).
    - rewrite neg_cos, neg_sin, cos_atan, sin_atan. split; [field; lra|].
      transitivity (t * x); [field; lra|unfold t; field; lra].
    - rewrite cos_minus, sin_minus, cos_PI, sin_PI, cos_atan, sin_atan.
      split; [field; lra|].
      transitivity (t * x); [field; lra|unfold t; field; lra]. }
  assert (x = 0) by lra. subst x.
  destruct (decide (0 < y)).
  { rewrite Hx0 by lra. rewrite cos_PI2, sin_PI2. lra. }
  destruct (decide (y < 0)).
  { replace (0 * 0 + y * y) with (0 * 0 + (- y) * (- y)) by ring.
    rewrite Hx0 by lra.
    replace (- PI / 2) with (- (PI / 2)) by lra.
    rewrite cos_neg, sin_neg, cos_PI2, sin_PI2. lra. }
  lra.
Qed.

Lemma atan_sign (t : R) : (0 <= t -> 0 <= atan t) /\ (t < 0 -> atan t < 0).
Proof.
  split; intros H.
  - destruct (Req_dec t 0) as [->|Hn]; [rewrite atan_0; lra|].
    left. rewrite <- atan_0. apply atan_increasing. lra.
  - rewrite <- atan_0. by apply atan_increasing.
Qed.

Lemma angle_degrees_cases (vx vy : R) :
  (0 < vx -> 0 <= vy -> angle (vx, vy) true = atan (vy / vx) * (180 / PI)) /\
  (0 < vx -> vy < 0 -> angle (vx, vy) true = (atan (vy / vx) + 2 * PI) * (180 / PI)) /\
  (vx < 0 -> angle (vx, vy) true = (atan (vy / vx) + PI) * (180 / PI)) /\
  (vx = 0 -> 0 < vy -> angle (vx, vy) true = 90) /\
  (vx = 0 -> vy < 0 -> angle (vx, vy) true = 270) /\
  (vx = 0 -> vy = 0 -> angle (vx, vy) true = 0).
Proof.
  assert (Hpi := PI_RGT_0).
  pose proof (atan_bound (vy / vx)) as Hb.
  destruct (atan_sign (vy / vx)) as [Hpos Hneg].
  unfold angle, degrees. cbn [fst snd]. unfold arctan2.
  repeat split.
  - intros Hx Hy. rewrite decide_True by lra.
    assert (Hinv : 0 < / vx) by (by apply Rinv_0_lt_compat).
    assert (Hq : 0 <= vy / vx) by (unfold Rdiv; nra).
    specialize (Hpos Hq). by rewrite py_mod_small by lra.
  - intros Hx Hy. rewrite decide_True by lra.
    assert (Hinv : 0 < / vx) by (by apply Rinv_0_lt_compat).
    assert (Hq : vy / vx < 0) by (unfold Rdiv; nra).
    specialize (Hneg Hq). by rewrite py_mod_negative by lra.
  - intros Hx. rewrite decide_False by lra. rewrite decide_True by lra.
    assert (Hinv : 0 < / - vx) by (apply Rinv_0_lt_compat; lra).
    destruct (decide (0 <= vy)).
    + assert (Hq : vy / vx <= 0).
      { replace (vy / vx) with (- (vy * / - vx)) by (field; lra). nra. }
      assert (atan (vy / vx) <= 0).
      { destruct (Req_dec (vy / vx) 0) as [->|Hn]; [rewrite atan_0; lra|].
        apply Rlt_le, Hneg. lra. }
      by rewrite py_mod_small by lra.
    + assert (Hq : 0 <= vy / vx).
      { replace (vy / vx) with ((- vy) * / - vx) by (field; lra). nra. }
      specialize (Hpos Hq). assert (Hnz : atan (vy / vx) <> 0).
      { intros H0. apply atan_eq0 in H0.
        assert (vy = 0); [|lra].
        replace vy with (vy / vx * vx) by (field; lra). rewrite H0. ring. }
      rewrite py_mod_negative by lra. f_equal. lra.
  - intros Hx Hy. rewrite decide_False by lra. rewrite decide_False by lra.
    rewrite decide_True by lra. rewrite py_mod_small by lra. field. lra.
  - intros Hx Hy. rewrite decide_False by lra. rewrite decide_False by lra.
    rewrite decide_False by lra. rewrite decide_True by lra.
    rewrite py_mod_negative by lra. field. lra.
  - intros Hx Hy. rewrite decide_False by lra. rewrite decide_False by lra.
    rewrite decide_False by lra. rewrite decide_False by lra.
    rewrite py_mod_small by lra. lra.
Qed.

Lemma angle_degrees_polar (vx vy : R) :
  cos (angle (vx, vy) true * (PI / 180)) * sqrt (vx * vx + vy * vy) = vx /\
  sin (angle (vx, vy) true * (PI / 180)) * sqrt (vx * vx + vy * vy) = vy.
Proof.
  assert (Hpi := PI_RGT_0).
  destruct (Req_dec vx 0) as [Hx|Hx]; [destruct (Req_dec vy 0) as [Hy|Hy]|].
  { subst. replace (0 * 0 + 0 * 0) with 0 by ring. rewrite sqrt_0. lra. }
  all: assert (Hnz : vx <> 0 \/ vy <> 0) by tauto.
  all: pose proof (arctan2_polar vx vy Hnz) as [Hc Hs].
  all: pose proof (arctan2_range vy vx) as Hr.
  all: unfold angle, degrees; cbn [fst snd].
  all: set (a := arctan2 vy vx) in *.
  all: replace (py_mod a (2 * PI) * (180 / PI) * (PI / 180)) with (py_mod a (2 * PI))
         by (field; lra).
  all: destruct (Rle_dec 0 a);
         [ by rewrite py_mod_small by lra
         | rewrite py_mod_negative by lra;
           rewrite cos_plus, sin_plus, cos_2PI, sin_2PI;
           split;
             [ transitivity (cos a * sqrt (vx * vx + vy * vy)); [ring|exact Hc]
             | transitivity (sin a * sqrt (vx * vx + vy * vy)); [ring|exact Hs] ] ].
Qed.

End AngleFacts.

Section ArgsortFacts.
Context {K : Type} (ltb : K -> K -> bool).

Lemma insert_key_perm (x : nat * K) (sorted : list (nat * K)) :
  insert_key ltb x sorted ≡ₚ x :: sorted.
Proof.
  induction sorted as [|y rest IH]; simpl; [done|].
  destruct (ltb (snd x) (snd y)); [done|].
  rewrite IH. apply Permutation_swap.
Qed.

Lemma fold_insert_perm (l acc : list (nat * K)) :
  fold_left (fun sorted x => insert_key ltb x sorted) l acc ≡ₚ l ++ acc.
Proof.
  revert acc. induction l as [|x l IH]; intros acc; simpl; [done|].
  rewrite IH, insert_key_perm. by rewrite Permutation_middle.
Qed.

Lemma imap_index_seq (keys : list K) (s : nat) :
  imap (fun i _ => (s + i)%nat) keys = seq s (length keys).
Proof.
  revert s. induction keys as [|k keys IH]; intros s; simpl; [done|].
  f_equal; [lia|]. rewrite <- (IH (S s)).
  apply imap_ext. intros i x _. simpl. lia.
Qed.

Lemma argsort_perm (keys : list K) : argsort ltb keys ≡ₚ seq 0 (length keys).
Proof.
  unfold argsort. rewrite fold_insert_perm, app_nil_r.
  change (map fst ?l) with (fst <$> l).
  rewrite fmap_imap, <- imap_index_seq.
  erewrite imap_ext; [reflexivity|]. intros i x _. reflexivity.
Qed.

Lemma argsort_length (keys : list K) : length (argsort ltb keys) = length keys.
Proof. by rewrite argsort_perm, length_seq. Qed.

(** Sorting through a key transformation that preserves the comparison. *)
Lemma argsort_map {K' : Type} (ltb' : K' -> K' -> bool) (f : K -> K') (P : K -> Prop)
    (keys : list K) :
  (forall a b, P a -> P b -> ltb' (f a) (f b) = ltb a b) ->
  Forall P keys ->
  argsort ltb' (map f keys) = argsort ltb keys.
Proof.
  intros Hf Hkeys. unfold argsort.
  set (g := fun x : nat * K => (fst x, f (snd x))).
  assert (Hins : forall x sorted, P (snd x) -> Forall (fun y => P (snd y)) sorted ->
            insert_key ltb' (g x) (map g sorted) = map g (insert_key ltb x sorted)).
  { intros x sorted Hx. induction sorted as [|y rest IH]; intros Hs; simpl; [done|].
    inversion Hs; subst. rewrite Hf by done.
    destruct (ltb (snd x) (snd y)); simpl; [done|]. by rewrite IH. }
  assert (Hins' : forall x sorted, P (snd x) -> Forall (fun y => P (snd y)) sorted ->
            Forall (fun y => P (snd y)) (insert_key ltb x sorted)).
  { intros x sorted Hx Hs. rewrite insert_key_perm. by constructor. }
  assert (Hfold : forall l acc, Forall (fun y => P (snd y)) l ->
            Forall (fun y => P (snd y)) acc ->
            fold_left (fun sorted x => insert_key ltb' x sorted) (map g l) (map g acc)
            = map g (fold_left (fun sorted x => insert_key ltb x sorted) l acc)).
  { induction l as [|x l IH]; intros acc Hl Hacc; simpl; [done|].
    inversion Hl; subst. rewrite Hins by done. apply IH; [done|]. by apply Hins'. }
  assert (Himap : imap pair (map f keys) = map g (imap pair keys)).
  { clear. change (map f keys) with (f <$> keys). rewrite imap_fmap.
    change (map g ?l) with (g <$> l). rewrite fmap_imap. reflexivity. }
  rewrite Himap. change (@nil (nat * K')) with (map g []).
  rewrite Hfold.
  - rewrite List.map_map. reflexivity.
  - clear -Hkeys. apply Forall_forall. intros [i k] Hin.
    apply elem_of_lookup_imap in Hin as (i' & k' & Heq & Hk). inversion Heq; subst. simpl.
    rewrite Forall_forall in Hkeys. apply Hkeys. by eapply list_elem_of_lookup_2.
  - constructor.
Qed.

End ArgsortFacts.

Section OrderPoints.
Local Open Scope Z_scope.

Ltac split_ltb :=
  repeat match goal with
    | |- context [Z.ltb ?a ?b] =>
        destruct (Z.ltb_spec a b); simpl; try lia
    end.

Ltac split_ltb_in H :=
  repeat match type of H with
    | context [Z.ltb ?a ?b] =>
        destruct (Z.ltb_spec a b); simpl in H; try lia
    end.

Lemma sqdist_nonneg (p q : point) : 0 <= sqdist p q.
Proof.
  unfold sqdist.
  pose proof (Z.square_nonneg (fst p - fst q)).
  pose proof (Z.square_nonneg (snd p - snd q)). lia.
Qed.

(** Comparing Euclidean distances is comparing their squares. *)
Lemma order_points_eq (pts : list point) : order_points pts = order_points_sq pts.
Proof.
  unfold order_points, order_points_sq.
  destruct (rows_at _ (argsort Z.ltb (map snd _))) as [|tl [|bl [|]]]; try reflexivity.
  change (map (euclidean tl) ?r) with (map (fun p => euclidean tl p) r).
  rewrite <- (List.map_map (sqdist tl) (fun d => sqrt (IZR d))).
  rewrite (argsort_map Z.ltb Rltb (fun d => sqrt (IZR d)) (fun d => 0 <= d)).
  - reflexivity.
  - intros a b Ha Hb. unfold Rltb.
    destruct (Z.ltb_spec a b) as [Hlt|Hge].
    + apply bool_decide_eq_true. apply sqrt_lt_1_alt. split; [by apply IZR_le|by apply IZR_lt].
    + apply bool_decide_eq_false. apply Rle_not_lt. apply sqrt_le_1_alt. by apply IZR_le.
  - apply Forall_forall. intros d Hd. apply list_elem_of_fmap in Hd as (p & -> & _).
    apply sqdist_nonneg.
Qed.

Lemma rows_at_length {A : Type} (a : list A) (idx : list nat) :
  idx ≡ₚ seq 0 (length a) -> length (rows_at a idx) = length a.
Proof.
  intros Hperm. unfold rows_at.
  assert (Hall : Forall (fun i => (i < length a)%nat) idx).
  { rewrite Hperm. apply Forall_forall. intros i Hi. apply list_elem_of_In, in_seq in Hi. lia. }
  transitivity (length idx).
  - clear Hperm. induction idx as [|i idx IH]; [reflexivity|].
    inversion Hall; subst. simpl.
    destruct (lookup_lt_is_Some_2 a i) as [x ->]; [done|]. simpl. f_equal. by apply IH.
  - by rewrite Hperm, length_seq.
Qed.

Lemma rows_at_argsort_length {A K : Type} (ltb : K -> K -> bool) (a : list A)
    (key : A -> K) :
  length (rows_at a (argsort ltb (map key a))) = length a.
Proof.
  apply rows_at_length. rewrite argsort_perm. by rewrite length_map.
Qed.

Lemma rows_at_rev_argsort_length {A K : Type} (ltb : K -> K -> bool) (a : list A)
    (key : A -> K) :
  length (rows_at a (rev (argsort ltb (map key a)))) = length a.
Proof.
  apply rows_at_length. rewrite <- Permutation_rev, argsort_perm. by rewrite length_map.
Qed.

Lemma order_points_sq_length (pts q : list point) :
  order_points_sq pts = Ok q -> length pts = 4%nat.
Proof.
  unfold order_points_sq. intros H.
  pose proof (rows_at_argsort_length Z.ltb pts fst) as Hs.
  set (sorted_ := rows_at pts (argsort Z.ltb (map fst pts))) in *.
  pose proof (rows_at_argsort_length Z.ltb (take 2 sorted_) snd) as Hl.
  destruct (rows_at (take 2 sorted_) _) as [|tl [|bl [|]]]; try done.
  pose proof (rows_at_rev_argsort_length Z.ltb (drop 2 sorted_) (sqdist tl)) as Hr.
  destruct (rows_at (drop 2 sorted_) _) as [|br [|tr [|]]]; try done.
  simpl in Hl, Hr. rewrite length_take in Hl. rewrite length_drop in Hr. lia.
Qed.

Lemma order_points_sq_canonical (pts : list point) (tl tr br bl : point) :
  order_points_sq pts = Ok [tl; tr; br; bl] -> canonical_order tl tr br bl.
Proof.
  intros H. pose proof (order_points_sq_length _ _ H) as Hlen.
  destruct pts as [|[x0 y0] [|[x1 y1] [|[x2 y2] [|[x3 y3] [|p4 rest]]]]]; try done.
  unfold order_points_sq, argsort in H. simpl in H.
  unfold canonical_order.
  split_ltb_in H; inversion H; subst; simpl; lia.
Qed.

Lemma order_points_sq_canonical_fixed (tl tr br bl : point) :
  strict_split tl tr br bl -> canonical_order tl tr br bl ->
  order_points_sq [tl; tr; br; bl] = Ok [tl; tr; br; bl].
Proof.
  destruct tl as [x0 y0], tr as [x1 y1], br as [x2 y2], bl as [x3 y3].
  unfold strict_split, canonical_order. simpl.
  intros (H1 & H2 & H3 & H4) (F1 & F2).
  unfold order_points_sq, argsort. simpl.
  split_ltb; reflexivity.
Qed.

(** C4 (as amended): when the two left corners of a canonicalized
    quadrilateral lie strictly left of its two right corners, applying
    [order_points] to it again returns it unchanged. *)
Theorem order_points_idempotent_without_x_tie (pts : list point) (tl tr br bl : point) :
  order_points pts = Ok [tl; tr; br; bl] ->
  strict_split tl tr br bl ->
  order_points [tl; tr; br; bl] = Ok [tl; tr; br; bl].
Proof.
  rewrite !order_points_eq. intros H Hs.
  apply order_points_sq_canonical_fixed; [done|].
  by eapply order_points_sq_canonical.
Qed.

(** C4 fails as stated: the square standing on a corner is convex, and
    canonicalizing its canonical order again gives another order, because
    its top and bottom corners tie on x across the left/right split. *)
Lemma order_points_diamond :
  order_points [(0,1);(1,2);(2,1);(1,0)] = Ok [(0,1);(1,0);(2,1);(1,2)] /\
  convex_quad (0,1) (1,0) (2,1) (1,2) /\
  order_points [(0,1);(1,0);(2,1);(1,2)] = Ok [(1,0);(2,1);(1,2);(0,1)] /\
  order_points [(0,1);(1,0);(2,1);(1,2)] <> Ok [(0,1);(1,0);(2,1);(1,2)].
Proof.
  rewrite !order_points_eq. repeat split.
  - left. vm_compute. done.
  - vm_compute. discriminate.
Qed.

Lemma order_points_square_witness :
  order_points [(20,20);(10,20);(20,10);(10,10)] = Ok [(10,10);(20,10);(20,20);(10,20)] /\
  strict_split (10,10) (20,10) (20,20) (10,20) /\
  order_points [(10,10);(20,10);(20,20);(10,20)] = Ok [(10,10);(20,10);(20,20);(10,20)].
Proof.
  assert (H1 : order_points [(20,20);(10,20);(20,10);(10,10)]
               = Ok [(10,10);(20,10);(20,20);(10,20)])
    by (rewrite order_points_eq; reflexivity).
  assert (H2 : strict_split (10,10) (20,10) (20,20) (10,20))
    by (unfold strict_split; simpl; lia).
  split; [exact H1|]. split; [exact H2|].
  exact (order_points_idempotent_without_x_tie _ _ _ _ _ H1 H2).
Defined.

End OrderPoints.

Section SceneFacts.
Local Open Scope R_scope.

Lemma candidate_patch : candidate Scene.patch = Scene.stored.
Proof. reflexivity. Qed.

Lemma candidate_white_patch : candidate Scene.white_patch = Scene.all_white.
Proof. reflexivity. Qed.

Lemma stored_not_constant : ~ is_constant Scene.stored.
Proof.
  intros [c Hc].
  assert (H1 : 1 = c) by (apply Hc; left).
  assert (H0 : 0 = c) by (apply Hc; right; left).
  lra.
Qed.

Lemma is_constant_repeated (c : R) (n : nat) : is_constant (repeat c n).
Proof. exists c. intros a Ha. by apply list_elem_of_In, repeat_spec in Ha. Qed.

Lemma square_ordered :
  order_points Scene.square = Ok [(10, 10); (20, 10); (20, 20); (10, 20)]%Z.
Proof. rewrite order_points_eq. reflexivity. Qed.

Lemma square_passes (p : gray_image) :
  passes_gates (Scene.cv p) (100, 100)%Z Scene.square.
Proof.
  split; [simpl; lia|]. split; [unfold area_in_band; simpl; lra|]. split.
  - apply edge_test_spec. reflexivity.
  - unfold polygon_accepted, simplified, area_in_band. simpl.
    repeat split; try lra.
Qed.

Lemma cut_square_near_edge : near_frame_edge (100, 100)%Z Scene.cut_square.
Proof. exists (0, 10)%Z. split; [left|]. left. unfold edge_thresh. simpl. lia. Qed.

End SceneFacts.

Section PoseFacts.
Local Open Scope R_scope.

Lemma mean0_quad (tl tr br bl : point) :
  mean0 (map to_float [tl; tr; br; bl]) = quad_centroid tl tr br bl.
Proof.
  unfold mean0, quad_centroid, Np.mean, Np.sum, to_float. simpl.
  f_equal; field.
Qed.

Lemma mean0_pair (p q : point) : mean0 [to_float p; to_float q] = midpoint p q.
Proof.
  unfold mean0, midpoint, Np.mean, Np.sum, to_float. simpl.
  f_equal; field.
Qed.

Lemma edge_chain_is_table (best_index : nat) (tl tr br bl : point) :
  (if (best_index mod 4 =? 3)%nat then mean0 [to_float tl; to_float tr]
   else if (best_index mod 4 =? 0)%nat then mean0 [to_float tl; to_float bl]
   else if (best_index mod 4 =? 1)%nat then mean0 [to_float br; to_float bl]
   else mean0 [to_float br; to_float tr])
  = reference_edge best_index tl tr br bl.
Proof.
  unfold reference_edge. rewrite !mean0_pair.
  pose proof (Nat.mod_upper_bound best_index 4 ltac:(lia)) as Hlt.
  destruct (best_index mod 4)%nat as [|[|[|[|n]]]]; simpl; try reflexivity. lia.
Qed.

End PoseFacts.


(** ** Nearest-pattern matching *)

Section MatchClaims.
Local Open Scope R_scope.

Lemma scene_match (pts : list point) (tl tr br bl : point) :
  exists rec : DetectionRecord,
    match_and_write [Scene.stored] [42%Z] 0 0 pts tl tr br bl Scene.patch
    = Ok (Some rec) /\ id rec = 42%Z /\ id_prob rec = Fin 1.
Proof.
  assert (Hc : correlate [Scene.stored] Scene.patch = Ok [[Fin 1]]).
  { rewrite correlate_rows.
    - simpl. rewrite candidate_patch, pearson_self; [reflexivity|].
      apply stored_not_constant.
    - done.
    - reflexivity.
    - intros row Hrow. apply list_elem_of_singleton in Hrow as ->. reflexivity. }
  apply (match_and_write_accept _ _ _ _ _ _ _ _ _ _ _ (Fin 1) 0%nat 42%Z Hc);
    try reflexivity.
  simpl. apply bool_decide_eq_true. lra.
Qed.

Lemma pearson_complement (v : list R) :
  ~ is_constant v -> pearson v (map (fun a => 1 - a) v) = Fin (-1).
Proof.
  intros Hn. pose proof (sum_sq_dev_pos v Hn) as Hp.
  assert (Hlen : (0 < length v)%nat).
  { destruct v; [|simpl; lia]. exfalso. apply Hn. exists 0. intros a Ha.
    by apply elem_of_nil in Ha. }
  assert (Hsum : Np.sum (map (fun a => 1 - a) v) = INR (length v) - Np.sum v).
  { clear. induction v as [|a v IH]; [unfold Np.sum; simpl; lra|].
    change (map (fun a => 1 - a) (a :: v)) with ((1 - a) :: map (fun a => 1 - a) v).
    rewrite !sum_cons, IH. change (length (a :: v)) with (S (length v)).
    rewrite S_INR. lra. }
  assert (Hmean : Np.mean (map (fun a => 1 - a) v) = 1 - Np.mean v).
  { unfold Np.mean. rewrite Hsum, length_map.
    assert (0 < INR (length v)) by (apply lt_0_INR; lia). field. lra. }
  assert (Hdev : deviations (map (fun a => 1 - a) v) = map Ropp (deviations v)).
  { unfold deviations. rewrite Hmean, !List.map_map. apply map_ext. intros a. lra. }
  assert (Hin : forall u, Np.inner u (map Ropp u) = - Np.sum (Np.square u)).
  { induction u as [|a u IH]; [unfold Np.inner, Np.sum; simpl; lra|].
    change (map Ropp (a :: u)) with (- a :: map Ropp u).
    rewrite inner_cons, square_cons, sum_cons, IH. lra. }
  assert (Hsq : forall u, Np.sum (Np.square (map Ropp u)) = Np.sum (Np.square u)).
  { induction u as [|a u IH]; [reflexivity|].
    change (map Ropp (a :: u)) with (- a :: map Ropp u).
    rewrite !square_cons, !sum_cons, IH. lra. }
  unfold pearson, sum_sq_dev. rewrite Hdev, Hin, Hsq.
  fold (sum_sq_dev v). rewrite sqrt_square by lra.
  unfold Np.divide. case_decide; [lra|]. f_equal. field. lra.
Qed.

Lemma candidate_inverse_patch :
  candidate Scene.inverse_patch = map (fun a => 1 - a) Scene.stored.
Proof.
  unfold candidate, Scene.inverse_patch, Scene.stored. simpl.
  repeat (apply f_equal2; [lra|]). reflexivity.
Qed.

(** C3 (as amended): when every stored pattern vector has non-zero variance,
    a candidate patch equal to the stored vector at index [k] is accepted
    with confidence exactly 1, and the identifier written is the one at the
    smallest library index [j <= k] whose vector has correlation 1 with the
    candidate. *)
Theorem stored_vector_matches_itself {ID : Type} (barcodes : matrix) (IDs : list ID)
    (pos_msec pos_frames : R) (pts : list point) (tl tr br bl : point)
    (resize_warp : gray_image) (k : nat) :
  (forall row, row ∈ barcodes -> length row = 49%nat /\ ~ is_constant row) ->
  barcodes !! k = Some (candidate resize_warp) ->
  (length barcodes <= length IDs)%nat ->
  exists (j : nat) (stored : list R) (i : ID) (rec : DetectionRecord),
    (j <= k)%nat /\
    barcodes !! j = Some stored /\
    pearson stored (candidate resize_warp) = Fin 1 /\
    (forall j' row, (j' < j)%nat -> barcodes !! j' = Some row ->
                    pearson row (candidate resize_warp) <> Fin 1) /\
    IDs !! j = Some i /\
    match_and_write barcodes IDs pos_msec pos_frames pts tl tr br bl resize_warp
    = Ok (Some rec) /\
    id rec = i /\ id_prob rec = Fin 1.
Proof.
  intros Hrows Hk HIDs.
  assert (Hin : candidate resize_warp ∈ barcodes) by (eapply list_elem_of_lookup_2; eauto).
  destruct (Hrows _ Hin) as [Hlen Hnc].
  assert (Hne : barcodes <> []) by (intros ->; by apply elem_of_nil in Hin).
  assert (Hlen' : length (concat resize_warp) = 49%nat).
  { unfold candidate in Hlen. by rewrite length_map in Hlen. }
  pose proof (correlate_rows barcodes resize_warp Hne Hlen'
                (fun row H => proj1 (Hrows row H))) as Hc.
  set (v := map (fun a => pearson a (candidate resize_warp)) barcodes).
  assert (Hv : Forall (fin_le 1) v).
  { apply Forall_forall. intros a Ha. apply list_elem_of_fmap in Ha as (row & -> & Hrow).
    apply pearson_le_1; [by apply Hrows|done]. }
  assert (Hvk : v !! k = Some (Fin 1)).
  { unfold v. change (map ?f ?l) with (f <$> l). rewrite list_lookup_fmap, Hk. simpl.
    by rewrite pearson_self. }
  destruct (first_index (fun a => a = Fin 1) v k (Fin 1) Hvk eq_refl)
    as (j & b & Hj & Hb & -> & Hmin).
  assert (Hmax : Np.max v = Ok (Fin 1)).
  { apply max_with_one; [done|]. eapply list_elem_of_lookup_2; eauto. }
  assert (Harg : Np.argmax v = Ok j).
  { apply argmax_first_one; [done|done|].
    intros k' Hlt Hk'. by apply (Hmin k' (Fin 1) Hlt Hk'). }
  assert (Hgt : np_gt (Fin 1) (Fin 0.8) = true).
  { simpl. apply bool_decide_eq_true. lra. }
  assert (Hjlt : (j < length barcodes)%nat).
  { apply lookup_lt_Some in Hk. lia. }
  destruct (lookup_lt_is_Some_2 barcodes j Hjlt) as [stored Hstored].
  destruct (lookup_lt_is_Some_2 IDs j ltac:(lia)) as [i Hi].
  destruct (match_and_write_accept barcodes IDs pos_msec pos_frames pts tl tr br bl
              resize_warp _ (Fin 1) j i Hc) as (rec & Hrec & Hid & Hprob).
  { by rewrite concat_singletons. }
  { done. }
  { by rewrite concat_singletons. }
  { done. }
  exists j, stored, i, rec. repeat split; try done.
  - unfold v in Hb. change (map ?f ?l) with (f <$> l) in Hb.
    rewrite list_lookup_fmap, Hstored in Hb. simpl in Hb. by inversion Hb.
  - intros j' row Hlt Hrow Hp. apply (Hmin j' (Fin 1) Hlt); [|done].
    unfold v. change (map ?f ?l) with (f <$> l). rewrite list_lookup_fmap, Hrow. simpl.
    by rewrite Hp.
Qed.

Lemma stored_vector_matches_itself_witness :
  (forall row, row ∈ [Scene.stored] -> length row = 49%nat /\ ~ is_constant row) /\
  [Scene.stored] !! 0%nat = Some (candidate Scene.patch) /\
  exists (j : nat) (stored : list R) (i : Z) (rec : DetectionRecord),
    (j <= 0)%nat /\
    [Scene.stored] !! j = Some stored /\
    pearson stored (candidate Scene.patch) = Fin 1 /\
    (forall j' row, (j' < j)%nat -> [Scene.stored] !! j' = Some row ->
                    pearson row (candidate Scene.patch) <> Fin 1) /\
    [42%Z] !! j = Some i /\
    match_and_write [Scene.stored] [42%Z] 0 0 [] (0, 0)%Z (0, 0)%Z (0, 0)%Z (0, 0)%Z
                    Scene.patch = Ok (Some rec) /\
    id rec = i /\ id_prob rec = Fin 1.
Proof.
  assert (H1 : forall row, row ∈ [Scene.stored] ->
                           length row = 49%nat /\ ~ is_constant row).
  { intros row Hrow. apply list_elem_of_singleton in Hrow as ->.
    split; [reflexivity|apply stored_not_constant]. }
  split; [exact H1|]. split; [reflexivity|].
  apply (stored_vector_matches_itself [Scene.stored] [42%Z] 0 0 [] (0, 0)%Z (0, 0)%Z
           (0, 0)%Z (0, 0)%Z Scene.patch 0 H1 eq_refl).
  simpl. lia.
Defined.

(** C3 fails as stated: with the all-white pattern as the only stored
    vector, the candidate equal to it has NaN correlation and nothing is
    matched. *)
Lemma all_white_pattern_matches_nothing :
  [Scene.all_white] !! 0%nat = Some (candidate Scene.white_patch) /\
  correlate [Scene.all_white] Scene.white_patch = Ok [[NaN]] /\
  match_and_write [Scene.all_white] [42%Z] 0 0 [] (0, 0)%Z (0, 0)%Z (0, 0)%Z (0, 0)%Z
                  Scene.white_patch = Ok None.
Proof.
  assert (Hc : correlate [Scene.all_white] Scene.white_patch = Ok [[NaN]]).
  { rewrite correlate_rows.
    - simpl. rewrite pearson_constant_r; [reflexivity|].
      rewrite candidate_white_patch. apply is_constant_repeated.
    - done.
    - reflexivity.
    - intros row Hrow. apply list_elem_of_singleton in Hrow as ->. reflexivity. }
  split; [reflexivity|]. split; [exact Hc|].
  eapply match_and_write_below; [exact Hc|reflexivity|reflexivity].
Qed.

(** C5: a patch whose best correlation is below 0.8 gives no record and no
    exception; a record is written only when the best correlation exceeds
    0.8, and it carries that value. *)
Theorem below_threshold_gives_no_detection {ID : Type} (barcodes : matrix)
    (IDs : list ID) (pos_msec pos_frames : R) (pts : list point) (tl tr br bl : point)
    (resize_warp : gray_image) (correlation : list (list npfloat)) (best : npfloat) :
  correlate barcodes resize_warp = Ok correlation ->
  Np.max (concat correlation) = Ok best ->
  (np_lt best (Fin 0.8) = true ->
   match_and_write barcodes IDs pos_msec pos_frames pts tl tr br bl resize_warp
   = Ok None) /\
  (forall rec,
     match_and_write barcodes IDs pos_msec pos_frames pts tl tr br bl resize_warp
     = Ok (Some rec) ->
     id_prob rec = best /\ np_gt best (Fin 0.8) = true).
Proof.
  intros Hc Hm. split.
  - intros Hlt. eapply match_and_write_below; eauto. by apply np_lt_not_gt.
  - intros rec Hrec.
    destruct (match_and_write_inv _ _ _ _ _ _ _ _ _ _ _ Hrec)
      as (c' & bi & Hc' & Hm' & Hgt & _).
    rewrite Hc in Hc'. inversion Hc'; subst c'.
    rewrite Hm in Hm'. inversion Hm'; subst best. done.
Qed.

Lemma below_threshold_gives_no_detection_witness :
  correlate [Scene.stored] Scene.inverse_patch = Ok [[Fin (-1)]] /\
  Np.max (concat [[Fin (-1)]]) = Ok (Fin (-1)) /\
  np_lt (Fin (-1)) (Fin 0.8) = true /\
  match_and_write [Scene.stored] [42%Z] 0 0 [] (0, 0)%Z (0, 0)%Z (0, 0)%Z (0, 0)%Z
                  Scene.inverse_patch = Ok None.
Proof.
  assert (Hc : correlate [Scene.stored] Scene.inverse_patch = Ok [[Fin (-1)]]).
  { rewrite correlate_rows.
    - simpl. rewrite candidate_inverse_patch, pearson_complement; [reflexivity|].
      apply stored_not_constant.
    - done.
    - reflexivity.
    - intros row Hrow. apply list_elem_of_singleton in Hrow as ->. reflexivity. }
  assert (Hlt : np_lt (Fin (-1)) (Fin 0.8) = true).
  { unfold np_lt. simpl. apply bool_decide_eq_true. lra. }
  split; [exact Hc|]. split; [reflexivity|]. split; [exact Hlt|].
  exact (proj1 (below_threshold_gives_no_detection [Scene.stored] [42%Z] 0 0 []
                  (0, 0)%Z (0, 0)%Z (0, 0)%Z (0, 0)%Z Scene.inverse_patch
                  [[Fin (-1)]] (Fin (-1)) Hc eq_refl) Hlt).
Defined.

(** C10: for a constant patch every entry of the correlation is NaN (0/0,
    no exception), the best value is NaN, NaN > 0.8 is false, and the
    candidate is dropped without a record. *)
Theorem constant_patch_is_dropped {ID : Type} (barcodes : matrix) (IDs : list ID)
    (pos_msec pos_frames : R) (pts : list point) (tl tr br bl : point)
    (resize_warp : gray_image) :
  barcodes <> [] ->
  (forall row, row ∈ barcodes -> length row = 49%nat) ->
  length (concat resize_warp) = 49%nat ->
  is_constant (candidate resize_warp) ->
  correlate barcodes resize_warp = Ok (map (fun _ => [NaN]) barcodes) /\
  Np.max (concat (map (fun _ : list R => [NaN]) barcodes)) = Ok NaN /\
  np_gt NaN (Fin 0.8) = false /\
  match_and_write barcodes IDs pos_msec pos_frames pts tl tr br bl resize_warp
  = Ok None.
Proof.
  intros Hne Hrows Hlen Hconst.
  assert (Hc : correlate barcodes resize_warp = Ok (map (fun _ => [NaN]) barcodes)).
  { rewrite (correlate_rows barcodes resize_warp Hne Hlen Hrows). f_equal.
    apply map_ext. intros a. by rewrite pearson_constant_r. }
  assert (Hm : Np.max (concat (map (fun _ : list R => [NaN]) barcodes)) = Ok NaN).
  { destruct barcodes as [|a A]; [done|]. simpl. apply max_nan_head. }
  repeat split; try done.
  eapply match_and_write_below; eauto.
Qed.

Lemma constant_patch_is_dropped_witness :
  is_constant (candidate Scene.blank_patch) /\
  correlate [Scene.stored] Scene.blank_patch = Ok [[NaN]] /\
  match_and_write [Scene.stored] [42%Z] 0 0 [] (0, 0)%Z (0, 0)%Z (0, 0)%Z (0, 0)%Z
                  Scene.blank_patch = Ok None.
Proof.
  assert (Hk : is_constant (candidate Scene.blank_patch))
    by (apply (is_constant_repeated 255 49)).
  assert (Hne : [Scene.stored] <> []) by discriminate.
  assert (Hrows : forall row, row ∈ [Scene.stored] -> length row = 49%nat).
  { intros row Hrow. apply list_elem_of_singleton in Hrow as ->. reflexivity. }
  destruct (constant_patch_is_dropped [Scene.stored] [42%Z] 0 0 [] (0, 0)%Z (0, 0)%Z
              (0, 0)%Z (0, 0)%Z Scene.blank_patch Hne Hrows eq_refl Hk)
    as (Hc & _ & _ & Hm).
  split; [exact Hk|]. split; [exact Hc|exact Hm].
Defined.

End MatchClaims.

(** ** Geometric filters *)

Section ContourClaims.
Local Open Scope R_scope.

Lemma scene_contour_accepted :
  exists rec : DetectionRecord,
    contour_body (Scene.cv Scene.patch) [] (100, 100)%Z [Scene.stored] [42%Z] 0 0
                 Scene.square = Ok (Some rec) /\
    match_and_write [Scene.stored] [42%Z] 0 0
                    [(10, 10); (20, 10); (20, 20); (10, 20)]%Z
                    (10, 10)%Z (20, 10)%Z (20, 20)%Z (10, 20)%Z Scene.patch
    = Ok (Some rec).
Proof.
  destruct (scene_match [(10, 10); (20, 10); (20, 20); (10, 20)]%Z
              (10, 10)%Z (20, 10)%Z (20, 20)%Z (10, 20)%Z) as (rec & Hrec & _).
  exists rec. split; [|exact Hrec].
  rewrite (contour_body_gated _ _ _ _ _ _ _ _ (square_passes Scene.patch)).
  unfold simplified. simpl approxPolyDP. rewrite square_ordered. exact Hrec.
Qed.

(** C6: a contour with a vertex within [edge_thresh] pixels of the frame
    boundary, or whose signed area is not strictly between -2000 and -10,
    gives no record (and no exception). *)
Theorem edge_or_area_rejects_contour {ID : Type} (cv : Cv2) (gray : gray_image)
    (image_shape : Z * Z) (barcodes : matrix) (IDs : list ID)
    (pos_msec pos_frames : R) (cnt : contour) :
  near_frame_edge image_shape cnt \/ ~ area_in_band (contourArea cv cnt) ->
  contour_body cv gray image_shape barcodes IDs pos_msec pos_frames cnt = Ok None.
Proof.
  intros H. apply contour_body_rejected. intros (_ & Hband & Hedge & _).
  destruct H as [H|H]; contradiction.
Qed.

Lemma edge_or_area_rejects_contour_witness :
  near_frame_edge (100, 100)%Z Scene.cut_square /\
  contour_body (Scene.cv Scene.patch) [] (100, 100)%Z [Scene.stored] [42%Z] 0 0
               Scene.cut_square = Ok None.
Proof.
  split; [exact cut_square_near_edge|].
  exact (edge_or_area_rejects_contour (Scene.cv Scene.patch) [] (100, 100)%Z
           [Scene.stored] [42%Z] 0 0 Scene.cut_square
           (or_introl cut_square_near_edge)).
Defined.





End ContourClaims.

(** ** Pose *)

Section PoseClaims.
Local Open Scope R_scope.

(** The position and orientation written for an accepted quadrilateral. *)
Lemma written_pose {ID : Type} (barcodes : matrix) (IDs : list ID)
    (pos_msec pos_frames : R) (tl tr br bl : point) (resize_warp : gray_image)
    (rec : DetectionRecord) :
  match_and_write barcodes IDs pos_msec pos_frames [tl; tr; br; bl] tl tr br bl
                  resize_warp = Ok (Some rec) ->
  exists correlation best_index,
    correlate barcodes resize_warp = Ok correlation /\
    Np.argmax (concat correlation) = Ok best_index /\
    let centroid := quad_centroid tl tr br bl in
    let edge := reference_edge best_index tl tr br bl in
    x rec = fst centroid + IZR (fst pt1) /\
    y rec = - snd centroid + IZR (snd pt1) /\
    orientation rec
    = angle (fst edge - fst centroid, - snd edge - - snd centroid) true.
Proof.
  intros H. apply match_and_write_inv in H
    as (correlation & best_index & Hc & _ & _ & Ha & _ & _ & _ & Hx & Hy & Ho).
  exists correlation, best_index. split; [exact Hc|]. split; [exact Ha|].
  rewrite edge_chain_is_table, mean0_quad in Ho. rewrite mean0_quad in Hx, Hy.
  cbv zeta. auto.
Qed.

Lemma scene_correlation : correlate [Scene.stored] Scene.patch = Ok [[Fin 1]].
Proof.
  rewrite correlate_rows.
  - simpl. rewrite candidate_patch, pearson_self; [reflexivity|].
    apply stored_not_constant.
  - done.
  - reflexivity.
  - intros row Hrow. apply list_elem_of_singleton in Hrow as ->. reflexivity.
Qed.

(** C8: the orientation written for an accepted detection is the angle, in
    degrees in [0, 360), of the vector from the quad centroid to the midpoint
    of the reference edge selected by the best index mod 4 (0 left, 1 bottom,
    2 right, 3 top), taken with the y-axis inverted: it is the arctangent of
    vy / vx moved to the quadrant of the vector (atan2) and reduced into
    [0, 360), so that the vector is its length times (cos, sin) of the
    orientation; it is 0 for the zero vector. *)
Theorem orientation_from_reference_edge {ID : Type} (barcodes : matrix)
    (IDs : list ID) (pos_msec pos_frames : R) (tl tr br bl : point)
    (resize_warp : gray_image) (rec : DetectionRecord) :
  match_and_write barcodes IDs pos_msec pos_frames [tl; tr; br; bl] tl tr br bl
                  resize_warp = Ok (Some rec) ->
  exists correlation best_index,
    correlate barcodes resize_warp = Ok correlation /\
    Np.argmax (concat correlation) = Ok best_index /\
    let centroid := quad_centroid tl tr br bl in
    let edge := reference_edge best_index tl tr br bl in
    let vx := fst edge - fst centroid in
    let vy := - snd edge - - snd centroid in
    0 <= orientation rec < 360 /\
    (0 < vx -> 0 <= vy -> orientation rec = atan (vy / vx) * (180 / PI)) /\
    (0 < vx -> vy < 0 -> orientation rec = (atan (vy / vx) + 2 * PI) * (180 / PI)) /\
    (vx < 0 -> orientation rec = (atan (vy / vx) + PI) * (180 / PI)) /\
    (vx = 0 -> 0 < vy -> orientation rec = 90) /\
    (vx = 0 -> vy < 0 -> orientation rec = 270) /\
    (vx = 0 -> vy = 0 -> orientation rec = 0) /\
    cos (orientation rec * (PI / 180)) * sqrt (vx * vx + vy * vy) = vx /\
    sin (orientation rec * (PI / 180)) * sqrt (vx * vx + vy * vy) = vy.
Proof.
  intros H. apply written_pose in H
    as (correlation & best_index & Hc & Ha & _ & _ & Ho).
  exists correlation, best_index. split; [exact Hc|]. split; [exact Ha|].
  cbv zeta. rewrite Ho.
  set (vx := fst (reference_edge best_index tl tr br bl)
             - fst (quad_centroid tl tr br bl)).
  set (vy := - snd (reference_edge best_index tl tr br bl)
             - - snd (quad_centroid tl tr br bl)).
  split; [apply angle_degrees_range|].
  destruct (angle_degrees_cases vx vy) as (H1 & H2 & H3 & H4 & H5 & H6).
  destruct (angle_degrees_polar vx vy) as [Hcos Hsin].
  repeat split; assumption.
Qed.

Lemma orientation_from_reference_edge_witness :
  exists rec : DetectionRecord,
    match_and_write [Scene.stored] [42%Z] 0 0
                    [(10, 10); (20, 10); (20, 20); (10, 20)]%Z
                    (10, 10)%Z (20, 10)%Z (20, 20)%Z (10, 20)%Z Scene.patch
    = Ok (Some rec) /\
    reference_edge 0 (10, 10)%Z (20, 10)%Z (20, 20)%Z (10, 20)%Z = (10, 15) /\
    quad_centroid (10, 10)%Z (20, 10)%Z (20, 20)%Z (10, 20)%Z = (15, 15) /\
    orientation rec = 180.
Proof.
  destruct scene_contour_accepted as (rec & _ & Hrec).
  exists rec. split; [exact Hrec|].
  assert (He : reference_edge 0 (10, 10)%Z (20, 10)%Z (20, 20)%Z (10, 20)%Z = (10, 15)).
  { unfold reference_edge, midpoint. simpl. f_equal; lra. }
  assert (Hq : quad_centroid (10, 10)%Z (20, 10)%Z (20, 20)%Z (10, 20)%Z = (15, 15)).
  { unfold quad_centroid. simpl. f_equal; lra. }
  split; [exact He|]. split; [exact Hq|].
  destruct (orientation_from_reference_edge [Scene.stored] [42%Z] 0 0
              (10, 10)%Z (20, 10)%Z (20, 20)%Z (10, 20)%Z Scene.patch rec Hrec)
    as (correlation & best_index & Hc & Ha & _ & _ & _ & Hleft & _).
  rewrite scene_correlation in Hc. inversion Hc; subst correlation.
  simpl in Ha. inversion Ha; subst best_index.
  rewrite He, Hq in Hleft. cbn [fst snd] in Hleft.
  rewrite Hleft by lra.
  replace (- (15) - - (15)) with 0 by lra.
  replace (0 / (10 - 15)) with 0 by (unfold Rdiv; ring).
  rewrite atan_0. assert (Hpi := PI_RGT_0). field. lra.
Defined.

(** C1 at the square with corners (10,10), (20,10), (20,20), (10,20): the
    mean of the corners is (15, 15); the record carries x = 15 and
    y = -15. *)
Theorem centroid_y_written_negated :
  exists rec : DetectionRecord,
    contour_body (Scene.cv Scene.patch) [] (100, 100)%Z [Scene.stored] [42%Z] 0 0
                 Scene.square = Ok (Some rec) /\
    order_points Scene.square = Ok [(10, 10); (20, 10); (20, 20); (10, 20)]%Z /\
    quad_centroid (10, 10)%Z (20, 10)%Z (20, 20)%Z (10, 20)%Z = (15, 15) /\
    x rec = 15 /\ y rec = -15.
Proof.
  destruct scene_contour_accepted as (rec & Hbody & Hrec).
  exists rec. split; [exact Hbody|]. split; [exact square_ordered|].
  apply written_pose in Hrec as (_ & _ & _ & _ & Hx & Hy & _).
  assert (Hq : quad_centroid (10, 10)%Z (20, 10)%Z (20, 20)%Z (10, 20)%Z = (15, 15)).
  { unfold quad_centroid. simpl. f_equal; lra. }
  split; [exact Hq|]. rewrite Hq in Hx, Hy. simpl in Hx, Hy.
  split; lra.
Qed.

End PoseClaims.

(** ** Frames without markers *)

Section FrameClaims.
Local Open Scope R_scope.

(** The assertion of [get_contours] holds exactly when both levels occur in
    the image. *)
Lemma get_contours_needs_both_levels (cv : Cv2) (threshold_image : gray_image) :
  (0%Z ∉ np_unique threshold_image \/ 255%Z ∉ np_unique threshold_image) ->
  get_contours cv threshold_image = Raise AssertionError.
Proof.
  intros H. unfold get_contours.
  rewrite bool_decide_eq_false_2; [reflexivity|].
  intros Hs. apply size_empty_iff in Hs. destruct H as [H|H]; set_solver.
Qed.

Lemma get_contours_both_levels (cv : Cv2) (threshold_image : gray_image) :
  0%Z ∈ np_unique threshold_image -> 255%Z ∈ np_unique threshold_image ->
  get_contours cv threshold_image = Ok (findContours cv threshold_image).
Proof.
  intros H0 H255. unfold get_contours.
  rewrite bool_decide_eq_true_2; [reflexivity|].
  apply size_empty_iff, elem_of_equiv_empty. intros a Ha.
  apply elem_of_difference in Ha as [Ha Hn].
  apply elem_of_union in Ha as [Ha|Ha]; apply elem_of_singleton in Ha; subst; done.
Qed.

Lemma get_grayscale_green (cv : Cv2) (image : color_image) :
  concat image <> [] ->
  get_grayscale cv image (Some "green")
  = Ok (map (map (fun bgr => snd (fst bgr))) image).
Proof.
  intros H. unfold get_grayscale.
  rewrite (bool_decide_eq_false_2 (concat image = []) H). reflexivity.
Qed.

Lemma get_grayscale_green_no_pixels (cv : Cv2) (image : color_image) :
  concat image = [] -> get_grayscale cv image (Some "green") = Raise ValueError.
Proof.
  intros H. unfold get_grayscale.
  rewrite (bool_decide_eq_true_2 (concat image = []) H). reflexivity.
Qed.

Lemma get_threshold_201 (cv : Cv2) (gray : gray_image) (offset : R) :
  get_threshold cv gray 201 offset = Ok (adaptiveThreshold cv gray 255 201 offset).
Proof. reflexivity. Qed.

(** A frame with pixels whose thresholded image lacks one of the two levels
    makes [get_contours] raise before any contour is looked at. *)
Lemma frame_body_one_level {ID : Type} (cv : Cv2) (barcodes : matrix)
    (IDs : list ID) (pt2 : Z * Z) (image : color_image) (pos_msec pos_frames : R) :
  let gray := map (map (fun bgr : Z * Z * Z => snd (fst bgr))) (crop image pt1 pt2) in
  let thresh := adaptiveThreshold cv (GaussianBlur cv gray (1, 1)%Z 1) 255 201 (-25) in
  concat (crop image pt1 pt2) <> [] ->
  (0%Z ∉ np_unique thresh \/ 255%Z ∉ np_unique thresh) ->
  frame_body cv barcodes IDs pt2 image pos_msec pos_frames
  = ([], Raise AssertionError).
Proof.
  intros gray thresh Hne H. unfold frame_body.
  rewrite (get_grayscale_green _ _ Hne). cbn [mbind result_bind].
  rewrite get_threshold_201. cbn [mbind result_bind].
  fold gray. fold thresh. by rewrite (get_contours_needs_both_levels cv thresh H).
Qed.

(** A frame without pixels raises in [get_grayscale]. *)
Lemma frame_body_no_pixels {ID : Type} (cv : Cv2) (barcodes : matrix)
    (IDs : list ID) (pt2 : Z * Z) (image : color_image) (pos_msec pos_frames : R) :
  concat (crop image pt1 pt2) = [] ->
  frame_body cv barcodes IDs pt2 image pos_msec pos_frames = ([], Raise ValueError).
Proof.
  intros He. unfold frame_body.
  by rewrite (get_grayscale_green_no_pixels _ _ He).
Qed.

Lemma threshold_uniform_black :
  Scene.threshold_uniform (repeat (repeat 0%Z 4) 4) 255 (-25) = repeat (repeat 0%Z 4) 4.
Proof.
  unfold Scene.threshold_uniform. simpl.
  assert (H : (if decide (0 > 0 - -25) then 255%Z else 0%Z) = 0%Z).
  { case_decide; [lra|reflexivity]. }
  rewrite !H. reflexivity.
Qed.

(** C2 at an all-black 4x4 frame: every pixel equals the block mean, no
    pixel exceeds mean + 25, the thresholded image is all 0, and
    [get_contours] raises AssertionError instead of returning no contour. *)
Theorem black_frame_raises_assertion :
  Scene.threshold_uniform (repeat (repeat 0%Z 4) 4) 255 (-25) = repeat (repeat 0%Z 4) 4 /\
  frame_body (Scene.cv Scene.patch) [Scene.stored] [42%Z] (4, 4)%Z
             Scene.black_frame 0 0
  = ([], Raise AssertionError).
Proof.
  split; [exact threshold_uniform_black|].
  apply frame_body_one_level; [vm_compute; discriminate|]. right.
  change (adaptiveThreshold (Scene.cv Scene.patch)
            (GaussianBlur (Scene.cv Scene.patch)
               (map (map (fun bgr : Z * Z * Z => snd (fst bgr)))
                  (crop Scene.black_frame pt1 (4, 4)%Z)) (1, 1)%Z 1) 255 201 (-25))
    with (Scene.threshold_uniform (repeat (repeat 0%Z 4) 4) 255 (-25)).
  rewrite threshold_uniform_black. vm_compute. set_solver.
Qed.

End FrameClaims.

(** ** Building the pattern library *)

Section LibraryClaims.

Lemma reshape2_raises {A : Type} (d : A) (v : list A) (shape : Z * Z) (e : exn) :
  reshape2 d v shape = Raise e -> e = ValueError.
Proof.
  unfold reshape2. destruct shape as [h w].
  repeat match goal with
         | |- context [if ?c then _ else _] => destruct c
         end; intros H; inversion H; reflexivity.
Qed.



Lemma bind_raises {A B : Type} (m : result A) (f : A -> result B) (e : exn) :
  (m ≫= f) = Raise e ->
  m = Raise e \/ exists a, m = Ok a /\ f a = Raise e.
Proof.
  destruct m as [a|e']; intros H.
  - right. exists a. split; [reflexivity|exact H].
  - left. change (@Raise B e' = Raise e) in H. inversion H. reflexivity.
Qed.









End LibraryClaims.

(** * Further properties

    ** Correlation table *)

Section CorrelationExtras.
Local Open Scope R_scope.

(** Every entry of [corr2_coeff] is the Pearson coefficient of its two rows. *)
Lemma corr2_coeff_pearson (A B : matrix) :
  A <> [] -> B <> [] ->
  rectangular A = true -> rectangular B = true -> ncols A = ncols B ->
  corr2_coeff A B = Ok (map (fun a => map (fun b => pearson a b) B) A).
Proof.
  intros HA HB Hra Hrb Hn. unfold corr2_coeff.
  destruct A as [|a0 A']; [done|]. destruct B as [|b0 B']; [done|].
  rewrite Hra, Hrb. rewrite (proj2 (Nat.eqb_eq _ _) Hn). simpl negb. cbv iota zeta.
  f_equal. unfold sub_row_mean, sum_squares.
  rewrite !List.map_map, !combine_map_same, List.map_map.
  apply map_ext. intros a. rewrite List.map_map. apply map_ext. intros b. reflexivity.
Qed.



Lemma is_constant_dec (v : list R) : is_constant v \/ ~ is_constant v.
Proof.
  destruct (Req_dec (sum_sq_dev v) 0) as [H|H].
  - left. by apply sum_sq_dev_zero_constant.
  - right. intros Hc. apply H. destruct (is_constant_repeat v Hc) as [c Hv].
    unfold sum_sq_dev. rewrite Hv, deviations_repeat. apply sum_square_zeros.
Qed.

Lemma pearson_range (a b : list R) :
  ~ is_constant a -> ~ is_constant b ->
  exists r, pearson a b = Fin r /\ -1 <= r <= 1.
Proof.
  intros Ha Hb.
  pose proof (sum_sq_dev_pos a Ha) as Hpa. pose proof (sum_sq_dev_pos b Hb) as Hpb.
  pose proof (inner_cauchy_schwarz (deviations a) (deviations b)) as Hcs.
  fold (sum_sq_dev a) in Hcs. fold (sum_sq_dev b) in Hcs.
  unfold pearson.
  set (n := Np.inner (deviations a) (deviations b)) in *.
  set (p := sum_sq_dev a * sum_sq_dev b) in *.
  assert (Hp : 0 < p) by (unfold p; nra).
  pose proof (sqrt_lt_R0 p Hp) as Hs.
  pose proof (sqrt_sqrt p (Rlt_le _ _ Hp)) as Hss.
  unfold Np.divide. case_decide; [lra|].
  eexists. split; [reflexivity|].
  assert (Hdiv : n / sqrt p * sqrt p = n) by (field; lra).
  split.
  - apply (Rmult_le_reg_r (sqrt p)); [done|]. rewrite Hdiv. nra.
  - apply (Rmult_le_reg_r (sqrt p)); [done|]. rewrite Hdiv. nra.
Qed.

End CorrelationExtras.

Section CorrelationExtras2.
Local Open Scope R_scope.

Lemma corr2_coeff_ok_inv (A B : matrix) (C : list (list npfloat)) :
  corr2_coeff A B = Ok C ->
  A <> [] /\ B <> [] /\ rectangular A = true /\ rectangular B = true /\
  ncols A = ncols B /\ C = map (fun a => map (fun b => pearson a b) B) A.
Proof.
  intros H.
  assert (HA : A <> []) by (intros ->; discriminate H).
  assert (HB : B <> []) by (intros ->; destruct A; discriminate H).
  assert (Hc : rectangular A && rectangular B && Nat.eqb (ncols A) (ncols B) = true).
  { unfold corr2_coeff in H. destruct A; [done|]. destruct B; [done|].
    destruct (rectangular _ && rectangular _ && _); [reflexivity|discriminate H]. }
  apply andb_true_iff in Hc as [Hc Hn]. apply andb_true_iff in Hc as [Hra Hrb].
  apply Nat.eqb_eq in Hn.
  rewrite (corr2_coeff_pearson A B HA HB Hra Hrb Hn) in H. inversion H. done.
Qed.


End CorrelationExtras2.

Section CorrelationTheorems.
Local Open Scope R_scope.




Lemma sum_affine (s t : R) (v : list R) :
  Np.sum (map (fun x => s * x + t) v) = s * Np.sum v + INR (length v) * t.
Proof.
  induction v as [|a v IH]; [unfold Np.sum; simpl; lra|].
  change (map (fun x => s * x + t) (a :: v)) with ((s * a + t) :: map (fun x => s * x + t) v).
  rewrite !sum_cons, IH. change (length (a :: v)) with (S (length v)).
  rewrite S_INR. lra.
Qed.

Lemma deviations_affine (s t : R) (v : list R) :
  deviations (map (fun x => s * x + t) v) = map (fun d => s * d) (deviations v).
Proof.
  destruct v as [|a0 v0]; [reflexivity|].
  set (v := a0 :: v0).
  assert (Hn : 0 < INR (length v)) by (apply lt_0_INR; simpl; lia).
  assert (Hm : Np.mean (map (fun x => s * x + t) v) = s * Np.mean v + t).
  { unfold Np.mean. rewrite sum_affine, length_map. field. lra. }
  unfold deviations. rewrite Hm, !List.map_map. apply map_ext. intros x. lra.
Qed.

Lemma inner_scale_r (s : R) (u v : list R) :
  Np.inner u (map (fun d => s * d) v) = s * Np.inner u v.
Proof.
  revert v. induction u as [|a u IH]; intros [|b v].
  - rewrite !inner_nil_l. lra.
  - rewrite !inner_nil_l. lra.
  - simpl map. rewrite !inner_nil_r. lra.
  - change (map (fun d => s * d) (b :: v)) with (s * b :: map (fun d => s * d) v).
    rewrite !inner_cons, IH. lra.
Qed.

Lemma sum_square_scale (s : R) (v : list R) :
  Np.sum (Np.square (map (fun d => s * d) v)) = s * s * Np.sum (Np.square v).
Proof.
  induction v as [|a v IH]; [unfold Np.sum; simpl; lra|].
  change (map (fun d => s * d) (a :: v)) with (s * a :: map (fun d => s * d) v).
  rewrite !square_cons, !sum_cons, IH. lra.
Qed.

(** The Pearson coefficient does not change when one row is scaled by a
    positive factor and shifted. *)
Lemma pearson_affine (s t : R) (a b : list R) :
  0 < s -> pearson a (map (fun x => s * x + t) b) = pearson a b.
Proof.
  intros Hs. unfold pearson, sum_sq_dev.
  rewrite deviations_affine, inner_scale_r, sum_square_scale.
  set (n := Np.inner (deviations a) (deviations b)).
  set (sa := Np.sum (Np.square (deviations a))).
  set (sb := Np.sum (Np.square (deviations b))).
  assert (Hsa : 0 <= sa) by apply sum_square_nonneg.
  assert (Hsb : 0 <= sb) by apply sum_square_nonneg.
  assert (Hsq : sqrt (sa * (s * s * sb)) = s * sqrt (sa * sb)).
  { replace (sa * (s * s * sb)) with ((s * s) * (sa * sb)) by ring.
    rewrite sqrt_mult_alt by nra. rewrite sqrt_square by lra. reflexivity. }
  rewrite Hsq. unfold Np.divide.
  pose proof (sqrt_pos (sa * sb)) as Hd.
  destruct (decide (sqrt (sa * sb) = 0)) as [Hz|Hz].
  - rewrite Hz, Rmult_0_r. destruct (decide (0 = 0)) as [_|]; [|done].
    destruct (decide (n = 0)) as [Hn|Hn].
    + rewrite Hn, Rmult_0_r. by destruct (decide (0 = 0)).
    + destruct (decide (s * n = 0)) as [Hsn|_]; [nra|].
      destruct (decide (0 < n)), (decide (0 < s * n)); try reflexivity; nra.
  - destruct (decide (s * sqrt (sa * sb) = 0)) as [Hsz|_]; [nra|].
    f_equal. field. split; lra.
Qed.

End CorrelationTheorems.

(** ** The matching step *)

Section MatchExtras.
Local Open Scope R_scope.

Lemma reshape2_one_row_inv {A : Type} (d : A) (v : list A) (n : nat)
    (arr : ndarray2 A) :
  (0 < n)%nat ->
  reshape2 d v (1, Z.of_nat n)%Z = Ok arr -> length v = n /\ to_rows arr = [v].
Proof.
  intros Hn H.
  assert (Hlen : length v = n).
  { unfold reshape2 in H.
    replace (1 <? 0)%Z with false in H by reflexivity.
    replace (Z.of_nat n <? 0)%Z with false in H by (symmetry; apply Z.ltb_ge; lia).
    simpl in H.
    destruct (1 * Z.of_nat n =? Z.of_nat (length v))%Z eqn:E; [|discriminate H].
    apply Z.eqb_eq in E. lia. }
  split; [exact Hlen|].
  destruct (reshape2_one_row d v) as (arr' & Harr & Hrows).
  rewrite Hlen in Harr. rewrite Harr in H. by inversion H; subst.
Qed.

Lemma correlate_inv (barcodes : matrix) (resize_warp : gray_image)
    (C : list (list npfloat)) :
  correlate barcodes resize_warp = Ok C ->
  length (concat resize_warp) = 49%nat /\ barcodes <> [] /\
  (forall row, row ∈ barcodes -> length row = 49%nat) /\
  C = map (fun a => [pearson a (candidate resize_warp)]) barcodes.
Proof.
  unfold correlate. intros H.
  destruct (reshape2 0%Z (concat resize_warp) (1, flat_len)%Z) as [arr|e] eqn:Hr;
    [|discriminate H].
  simpl in H.
  apply (reshape2_one_row_inv 0%Z _ 49) in Hr as [Hlen Hrows]; [|lia].
  rewrite Hrows in H. simpl in H. fold (candidate resize_warp) in H.
  apply corr2_coeff_ok_inv in H as (HA & _ & Hra & _ & Hn & ->).
  split; [done|]. split; [done|]. split; [|reflexivity].
  intros row Hrow. rewrite (proj1 (rectangular_spec _) Hra row Hrow), Hn.
  unfold ncols, candidate. simpl. by rewrite length_map.
Qed.

Lemma correlate_affine (barcodes : matrix) (resize_warp : gray_image) (s t : Z) :
  (0 < s)%Z ->
  correlate barcodes (map (map (fun p => s * p + t)%Z) resize_warp)
  = correlate barcodes resize_warp.
Proof.
  intros Hs.
  assert (Hcat : concat (map (map (fun p => s * p + t)%Z) resize_warp)
                 = map (fun p => s * p + t)%Z (concat resize_warp)).
  { induction resize_warp as [|row rw IH]; [reflexivity|].
    simpl. by rewrite map_app, IH. }
  assert (Hcand : candidate (map (map (fun p => s * p + t)%Z) resize_warp)
                  = map (fun x => IZR s * x + IZR t) (candidate resize_warp)).
  { unfold candidate. rewrite Hcat, !List.map_map. apply map_ext. intros p.
    rewrite plus_IZR, mult_IZR. reflexivity. }
  destruct (decide (length (concat resize_warp) = 49%nat)) as [Hlen|Hlen].
  - assert (Hlen' : length (concat (map (map (fun p => s * p + t)%Z) resize_warp))
                    = 49%nat) by (by rewrite Hcat, length_map).
    unfold correlate.
    destruct (reshape2_one_row 0%Z (concat resize_warp)) as (a1 & H1 & R1).
    destruct (reshape2_one_row 0%Z
                (concat (map (map (fun p => s * p + t)%Z) resize_warp)))
      as (a2 & H2 & R2).
    rewrite Hlen in H1. rewrite Hlen' in H2.
    change (Z.of_nat 49) with flat_len in H1, H2. rewrite H1, H2. simpl.
    rewrite R1, R2. simpl.
    fold (candidate resize_warp).
    fold (candidate (map (map (fun p => s * p + t)%Z) resize_warp)).
    rewrite Hcand.
    set (b := candidate resize_warp).
    set (b' := map (fun x => IZR s * x + IZR t) b).
    assert (Hlb : length b' = length b) by (unfold b'; by rewrite length_map).
    destruct barcodes as [|a0 A']; [reflexivity|].
    destruct (rectangular (a0 :: A') && Nat.eqb (ncols (a0 :: A')) (length b)) eqn:E.
    + apply andb_true_iff in E as [Hra Hn]. apply Nat.eqb_eq in Hn.
      rewrite !corr2_coeff_pearson; try done.
      * f_equal. apply map_ext. intros a. simpl. f_equal.
        apply pearson_affine. by apply IZR_lt.
      * apply rectangular_spec. intros row Hrow.
        apply list_elem_of_singleton in Hrow. by subst.
      * apply rectangular_spec. intros row Hrow.
        apply list_elem_of_singleton in Hrow. by subst.
      * unfold ncols at 2. simpl. lia.
    + unfold corr2_coeff.
      assert (Hb1 : rectangular [b] = true).
      { apply rectangular_spec. intros row Hrow.
        apply list_elem_of_singleton in Hrow. by subst. }
      assert (Hb2 : rectangular [b'] = true).
      { apply rectangular_spec. intros row Hrow.
        apply list_elem_of_singleton in Hrow. by subst. }
      rewrite Hb1, Hb2. unfold ncols at 2 4. simpl hd. rewrite Hlb.
      rewrite andb_true_r. rewrite E. reflexivity.
  - unfold correlate.
    assert (Hbad : forall v : list Z, length v <> 49%nat ->
              reshape2 0%Z v (1, flat_len)%Z = Raise ValueError).
    { intros v Hv. destruct (reshape2 0%Z v (1, flat_len)%Z) as [arr|e] eqn:Hr.
      - apply (reshape2_one_row_inv 0%Z v 49) in Hr as [Hl _]; [done|lia].
      - by rewrite (reshape2_raises _ _ _ _ Hr). }
    rewrite !Hbad; [reflexivity|done|]. by rewrite Hcat, length_map.
Qed.

End MatchExtras.

Section MaxExtras.
Local Open Scope R_scope.

Lemma fold_maximum_nan_in (v : list npfloat) (acc : npfloat) :
  NaN ∈ v -> fold_left Np.maximum v acc = NaN.
Proof.
  revert acc. induction v as [|a v IH]; intros acc Hin; [by apply elem_of_nil in Hin|].
  simpl. apply elem_of_cons in Hin as [<-|Hin].
  - replace (Np.maximum acc NaN) with NaN by (by destruct acc).
    apply fold_maximum_nan.
  - by apply IH.
Qed.

Lemma max_nan_in (v : list npfloat) : NaN ∈ v -> Np.max v = Ok NaN.
Proof.
  destruct v as [|a v]; intros Hin; [by apply elem_of_nil in Hin|].
  unfold Np.max. f_equal. apply elem_of_cons in Hin as [<-|Hin].
  - apply fold_maximum_nan.
  - by apply fold_maximum_nan_in.
Qed.

Lemma fold_maximum_spec (v : list npfloat) (m : R) :
  Forall (fun a => exists r, a = Fin r) v ->
  exists m', fold_left Np.maximum v (Fin m) = Fin m' /\ m <= m' /\
             Forall (fin_le m') v /\ (m' = m \/ Fin m' ∈ v).
Proof.
  revert m. induction v as [|a v IH]; intros m Hv; simpl.
  - exists m. split; [done|]. split; [lra|]. split; [constructor|by left].
  - inversion Hv as [|? ? [r ->] Hv']; subst.
    unfold Np.maximum at 2. simpl. case_bool_decide as Hc.
    + destruct (IH m Hv') as (m' & -> & Hb & Hall & Hat).
      exists m'. split; [done|]. split; [done|]. split.
      * constructor; [|done]. exists r. split; [done|lra].
      * destruct Hat as [->|Hat]; [by left|right; by right].
    + destruct (IH r Hv') as (m' & -> & Hb & Hall & Hat).
      exists m'. split; [done|]. split; [lra|]. split.
      * constructor; [|done]. exists r. split; [done|lra].
      * right. destruct Hat as [->|Hat]; [left|by right].
Qed.

Lemma argmax_from_spec (v : list npfloat) (i : nat) (m : R) (ind : nat) :
  Forall (fun a => exists r, a = Fin r) v ->
  (Np.argmax_from v i (Fin m) ind = ind /\ Forall (fin_le m) v) \/
  (exists k m', Np.argmax_from v i (Fin m) ind = (i + k)%nat /\
     v !! k = Some (Fin m') /\ m < m' /\ Forall (fin_le m') v /\
     forall k' r, (k' < k)%nat -> v !! k' = Some (Fin r) -> r < m').
Proof.
  revert i m ind. induction v as [|a v IH]; intros i m ind Hv.
  - left. split; [reflexivity|constructor].
  - inversion Hv as [|? ? [r ->] Hv']; subst. simpl. case_bool_decide as Hc; simpl.
    + destruct (IH (S i) m ind Hv') as [[-> Hall]|(k & m' & -> & Hk & Hlt & Hall & Hmin)].
      * left. split; [done|]. constructor; [|done]. by exists r.
      * right. exists (S k), m'. split; [lia|]. split; [done|]. split; [done|].
        split; [constructor; [exists r; split; [done|lra]|done]|].
        intros [|k'] r' Hlt' Hr'; simpl in Hr'.
        -- inversion Hr'; subst. lra.
        -- apply (Hmin k'); [lia|done].
    + destruct (IH (S i) r i Hv') as [[-> Hall]|(k & m' & -> & Hk & Hlt & Hall & Hmin)].
      * right. exists 0%nat, r. split; [lia|]. split; [done|]. split; [lra|].
        split; [constructor; [exists r; split; [done|lra]|done]|].
        intros k' r' Hlt'. lia.
      * right. exists (S k), m'. split; [lia|]. split; [done|]. split; [lra|].
        split; [constructor; [exists r; split; [done|lra]|done]|].
        intros [|k'] r' Hlt' Hr'; simpl in Hr'.
        -- inversion Hr'; subst. lra.
        -- apply (Hmin k'); [lia|done].
Qed.

(** On a non-empty array of finite values [np.argmax] is the first index
    that holds the value of [np.max]. *)
Lemma max_argmax_spec (v : list npfloat) :
  v <> [] -> Forall (fun a => exists r, a = Fin r) v ->
  exists j m, Np.max v = Ok (Fin m) /\ Np.argmax v = Ok j /\
    v !! j = Some (Fin m) /\ Forall (fin_le m) v /\
    forall j' r, (j' < j)%nat -> v !! j' = Some (Fin r) -> r < m.
Proof.
  intros Hne Hv. destruct v as [|a v]; [done|].
  inversion Hv as [|? ? [r ->] Hv']; subst.
  destruct (fold_maximum_spec v r Hv') as (mx & Hmx & Hge & Hallx & Hatx).
  unfold Np.max, Np.argmax. rewrite Hmx.
  destruct (argmax_from_spec v 1 r 0 Hv')
    as [[-> Hall]|(k & m' & -> & Hk & Hlt & Hall & Hmin)].
  - assert (mx = r).
    { destruct Hatx as [->|Hin]; [done|].
      rewrite Forall_forall in Hall. destruct (Hall _ Hin) as (r' & Hr' & Hle).
      inversion Hr'; subst. lra. }
    subst mx. exists 0%nat, r. repeat split; try done.
    + constructor; [exists r; split; [done|lra]|done].
    + intros j' r' Hlt. lia.
  - assert (mx = m').
    { apply list_elem_of_lookup_2 in Hk as Hin.
      rewrite Forall_forall in Hallx. destruct (Hallx _ Hin) as (r1 & Hr1 & Hle1).
      inversion Hr1; subst r1.
      destruct Hatx as [->|Hin']; [lra|].
      rewrite Forall_forall in Hall. destruct (Hall _ Hin') as (r2 & Hr2 & Hle2).
      inversion Hr2; subst r2. lra. }
    subst mx. exists (1 + k)%nat, m'. repeat split; try done.
    + constructor; [exists r; split; [done|lra]|done].
    + intros [|j'] r' Hlt' Hr'; simpl in Hr'.
      * inversion Hr'; subst. lra.
      * apply (Hmin j'); [lia|done].
Qed.

End MaxExtras.

Section BestMatch.
Local Open Scope R_scope.

Lemma best_of_pearsons (barcodes : matrix) (cand : list R) (p : npfloat) (bi : nat) :
  Np.max (map (fun a => pearson a cand) barcodes) = Ok p ->
  np_gt p (Fin 0.8) = true ->
  Np.argmax (map (fun a => pearson a cand) barcodes) = Ok bi ->
  exists (row : list R) (r : R),
    barcodes !! bi = Some row /\ p = Fin r /\ pearson row cand = Fin r /\
    0.8 < r <= 1 /\
    (forall row', row' ∈ barcodes -> exists r', pearson row' cand = Fin r' /\ r' <= r) /\
    (forall j' row' r', (j' < bi)%nat -> barcodes !! j' = Some row' ->
       pearson row' cand = Fin r' -> r' < r).
Proof.
  intros Hmax Hgt Harg.
  set (v := map (fun a => pearson a cand) barcodes) in *.
  assert (Hnonan : NaN ∉ v).
  { intros Hin. rewrite (max_nan_in v Hin) in Hmax. inversion Hmax as [Hp].
    rewrite <- Hp in Hgt. discriminate Hgt. }
  assert (Hfin : Forall (fun a => exists r, a = Fin r) v).
  { apply Forall_forall. intros a Ha.
    apply list_elem_of_fmap in Ha as (row & -> & Hrow).
    destruct (is_constant_dec row) as [Hcr|Hcr].
    { exfalso. apply Hnonan. apply list_elem_of_fmap. exists row.
      split; [|done]. symmetry. by apply pearson_constant_l. }
    destruct (is_constant_dec cand) as [Hcc|Hcc].
    { exfalso. apply Hnonan. apply list_elem_of_fmap. exists row.
      split; [|done]. symmetry. by apply pearson_constant_r. }
    destruct (pearson_range row cand Hcr Hcc) as (r & Hr & _). by exists r. }
  assert (Hvne : v <> []).
  { intros Hv. rewrite Hv in Hmax. discriminate Hmax. }
  destruct (max_argmax_spec v Hvne Hfin) as (j & m & Hm & Ha & Hj & Hall & Hmin).
  rewrite Hm in Hmax. inversion Hmax as [Hp]. rewrite Ha in Harg. inversion Harg; subst bi.
  unfold v in Hj. change (map ?f ?l) with (f <$> l) in Hj.
  rewrite list_lookup_fmap in Hj.
  destruct (barcodes !! j) as [row|] eqn:Hrow; [|discriminate Hj].
  simpl in Hj. inversion Hj as [Hpr].
  exists row, m. split; [done|]. split; [done|]. split; [done|].
  split.
  - rewrite <- Hp in Hgt. simpl in Hgt. apply bool_decide_eq_true in Hgt.
    split; [done|].
    assert (Hcr : ~ is_constant row).
    { intros Hcr. rewrite (pearson_constant_l row cand Hcr) in Hpr. discriminate Hpr. }
    assert (Hcc : ~ is_constant cand).
    { intros Hcc. rewrite (pearson_constant_r row cand Hcc) in Hpr. discriminate Hpr. }
    destruct (pearson_range row cand Hcr Hcc) as (r & Hr & Hrange).
    rewrite Hpr in Hr. inversion Hr; subst. lra.
  - split.
    + intros row' Hrow'. rewrite Forall_forall in Hall.
      apply (Hall (pearson row' cand)). apply list_elem_of_fmap. by exists row'.
    + intros j' row' r' Hlt Hrow' Hr'. apply (Hmin j' r' Hlt).
      unfold v. change (map ?f ?l) with (f <$> l).
      by rewrite list_lookup_fmap, Hrow'; simpl; rewrite Hr'.
Qed.

(** X3: the confidence written in a record is the Pearson correlation between
    the patch and the library row whose ID is written; it is a finite value
    above 0.8, no library row correlates better, and no earlier row equally
    well. *)
Theorem accepted_record_is_best_row {ID : Type} (barcodes : matrix) (IDs : list ID)
    (pos_msec pos_frames : R) (pts : list point) (tl tr br bl : point)
    (resize_warp : gray_image) (rec : DetectionRecord) :
  match_and_write barcodes IDs pos_msec pos_frames pts tl tr br bl resize_warp
  = Ok (Some rec) ->
  exists (j : nat) (row : list R) (r : R),
    barcodes !! j = Some row /\ IDs !! j = Some (id rec) /\
    id_prob rec = Fin r /\ pearson row (candidate resize_warp) = Fin r /\
    0.8 < r /\
    (forall row', row' ∈ barcodes ->
       exists r', pearson row' (candidate resize_warp) = Fin r' /\ r' <= r) /\
    (forall j' row' r', (j' < j)%nat -> barcodes !! j' = Some row' ->
       pearson row' (candidate resize_warp) = Fin r' -> r' < r).
Proof.
  intros H. apply match_and_write_inv in H
    as (C & bi & Hc & Hmax & Hgt & Harg & Hid & _).
  apply correlate_inv in Hc as (_ & _ & _ & ->).
  rewrite concat_singletons in Hmax, Harg.
  destruct (best_of_pearsons _ _ _ _ Hmax Hgt Harg)
    as (row & r & Hrow & Hp & Hpr & Hr & Hbest & Hfirst).
  exists bi, row, r. repeat split; try done. lra.
Qed.

Lemma accepted_record_is_best_row_witness :
  exists (rec : DetectionRecord) (j : nat) (row : list R) (r : R),
    match_and_write [Scene.stored] [42%Z] 0 0 [] (0, 0)%Z (0, 0)%Z (0, 0)%Z (0, 0)%Z
                    Scene.patch = Ok (Some rec) /\
    [Scene.stored] !! j = Some row /\ [42%Z] !! j = Some (id rec) /\
    id_prob rec = Fin r /\ 0.8 < r.
Proof.
  destruct (scene_match [] (0, 0)%Z (0, 0)%Z (0, 0)%Z (0, 0)%Z) as (rec & Hrec & _).
  destruct (accepted_record_is_best_row _ _ _ _ _ _ _ _ _ _ _ Hrec)
    as (j & row & r & Hrow & Hid & Hp & _ & Hr & _).
  exists rec, j, row, r. done.
Defined.

(** X4: multiplying every pixel of the rectified patch by a positive gain and
    adding an offset changes neither the correlations nor the outcome of the
    match. *)
Theorem match_invariant_under_gain_and_offset {ID : Type} (barcodes : matrix)
    (IDs : list ID) (pos_msec pos_frames : R) (pts : list point)
    (tl tr br bl : point) (resize_warp : gray_image) (gain offset : Z) :
  (0 < gain)%Z ->
  correlate barcodes (map (map (fun p => gain * p + offset)%Z) resize_warp)
  = correlate barcodes resize_warp /\
  match_and_write barcodes IDs pos_msec pos_frames pts tl tr br bl
                  (map (map (fun p => gain * p + offset)%Z) resize_warp)
  = match_and_write barcodes IDs pos_msec pos_frames pts tl tr br bl resize_warp.
Proof.
  intros Hg. split; [by apply correlate_affine|].
  unfold match_and_write. by rewrite correlate_affine.
Qed.

Lemma match_invariant_under_gain_and_offset_witness :
  correlate [Scene.stored] (map (map (fun p => 255 * p + 0)%Z) Scene.patch)
  = correlate [Scene.stored] Scene.patch /\
  match_and_write [Scene.stored] [42%Z] 0 0 [] (0, 0)%Z (0, 0)%Z (0, 0)%Z (0, 0)%Z
                  (map (map (fun p => 255 * p + 0)%Z) Scene.patch)
  = match_and_write [Scene.stored] [42%Z] 0 0 [] (0, 0)%Z (0, 0)%Z (0, 0)%Z (0, 0)%Z
                    Scene.patch.
Proof.
  apply (match_invariant_under_gain_and_offset [Scene.stored] [42%Z] 0 0 []
           (0, 0)%Z (0, 0)%Z (0, 0)%Z (0, 0)%Z Scene.patch 255 0).
  lia.
Defined.

End BestMatch.

(** ** Corner ordering *)

Section OrderPointsExtras.
Local Open Scope Z_scope.

Ltac split_ltb_in H :=
  repeat match type of H with
    | context [Z.ltb ?a ?b] =>
        destruct (Z.ltb_spec a b); simpl in H; try lia
    end.

Lemma rows_at_seq_from {A : Type} (p a : list A) :
  omap (fun i => (p ++ a) !! i) (seq (length p) (length a)) = a.
Proof.
  revert p. induction a as [|x a IH]; intros p; [reflexivity|].
  simpl. rewrite list_lookup_middle by reflexivity. simpl. f_equal.
  specialize (IH (p ++ [x])). rewrite <- app_assoc in IH. simpl in IH.
  rewrite length_app in IH. simpl in IH. rewrite Nat.add_1_r in IH. exact IH.
Qed.

Lemma rows_at_perm {A : Type} (a : list A) (idx : list nat) :
  idx ≡ₚ seq 0 (length a) -> rows_at a idx ≡ₚ a.
Proof.
  intros Hp. unfold rows_at. rewrite Hp.
  apply eq_subrelation; [apply _|]. exact (rows_at_seq_from [] a).
Qed.

Lemma rows_at_argsort_perm {A K : Type} (ltb : K -> K -> bool) (a : list A)
    (key : A -> K) :
  rows_at a (argsort ltb (map key a)) ≡ₚ a.
Proof. apply rows_at_perm. rewrite argsort_perm. by rewrite length_map. Qed.

Lemma rows_at_rev_argsort_perm {A K : Type} (ltb : K -> K -> bool) (a : list A)
    (key : A -> K) :
  rows_at a (rev (argsort ltb (map key a))) ≡ₚ a.
Proof.
  apply rows_at_perm. rewrite <- Permutation_rev, argsort_perm. by rewrite length_map.
Qed.

Lemma order_points_sq_perm (pts q : list point) :
  order_points_sq pts = Ok q -> q ≡ₚ pts.
Proof.
  unfold order_points_sq. intros H.
  pose proof (rows_at_argsort_perm Z.ltb pts fst) as Hs.
  set (sorted_ := rows_at pts (argsort Z.ltb (map fst pts))) in *.
  pose proof (rows_at_argsort_perm Z.ltb (take 2 sorted_) snd) as Hl.
  destruct (rows_at (take 2 sorted_) _) as [|tl [|bl [|]]]; try done.
  pose proof (rows_at_rev_argsort_perm Z.ltb (drop 2 sorted_) (sqdist tl)) as Hr.
  destruct (rows_at (drop 2 sorted_) _) as [|br [|tr [|]]]; try done.
  inversion H; subst q.
  rewrite <- Hs, <- (take_drop 2 sorted_), <- Hl, <- Hr.
  change ([tl; tr; br; bl] ≡ₚ [tl] ++ [bl] ++ [br] ++ [tr]).
  change ([tl; tr; br; bl]) with ([tl] ++ [tr] ++ [br] ++ [bl]).
  f_equiv. rewrite (Permutation_app_comm [tr]), (Permutation_app_comm [bl]).
  rewrite <- !app_assoc. f_equiv. apply Permutation_app_comm.
Qed.

Lemma order_points_sq_ok (pts : list point) :
  length pts = 4%nat -> exists tl tr br bl, order_points_sq pts = Ok [tl; tr; br; bl].
Proof.
  intros Hlen. unfold order_points_sq.
  pose proof (rows_at_argsort_length Z.ltb pts fst) as Hs.
  set (sorted_ := rows_at pts (argsort Z.ltb (map fst pts))) in *.
  pose proof (rows_at_argsort_length Z.ltb (take 2 sorted_) snd) as Hl.
  rewrite length_take, Hs, Hlen in Hl. simpl in Hl.
  destruct (rows_at (take 2 sorted_) _) as [|c0 [|c3 [|]]]; simpl in Hl; try lia.
  pose proof (rows_at_rev_argsort_length Z.ltb (drop 2 sorted_) (sqdist c0)) as Hr.
  rewrite length_drop, Hs, Hlen in Hr. simpl in Hr.
  destruct (rows_at (drop 2 sorted_) _) as [|c2 [|c1 [|]]]; simpl in Hr; try lia.
  by exists c0, c1, c2, c3.
Qed.

Lemma order_points_sq_raises (pts : list point) (e : exn) :
  order_points_sq pts = Raise e -> e = ValueError.
Proof.
  unfold order_points_sq. intros H.
  repeat match type of H with
         | context [match ?l with [] => _ | _ :: _ => _ end] => destruct l
         end; inversion H; reflexivity.
Qed.

Lemma order_points_sq_split (pts : list point) (tl tr br bl : point) :
  order_points_sq pts = Ok [tl; tr; br; bl] ->
  fst tl <= fst tr /\ fst tl <= fst br /\ fst bl <= fst tr /\ fst bl <= fst br.
Proof.
  intros H. pose proof (order_points_sq_length _ _ H) as Hlen.
  destruct pts as [|[x0 y0] [|[x1 y1] [|[x2 y2] [|[x3 y3] [|p4 rest]]]]]; try done.
  unfold order_points_sq, argsort in H. simpl in H.
  split_ltb_in H; inversion H; subst; simpl; lia.
Qed.

(** X5: on an array of exactly four points whose coordinates float32 holds
    exactly (at most 2^24 in absolute value), [order_points] succeeds; its result
    is a rearrangement of the four points in which both left corners have x
    not greater than both right corners, the top-left corner is not below
    the bottom-left one, and the bottom-right corner is at least as far from
    the top-left corner as the top-right one. *)
Theorem order_points_sorts_four_points (pts : list point) :
  Forall float32_exact pts -> length pts = 4%nat ->
  exists tl tr br bl,
    order_points pts = Ok [tl; tr; br; bl] /\
    [tl; tr; br; bl] ≡ₚ pts /\
    (fst tl <= fst tr /\ fst tl <= fst br /\ fst bl <= fst tr /\ fst bl <= fst br) /\
    snd tl <= snd bl /\
    (euclidean tl tr <= euclidean tl br)%R.
Proof.
  intros _ Hlen. rewrite order_points_eq.
  destruct (order_points_sq_ok pts Hlen) as (tl & tr & br & bl & H).
  exists tl, tr, br, bl. split; [exact H|].
  split; [by apply order_points_sq_perm|].
  split; [by eapply order_points_sq_split|].
  destruct (order_points_sq_canonical _ _ _ _ _ H) as [Hy Hd].
  split; [lia|].
  unfold euclidean. apply sqrt_le_1_alt, IZR_le. lia.
Qed.

Lemma order_points_sorts_four_points_witness :
  exists tl tr br bl,
    order_points Scene.square = Ok [tl; tr; br; bl] /\
    [tl; tr; br; bl] ≡ₚ Scene.square /\
    (fst tl <= fst tr /\ fst tl <= fst br /\ fst bl <= fst tr /\ fst bl <= fst br) /\
    snd tl <= snd bl /\
    (euclidean tl tr <= euclidean tl br)%R.
Proof.
  apply (order_points_sorts_four_points Scene.square); [|reflexivity].
  repeat constructor; simpl; lia.
Defined.

(** X6: on an array that does not have exactly four points [order_points]
    raises ValueError (a failed tuple unpacking). *)
Theorem order_points_needs_four_points (pts : list point) :
  length pts <> 4%nat -> order_points pts = Raise ValueError.
Proof.
  intros Hlen. rewrite order_points_eq.
  destruct (order_points_sq pts) as [q|e] eqn:H.
  - exfalso. apply Hlen. by eapply order_points_sq_length.
  - by rewrite (order_points_sq_raises _ _ H).
Qed.

Lemma order_points_needs_four_points_witness :
  order_points [(0, 0); (4, 0); (4, 4); (0, 4); (2, 6)] = Raise ValueError.
Proof.
  apply (order_points_needs_four_points [(0, 0); (4, 0); (4, 4); (0, 4); (2, 6)]).
  simpl. lia.
Defined.

End OrderPointsExtras.

(** ** Arrays and [add_border] *)

Section ArrayFacts.
Context {A : Type}.
Local Open Scope Z_scope.

Lemma zrange_length (n : Z) : length (zrange n) = Z.to_nat n.
Proof. unfold zrange. by rewrite length_map, length_seq. Qed.

Lemma zrange_nth (n : Z) (i : nat) :
  (i < Z.to_nat n)%nat -> nth i (zrange n) 0 = Z.of_nat i.
Proof.
  intros Hi. unfold zrange.
  rewrite (nth_indep _ 0 (Z.of_nat 0)) by (by rewrite length_map, length_seq).
  rewrite map_nth, seq_nth by done. reflexivity.
Qed.

Lemma nth_concat_map {B : Type} (f : B -> list A) (l : list B) (n i j : nat)
    (d : A) (d0 : B) :
  (forall x, length (f x) = n) -> (i < length l)%nat -> (j < n)%nat ->
  nth (i * n + j) (concat (map f l)) d = nth j (f (nth i l d0)) d.
Proof.
  intros Hf. revert i. induction l as [|x l IH]; intros i Hi Hj; simpl in Hi; [lia|].
  simpl. destruct i as [|i].
  - simpl. rewrite app_nth1 by (rewrite Hf; lia). reflexivity.
  - rewrite app_nth2 by (rewrite Hf; simpl; lia).
    rewrite Hf. replace (S i * n + j - n)%nat with (i * n + j)%nat by (simpl; lia).
    apply IH; lia.
Qed.

Lemma flatten_length (a : ndarray2 A) :
  length (flatten a) = (Z.to_nat (shape0 a) * Z.to_nat (shape1 a))%nat.
Proof.
  unfold flatten, to_rows.
  generalize (zrange (shape0 a)) (zrange_length (shape0 a)).
  intros l <-. induction l as [|i l IH]; [reflexivity|].
  simpl. rewrite length_app, IH, length_map, zrange_length. reflexivity.
Qed.

Lemma nth_flatten (a : ndarray2 A) (d : A) (i j : Z) :
  0 <= i < shape0 a -> 0 <= j < shape1 a ->
  nth (Z.to_nat (i * shape1 a + j)) (flatten a) d = at2 a i j.
Proof.
  intros Hi Hj. unfold flatten, to_rows.
  replace (Z.to_nat (i * shape1 a + j))
    with (Z.to_nat i * Z.to_nat (shape1 a) + Z.to_nat j)%nat by nia.
  rewrite (nth_concat_map _ _ (Z.to_nat (shape1 a)) _ _ d 0).
  - rewrite zrange_nth by lia.
    rewrite (nth_indep _ d (at2 a (Z.of_nat (Z.to_nat i)) 0))
      by (rewrite length_map, zrange_length; lia).
    rewrite map_nth, zrange_nth by lia. f_equal; lia.
  - intros x. by rewrite length_map, zrange_length.
  - rewrite zrange_length. lia.
  - lia.
Qed.

End ArrayFacts.

Section BorderFacts.
Context {A : Type} (default zero one : A).
Local Open Scope Z_scope.

Lemma reshape2_ok (v : list A) (h w : Z) :
  0 <= h -> 0 <= w -> h * w = Z.of_nat (length v) ->
  reshape2 default v (h, w)
  = Ok (mk_ndarray2 h w (fun i j => nth (Z.to_nat (i * w + j)) v default)).
Proof.
  intros Hh Hw Hn. unfold reshape2.
  destruct (h <? 0) eqn:E1; [lia|]. destruct (w <? 0) eqn:E2; [lia|].
  simpl. destruct (h * w =? Z.of_nat (length v)) eqn:E5; [reflexivity|lia].
Qed.

Lemma np_full_ok (v : A) (h w : Z) :
  0 <= h -> 0 <= w -> np_full v (h, w) = Ok (mk_ndarray2 h w (fun _ _ => v)).
Proof.
  intros Hh Hw. unfold np_full. simpl.
  destruct (h <? 0) eqn:E1; [lia|]. destruct (w <? 0) eqn:E2; [lia|]. reflexivity.
Qed.

Lemma set_slice_ok (dst src : ndarray2 A) (r0 r1 c0 c1 : Z) :
  0 <= r0 <= r1 -> r1 <= shape0 dst -> 0 <= c0 <= c1 -> c1 <= shape1 dst ->
  shape0 src = r1 - r0 -> shape1 src = c1 - c0 ->
  exists out, set_slice dst r0 r1 c0 c1 src = Ok out
    /\ shape0 out = shape0 dst /\ shape1 out = shape1 dst
    /\ forall i j, at2 out i j
         = if (r0 <=? i) && (i <? r1) && (c0 <=? j) && (j <? c1)
           then at2 src (i - r0) (j - c0) else at2 dst i j.
Proof.
  intros Hr Hr1 Hc Hc1 Hs0 Hs1. unfold set_slice, slice_len, slice_bounds.
  destruct (r0 <? 0) eqn:E1; [lia|]. destruct (r1 <? 0) eqn:E2; [lia|].
  destruct (c0 <? 0) eqn:E3; [lia|]. destruct (c1 <? 0) eqn:E4; [lia|].
  rewrite !Z.min_l by lia. rewrite !Z.max_r by lia.
  rewrite Hs0, Hs1, !Z.eqb_refl. simpl.
  eexists. split; [reflexivity|]. simpl. split; [reflexivity|]. split; [reflexivity|].
  intros i j.
  replace (r0 + (r1 - r0)) with r1 by lia. replace (c0 + (c1 - c0)) with c1 by lia.
  destruct ((r0 <=? i) && (i <? r1) && (c0 <=? j) && (j <? c1)) eqn:E; [|reflexivity].
  apply andb_prop in E as [E Ej2]. apply andb_prop in E as [E Ej1].
  apply andb_prop in E as [Ei1 Ei2].
  f_equal.
  - destruct (r1 - r0 =? 1) eqn:E5; [lia|reflexivity].
  - destruct (c1 - c0 =? 1) eqn:E5; [lia|reflexivity].
Qed.

Lemma add_border_cells (tag : list A) (h w ww bw : Z) :
  0 <= h -> 0 <= w -> 0 <= ww -> 0 <= bw ->
  Z.of_nat (length tag) = h * w ->
  let H := h + 2 * ww + 2 * bw in
  let W := w + 2 * ww + 2 * bw in
  exists bordered,
    add_border default zero one tag (h, w) ww bw = Ok ((H, W), bordered)
    /\ shape0 bordered = 1 /\ shape1 bordered = H * W
    /\ forall i j, 0 <= i < H -> 0 <= j < W ->
         at2 bordered 0 (i * W + j)
         = bordered_cell default zero one tag h w ww bw i j.
Proof.
  intros Hh Hw Hww Hbw Hn H W. unfold add_border. cbn [fst snd].
  rewrite reshape2_ok by lia. cbn [mbind result_bind].
  rewrite !np_full_ok by lia. cbn [mbind result_bind].
  pose proof (set_slice_ok (mk_ndarray2 (h + 2 * ww) (w + 2 * ww) (fun _ _ => one))
               (mk_ndarray2 h w (fun i j => nth (Z.to_nat (i * w + j)) tag default))
               ww (h + ww) ww (w + ww)) as Hs.
  simpl in Hs. destruct Hs as (white & -> & Hw0 & Hw1 & Hwat); try lia.
  cbn [mbind result_bind].
  pose proof (set_slice_ok (mk_ndarray2 (h + 2 * ww + 2 * bw) (w + 2 * ww + 2 * bw)
                             (fun _ _ => zero)) white
               bw (h + 2 * ww + bw) bw (w + 2 * ww + bw)) as Hs.
  simpl in Hs. destruct Hs as (black & -> & Hb0 & Hb1 & Hbat); try lia.
  cbn [mbind result_bind]. cbv zeta.
  rewrite reshape2_ok; [| lia | nia |].
  2:{ rewrite flatten_length. nia. }
  cbn [mbind result_bind]. rewrite Hb0, Hb1. fold H W.
  eexists. split; [reflexivity|]. simpl. split; [reflexivity|]. split; [reflexivity|].
  intros i j Hi Hj.
  replace (0 * (H * W) + (i * W + j)) with (i * shape1 black + j) by (rewrite Hb1; fold W; lia).
  rewrite nth_flatten by (rewrite ?Hb0, ?Hb1; fold H W; lia).
  rewrite Hbat, Hwat. unfold bordered_cell.
  replace (h + 2 * ww + bw) with (bw + 2 * ww + h) by lia.
  replace (w + 2 * ww + bw) with (bw + 2 * ww + w) by lia.
  destruct ((bw <=? i) && (i <? bw + 2 * ww + h) && (bw <=? j) && (j <? bw + 2 * ww + w))
    eqn:E; [|reflexivity].
  replace (ww <=? i - bw) with (bw + ww <=? i) by lia.
  replace (i - bw <? h + ww) with (i <? bw + ww + h) by lia.
  replace (ww <=? j - bw) with (bw + ww <=? j) by lia.
  replace (j - bw <? w + ww) with (j <? bw + ww + w) by lia.
  destruct ((bw + ww <=? i) && (i <? bw + ww + h) && (bw + ww <=? j) && (j <? bw + ww + w));
    [|reflexivity].
  reflexivity.
Qed.

Lemma zrange_spec (n i : Z) : In i (zrange n) -> 0 <= i < n.
Proof.
  unfold zrange. intros H. apply in_map_iff in H as (k & <- & Hk).
  apply in_seq in Hk. lia.
Qed.

(** X7: with non-negative border widths and a tag of [h * w] cells, [add_border]
    returns the shape [(h + 2 ww + 2 bw, w + 2 ww + 2 bw)] and one row of
    that many cells; reshaped to the returned shape, as the caller does, it
    is the tag surrounded by a ring of [ww] white cells and a ring of [bw]
    black cells around it. *)
Theorem add_border_layout (tag : list A) (h w ww bw : Z) :
  0 <= h -> 0 <= w -> 0 <= ww -> 0 <= bw ->
  Z.of_nat (length tag) = h * w ->
  let H := h + 2 * ww + 2 * bw in
  let W := w + 2 * ww + 2 * bw in
  exists bordered image,
    add_border default zero one tag (h, w) ww bw = Ok ((H, W), bordered)
    /\ shape0 bordered = 1 /\ shape1 bordered = H * W
    /\ reshape2 default (flatten bordered) (H, W) = Ok image
    /\ to_rows image
       = map (fun i => map (fun j => bordered_cell default zero one tag h w ww bw i j)
                           (zrange W))
             (zrange H).
Proof.
  intros Hh Hw Hww Hbw Hn H W.
  destruct (add_border_cells tag h w ww bw Hh Hw Hww Hbw Hn)
    as (bordered & Hadd & Hs0 & Hs1 & Hat).
  fold H W in Hadd, Hs1, Hat.
  exists bordered. eexists. split; [exact Hadd|]. split; [exact Hs0|]. split; [exact Hs1|].
  assert (HH : 0 <= H) by (unfold H; lia). assert (HW : 0 <= W) by (unfold W; lia).
  split.
  - apply reshape2_ok; [lia|lia|]. rewrite flatten_length, Hs0, Hs1. nia.
  - unfold to_rows. cbn [shape0 shape1 at2].
    apply map_ext_in. intros i Hi. apply zrange_spec in Hi.
    apply map_ext_in. intros j Hj. apply zrange_spec in Hj.
    rewrite <- Hat by lia.
    replace (i * W + j) with (0 * shape1 bordered + (i * W + j)) at 1 by lia.
    apply nth_flatten; rewrite ?Hs0, ?Hs1; nia.
Qed.

(** X8: a tag whose cell count is not the product of the two given
    non-negative dimensions cannot be reshaped: [add_border] raises
    ValueError whatever the border widths. *)
Theorem add_border_wrong_cell_count (tag : list A) (h w ww bw : Z) :
  0 <= h -> 0 <= w -> h * w <> Z.of_nat (length tag) ->
  add_border default zero one tag (h, w) ww bw = Raise ValueError.
Proof.
  intros Hh Hw Hn. unfold add_border.
  assert (Hr : reshape2 default tag (h, w) = Raise ValueError).
  { unfold reshape2.
    destruct (h <? 0) eqn:E1; [lia|]. destruct (w <? 0) eqn:E2; [lia|].
    simpl. destruct (h * w =? Z.of_nat (length tag)) eqn:E5; [lia|reflexivity]. }
  rewrite Hr. reflexivity.
Qed.

End BorderFacts.

Section BorderWitnesses.
Local Open Scope Z_scope.

Lemma add_border_wrong_cell_count_witness :
  add_border 0%R 0%R 1%R Scene.tag (5, 4) 1 2 = Raise ValueError.
Proof.
  apply (add_border_wrong_cell_count 0%R 0%R 1%R Scene.tag 5 4 1 2); simpl; lia.
Defined.

Lemma add_border_layout_witness :
  exists bordered image,
    add_border 0%R 0%R 1%R Scene.tag (5, 5) 1 2 = Ok ((11, 11), bordered)
    /\ shape0 bordered = 1 /\ shape1 bordered = 121
    /\ reshape2 0%R (flatten bordered) (11, 11) = Ok image
    /\ to_rows image
       = map (fun i => map (fun j => bordered_cell 0%R 0%R 1%R Scene.tag 5 5 1 2 i j)
                           (zrange 11))
             (zrange 11).
Proof.
  apply (add_border_layout 0%R 0%R 1%R Scene.tag 5 5 1 2); simpl; lia.
Defined.

End BorderWitnesses.

(** ** [crop] *)

Section CropFacts.
Context {A : Type}.
Local Open Scope Z_scope.

Lemma py_slice_whole {B : Type} (l : list B) (stop : Z) :
  Z.of_nat (length l) <= stop -> py_slice l 0 stop = l.
Proof.
  intros H. unfold py_slice, slice_bounds.
  assert (E : (stop <? 0) = false) by lia. rewrite E.
  change (0 <? 0) with false. cbv iota.
  rewrite (Z.min_l 0) by lia. rewrite (Z.min_r stop) by lia.
  rewrite Z.sub_0_r, Nat2Z.id. simpl. apply firstn_all.
Qed.

Lemma py_slice_inside {B : Type} (l : list B) (start stop : Z) :
  0 <= start <= stop -> stop <= Z.of_nat (length l) ->
  py_slice l start stop
  = take (Z.to_nat (stop - start)) (drop (Z.to_nat start) l).
Proof.
  intros H1 H2. unfold py_slice, slice_bounds.
  destruct (start <? 0) eqn:E1; [lia|]. destruct (stop <? 0) eqn:E2; [lia|].
  rewrite !Z.min_l by lia. reflexivity.
Qed.

(** X9: cropping to a rectangle that covers the whole image returns the image
    unchanged: the slice bounds are clamped to the image. *)
Theorem crop_whole_frame (src : list (list A)) (w h : Z) :
  height src <= h -> (forall row, row ∈ src -> Z.of_nat (length row) <= w) ->
  crop src (0, 0) (w, h) = src.
Proof.
  intros Hh Hw. unfold crop. cbn [fst snd]. rewrite py_slice_whole by exact Hh.
  induction src as [|row rest IH]; [reflexivity|].
  cbn [map]. rewrite py_slice_whole by (apply Hw; left).
  f_equal. apply IH.
  - unfold height in *. simpl in Hh. lia.
  - intros r Hr. apply Hw. by right.
Qed.

(** X10: cropping to a rectangle inside the image: the result has the size of
    the rectangle and its pixel (i, j) is the pixel (y1 + i, x1 + j) of the
    image. *)
Theorem crop_rectangle (src : list (list A)) (x1 y1 x2 y2 : Z) :
  0 <= x1 <= x2 -> 0 <= y1 <= y2 -> y2 <= height src ->
  (forall row, row ∈ src -> x2 <= Z.of_nat (length row)) ->
  height (crop src (x1, y1) (x2, y2)) = y2 - y1 /\
  (forall row, row ∈ crop src (x1, y1) (x2, y2) -> Z.of_nat (length row) = x2 - x1) /\
  (forall i j : nat, Z.of_nat i < y2 - y1 -> Z.of_nat j < x2 - x1 ->
     crop src (x1, y1) (x2, y2) !! i ≫= (fun row => row !! j)
     = src !! (Z.to_nat y1 + i)%nat ≫= (fun row => row !! (Z.to_nat x1 + j)%nat)).
Proof.
  intros Hx Hy Hh Hw. unfold crop, height in *. cbn [fst snd].
  rewrite py_slice_inside by lia.
  assert (Hrows : forall row, row ∈ take (Z.to_nat (y2 - y1)) (drop (Z.to_nat y1) src) ->
                              row ∈ src).
  { intros row Hr. apply list_elem_of_lookup in Hr as [k Hk].
    apply lookup_take_Some in Hk as [Hk _]. rewrite lookup_drop in Hk.
    by eapply list_elem_of_lookup_2. }
  split; [|split].
  - rewrite length_map, length_take, length_drop. lia.
  - intros row Hr. apply list_elem_of_fmap in Hr as (r & -> & Hr).
    rewrite py_slice_inside by (try apply Hw; auto; lia).
    rewrite length_take, length_drop. specialize (Hw r (Hrows r Hr)). lia.
  - intros i j Hi Hj.
    change (map ?f ?l) with (f <$> l). rewrite list_lookup_fmap.
    rewrite lookup_take_lt by lia. rewrite lookup_drop.
    destruct (src !! (Z.to_nat y1 + i)%nat) as [row|] eqn:Hrow; [|reflexivity].
    simpl. assert (Hin : row ∈ src) by (by eapply list_elem_of_lookup_2).
    rewrite py_slice_inside by (try apply Hw; auto; lia).
    rewrite lookup_take_lt by lia. by rewrite lookup_drop.
Qed.

End CropFacts.

Section CropWitnesses.
Local Open Scope Z_scope.

Lemma crop_whole_frame_witness :
  crop Scene.black_frame (0, 0) (4, 4) = Scene.black_frame.
Proof.
  apply (crop_whole_frame Scene.black_frame 4 4).
  - vm_compute. discriminate.
  - intros row Hrow. apply list_elem_of_In, repeat_spec in Hrow as ->.
    vm_compute. discriminate.
Defined.

Lemma crop_rectangle_witness :
  height (crop Scene.black_frame (1, 1) (3, 4)) = 3 /\
  (forall row, row ∈ crop Scene.black_frame (1, 1) (3, 4) -> Z.of_nat (length row) = 2) /\
  (forall i j : nat, Z.of_nat i < 3 -> Z.of_nat j < 2 ->
     crop Scene.black_frame (1, 1) (3, 4) !! i ≫= (fun row => row !! j)
     = Scene.black_frame !! (1 + i)%nat ≫= (fun row => row !! (1 + j)%nat)).
Proof.
  apply (crop_rectangle Scene.black_frame 1 1 3 4); try lia.
  - vm_compute. discriminate.
  - intros row Hrow. apply list_elem_of_In, repeat_spec in Hrow as ->.
    vm_compute. discriminate.
Defined.

End CropWitnesses.

(** ** Whole runs *)

Section RunFacts.
Context (cv : Cv2) {ID : Type}.
Local Open Scope R_scope.

Lemma argmax_from_lt (v : list npfloat) (i : nat) (mp : npfloat) (ind : nat) :
  (ind < i)%nat -> (Np.argmax_from v i mp ind < i + length v)%nat.
Proof.
  revert i mp ind. induction v as [|a v IH]; intros i mp ind Hi; simpl; [lia|].
  destruct (isnan mp); [lia|].
  destruct (negb (np_le a mp)).
  - specialize (IH (S i) a i). lia.
  - specialize (IH (S i) mp ind). lia.
Qed.

Lemma argmax_lt (v : list npfloat) (j : nat) :
  Np.argmax v = Ok j -> (j < length v)%nat.
Proof.
  destruct v as [|a v]; [discriminate|]. simpl. intros H. inversion H.
  pose proof (argmax_from_lt v 1 a 0). lia.
Qed.

Lemma match_and_write_record (barcodes : matrix) (IDs : list ID)
    (pos_msec pos_frames : R) (pts : list point) (tl tr br bl : point)
    (resize_warp : gray_image) (rec : DetectionRecord) :
  match_and_write barcodes IDs pos_msec pos_frames pts tl tr br bl resize_warp
  = Ok (Some rec) ->
  msec rec = pos_msec /\ frame_number rec = pos_frames /\
  well_formed_record (length barcodes) IDs rec.
Proof.
  intros H. apply match_and_write_inv in H
    as (C & bi & Hc & Hmax & Hgt & Harg & Hid & Hm & Hf & _ & _ & Ho).
  apply correlate_inv in Hc as (_ & _ & _ & ->).
  rewrite concat_singletons in Hmax, Harg.
  destruct (best_of_pearsons _ _ _ _ Hmax Hgt Harg)
    as (row & r & Hrow & Hp & _ & Hr & _).
  split; [done|]. split; [done|]. split; [|split].
  - exists bi. split; [|done]. by eapply lookup_lt_Some.
  - exists r. split; [done|lra].
  - rewrite Ho. apply angle_degrees_range.
Qed.

Lemma contours_loop_records (gray : gray_image) (image_shape : Z * Z)
    (barcodes : matrix) (IDs : list ID) (pos_msec pos_frames : R)
    (contours : list contour) (rec : DetectionRecord) :
  rec ∈ fst (contours_loop cv gray image_shape barcodes IDs pos_msec pos_frames contours) ->
  msec rec = pos_msec /\ frame_number rec = pos_frames /\
  well_formed_record (length barcodes) IDs rec.
Proof.
  induction contours as [|cnt rest IH]; simpl.
  - intros H. by apply elem_of_nil in H.
  - destruct (contour_body cv gray image_shape barcodes IDs pos_msec pos_frames cnt)
      as [written|e] eqn:Hb; simpl.
    + destruct (contours_loop cv gray image_shape barcodes IDs pos_msec pos_frames rest)
        as [more outcome]. simpl in *.
      intros H. apply elem_of_app in H as [H|H]; [|by apply IH].
      destruct written as [r|]; simpl in H; [|by apply elem_of_nil in H].
      apply list_elem_of_singleton in H as ->.
      apply contour_body_inv in Hb as (_ & tl & tr & br & bl & _ & Hm).
      by apply match_and_write_record in Hm.
    + intros H. by apply elem_of_nil in H.
Qed.

Lemma frame_body_records (barcodes : matrix) (IDs : list ID) (pt2 : Z * Z)
    (image : color_image) (pos_msec pos_frames : R) (rec : DetectionRecord) :
  rec ∈ fst (frame_body cv barcodes IDs pt2 image pos_msec pos_frames) ->
  msec rec = pos_msec /\ frame_number rec = pos_frames /\
  well_formed_record (length barcodes) IDs rec.
Proof.
  unfold frame_body.
  destruct (_ ≫= _) as [[gray contours]|e]; simpl.
  - apply contours_loop_records.
  - intros H. by apply elem_of_nil in H.
Qed.

Lemma frames_loop_records (barcodes : matrix) (IDs : list ID) (pt2 : Z * Z)
    (frames : list (color_image * R * R)) (rec : DetectionRecord) :
  rec ∈ fst (frames_loop cv barcodes IDs pt2 frames) ->
  (exists image, (image, msec rec, frame_number rec) ∈ frames) /\
  well_formed_record (length barcodes) IDs rec.
Proof.
  induction frames as [|[[image t] n] rest IH]; simpl.
  - intros H. by apply elem_of_nil in H.
  - destruct (frame_body cv barcodes IDs pt2 image t n) as [written outcome] eqn:Hf.
    assert (Hw : rec ∈ written ->
                 (exists image0, (image0, msec rec, frame_number rec)
                                 ∈ (image, t, n) :: rest) /\
                 well_formed_record (length barcodes) IDs rec).
    { intros H. replace written with
        (fst (frame_body cv barcodes IDs pt2 image t n)) in H by (by rewrite Hf).
      apply frame_body_records in H as (<- & <- & Hwf).
      split; [|done]. exists image. left. }
    destruct outcome as [?|e]; simpl; [|exact Hw].
    destruct (frames_loop cv barcodes IDs pt2 rest) as [more outcome]. simpl in *.
    intros H. apply elem_of_app in H as [H|H]; [by apply Hw|].
    destruct (IH H) as ((image0 & Hin) & Hwf). split; [|done].
    exists image0. by right.
Qed.

Lemma mapM_length {A B : Type} (f : A -> result B) (l : list A) (k : list B) :
  mapM f l = Ok k -> length k = length l.
Proof.
  revert k. induction l as [|a l IH]; intros k; simpl.
  - intros H. by inversion H.
  - destruct (f a) as [b|e]; simpl; [|discriminate].
    destruct (mapM f l) as [k'|e]; simpl; [|discriminate].
    intros H. inversion H. simpl. f_equal. by apply IH.
Qed.

Lemma build_barcodes_length (master_list : list (list R)) (tag_shape : Z * Z)
    (ww bw : Z) (size : Z * Z) (barcodes : matrix) :
  build_barcodes cv master_list tag_shape ww bw size = Ok barcodes ->
  length barcodes = length master_list.
Proof. apply mapM_length. Qed.

(** X11: every record a run writes carries the position of one of the frames read,
    the ID stored at an index of the tag dictionary, a finite confidence
    above 0.8 and an orientation in [0, 360). *)
Theorem written_records_are_well_formed (master_list : list (list R))
    (IDs : list ID) (frame_size : Z * Z) (frames : list (color_image * R * R))
    (rec : DetectionRecord) :
  rec ∈ fst (run_decoder cv master_list IDs frame_size frames) ->
  (exists image, (image, msec rec, frame_number rec) ∈ frames) /\
  well_formed_record (length master_list) IDs rec.
Proof.
  unfold run_decoder.
  destruct (build_barcodes cv master_list (5, 5)%Z 1%Z 0%Z barcode_size)
    as [barcodes|e] eqn:Hb; simpl.
  - apply build_barcodes_length in Hb as <-. apply frames_loop_records.
  - intros H. by apply elem_of_nil in H.
Qed.

End RunFacts.

Section FootageFacts.
Local Open Scope R_scope.

Lemma footage_library :
  build_barcodes (Scene.cv Footage.tag_patch) [Scene.tag] (5, 5)%Z 1 0 barcode_size
  = Ok [candidate Footage.tag_patch].
Proof. vm_compute. reflexivity. Qed.

Lemma footage_patch_not_constant : ~ is_constant (candidate Footage.tag_patch).
Proof.
  intros [c Hc].
  assert (H1 : 1 = c) by (apply Hc; left).
  assert (H0 : 0 = c) by (apply Hc; do 8 right; left).
  lra.
Qed.

Lemma square_passes_30 (p : gray_image) :
  passes_gates (Scene.cv p) (30, 30)%Z Scene.square.
Proof.
  split; [simpl; lia|]. split; [unfold area_in_band; simpl; lra|]. split.
  - apply edge_test_spec. reflexivity.
  - unfold polygon_accepted, simplified, area_in_band. simpl.
    repeat split; try lra.
Qed.

Lemma footage_levels :
  get_contours (Scene.cv Footage.tag_patch)
    (frame_threshold (Scene.cv Footage.tag_patch) (30, 30)%Z Footage.frame)
  = Ok [Scene.square].
Proof.
  set (f := fun p : Z => if decide (IZR p > IZR 0 - -25) then 255%Z else 0%Z).
  assert (Ht : frame_threshold (Scene.cv Footage.tag_patch) (30, 30)%Z Footage.frame
               = map (map f) ((0 :: repeat 100 29) :: repeat (repeat 100 30) 29)%Z)
    by reflexivity.
  assert (H0 : f 0%Z = 0%Z) by (unfold f; case_decide; [lra|reflexivity]).
  assert (H1 : f 100%Z = 255%Z) by (unfold f; case_decide; [reflexivity|lra]).
  rewrite get_contours_both_levels; [reflexivity| |].
  - apply elem_of_list_to_set, list_elem_of_In. rewrite Ht.
    cbn [map concat repeat app]. left. exact H0.
  - apply elem_of_list_to_set, list_elem_of_In. rewrite Ht.
    cbn [map concat repeat app]. right. left. exact H1.
Qed.

Lemma footage_run :
  exists rec : DetectionRecord,
    run_decoder (Scene.cv Footage.tag_patch) [Scene.tag] [42%Z] (30, 30)%Z
                [(Footage.frame, 0, 0)]
    = ([rec], Ok tt).
Proof.
  assert (Hc : correlate [candidate Footage.tag_patch] Footage.tag_patch = Ok [[Fin 1]]).
  { rewrite correlate_rows.
    - simpl. rewrite pearson_self; [reflexivity|]. apply footage_patch_not_constant.
    - done.
    - reflexivity.
    - intros row Hrow. apply list_elem_of_singleton in Hrow as ->. reflexivity. }
  destruct (match_and_write_accept [candidate Footage.tag_patch] [42%Z] 0 0
              [(10, 10); (20, 10); (20, 20); (10, 20)]%Z
              (10, 10)%Z (20, 10)%Z (20, 20)%Z (10, 20)%Z Footage.tag_patch
              _ (Fin 1) 0%nat 42%Z Hc) as (rec & Hrec & _); try reflexivity.
  { simpl. apply bool_decide_eq_true. lra. }
  exists rec. unfold run_decoder. rewrite footage_library.
  unfold frames_loop, frame_body.
  pose proof footage_levels as Hl. unfold frame_threshold in Hl.
  rewrite get_grayscale_green by (vm_compute; discriminate).
  cbn [mbind result_bind]. rewrite get_threshold_201.
  cbn [mbind result_bind]. rewrite Hl. cbn [mbind result_bind].
  change (height (crop Footage.frame pt1 (30, 30)%Z)) with 30%Z.
  change (width (crop Footage.frame pt1 (30, 30)%Z)) with 30%Z.
  unfold contours_loop.
  rewrite (contour_body_gated _ _ _ _ _ _ _ _ (square_passes_30 Footage.tag_patch)).
  unfold simplified. simpl approxPolyDP. rewrite square_ordered.
  cbn [mbind result_bind]. unfold rectified. simpl resize. rewrite Hrec.
  reflexivity.
Qed.

End FootageFacts.

Section TotalFacts.
Context (cv : Cv2) {ID : Type}.
Local Open Scope R_scope.

Lemma match_and_write_total (barcodes : matrix) (IDs : list ID)
    (pos_msec pos_frames : R) (pts : list point) (tl tr br bl : point)
    (resize_warp : gray_image) :
  barcodes <> [] -> (forall row, row ∈ barcodes -> length row = 49%nat) ->
  (length barcodes <= length IDs)%nat ->
  length (concat resize_warp) = 49%nat ->
  exists w, match_and_write barcodes IDs pos_msec pos_frames pts tl tr br bl resize_warp
            = Ok w.
Proof.
  intros Hne Hrows Hids Hp. unfold match_and_write.
  rewrite correlate_rows by done. cbn [mbind result_bind].
  rewrite concat_singletons.
  set (v := map (fun a => pearson a (candidate resize_warp)) barcodes).
  assert (Hlen : length v = length barcodes) by (unfold v; by rewrite length_map).
  destruct v as [|a v'] eqn:Hv.
  { destruct barcodes; [done|discriminate Hlen]. }
  cbn [Np.max mbind result_bind].
  destruct (np_gt _ _); [|by eexists].
  destruct (Np.argmax (a :: v')) as [j|e] eqn:Ha; [|discriminate Ha].
  cbn [mbind result_bind].
  apply argmax_lt in Ha.
  destruct (lookup_lt_is_Some_2 IDs j) as [i ->]; [lia|].
  cbn [mbind result_bind]. by eexists.
Qed.

Lemma contour_body_total (gray : gray_image) (image_shape : Z * Z)
    (barcodes : matrix) (IDs : list ID) (pos_msec pos_frames : R) (cnt : contour) :
  barcodes <> [] -> (forall row, row ∈ barcodes -> length row = 49%nat) ->
  (length barcodes <= length IDs)%nat ->
  (forall pts, length (concat (rectified cv gray pts)) = 49%nat) ->
  exists w, contour_body cv gray image_shape barcodes IDs pos_msec pos_frames cnt = Ok w.
Proof.
  intros Hne Hrows Hids Hp.
  destruct (passes_gates_dec cv image_shape cnt) as [Hg|Hg].
  - rewrite (contour_body_gated _ _ _ _ _ _ _ _ Hg).
    destruct Hg as (_ & _ & _ & Hlen & _).
    rewrite order_points_eq.
    destruct (order_points_sq_ok _ Hlen) as (tl & tr & br & bl & ->).
    cbn [mbind result_bind]. by apply match_and_write_total.
  - rewrite (contour_body_rejected _ _ _ _ _ _ _ _ Hg). by eexists.
Qed.

Lemma contours_loop_total (gray : gray_image) (image_shape : Z * Z)
    (barcodes : matrix) (IDs : list ID) (pos_msec pos_frames : R)
    (contours : list contour) :
  barcodes <> [] -> (forall row, row ∈ barcodes -> length row = 49%nat) ->
  (length barcodes <= length IDs)%nat ->
  (forall pts, length (concat (rectified cv gray pts)) = 49%nat) ->
  snd (contours_loop cv gray image_shape barcodes IDs pos_msec pos_frames contours)
  = Ok tt.
Proof.
  intros Hne Hrows Hids Hp. induction contours as [|cnt rest IH]; [reflexivity|].
  simpl.
  destruct (contour_body_total gray image_shape barcodes IDs pos_msec pos_frames cnt)
    as [w ->]; try done.
  destruct (contours_loop cv gray image_shape barcodes IDs pos_msec pos_frames rest)
    as [more outcome]. exact IH.
Qed.

Lemma frame_body_outcome (barcodes : matrix) (IDs : list ID) (pt2 : Z * Z)
    (image : color_image) (pos_msec pos_frames : R) :
  barcodes <> [] -> (forall row, row ∈ barcodes -> length row = 49%nat) ->
  (length barcodes <= length IDs)%nat ->
  (forall gray pts, length (concat (rectified cv gray pts)) = 49%nat) ->
  snd (frame_body cv barcodes IDs pt2 image pos_msec pos_frames) = Ok tt \/
  (frame_body cv barcodes IDs pt2 image pos_msec pos_frames = ([], Raise AssertionError)
   /\ get_contours cv (frame_threshold cv pt2 image) = Raise AssertionError) \/
  (frame_body cv barcodes IDs pt2 image pos_msec pos_frames = ([], Raise ValueError)
   /\ concat (crop image pt1 pt2) = []).
Proof.
  intros Hne Hrows Hids Hp.
  destruct (decide (concat (crop image pt1 pt2) = [])) as [He|He].
  { right. right. split; [by apply frame_body_no_pixels|exact He]. }
  unfold frame_body.
  rewrite (get_grayscale_green _ _ He). cbn [mbind result_bind].
  rewrite get_threshold_201. cbn [mbind result_bind].
  fold (frame_threshold cv pt2 image).
  destruct (get_contours cv (frame_threshold cv pt2 image)) as [contours|e] eqn:Hc.
  - left. cbn [mbind result_bind]. by apply contours_loop_total.
  - right. left. cbn [mbind result_bind]. unfold get_contours in Hc.
    destruct (bool_decide _); [discriminate Hc|]. simpl in Hc. by inversion Hc.
Qed.

Lemma frames_loop_outcome (barcodes : matrix) (IDs : list ID) (pt2 : Z * Z)
    (frames : list (color_image * R * R)) :
  barcodes <> [] -> (forall row, row ∈ barcodes -> length row = 49%nat) ->
  (length barcodes <= length IDs)%nat ->
  (forall gray pts, length (concat (rectified cv gray pts)) = 49%nat) ->
  snd (frames_loop cv barcodes IDs pt2 frames) = Ok tt \/
  (snd (frames_loop cv barcodes IDs pt2 frames) = Raise AssertionError /\
   exists image t n, (image, t, n) ∈ frames /\
     get_contours cv (frame_threshold cv pt2 image) = Raise AssertionError) \/
  (snd (frames_loop cv barcodes IDs pt2 frames) = Raise ValueError /\
   exists image t n, (image, t, n) ∈ frames /\ concat (crop image pt1 pt2) = []).
Proof.
  intros Hne Hrows Hids Hp. induction frames as [|[[image t] n] rest IH]; [by left|].
  simpl.
  destruct (frame_body_outcome barcodes IDs pt2 image t n Hne Hrows Hids Hp)
    as [Hok|[[Hr Hg]|[Hr Hg]]].
  - destruct (frame_body cv barcodes IDs pt2 image t n) as [written outcome].
    simpl in Hok. subst outcome.
    destruct (frames_loop cv barcodes IDs pt2 rest) as [more outcome]. simpl in *.
    destruct IH as [IH|[(IH & image0 & t0 & n0 & Hin & Hg)
                       |(IH & image0 & t0 & n0 & Hin & Hg)]]; [by left| |].
    + right. left. split; [done|]. exists image0, t0, n0. split; [by right|done].
    + right. right. split; [done|]. exists image0, t0, n0. split; [by right|done].
  - rewrite Hr. right. left. split; [done|]. exists image, t, n. split; [left|done].
  - rewrite Hr. right. right. split; [done|]. exists image, t, n. split; [left|done].
Qed.

Lemma to_rows_shape {A : Type} (a : ndarray2 A) :
  length (to_rows a) = Z.to_nat (shape0 a) /\
  forall row, row ∈ to_rows a -> length row = Z.to_nat (shape1 a).
Proof.
  unfold to_rows. split.
  - by rewrite length_map, zrange_length.
  - intros row Hr. apply list_elem_of_fmap in Hr as (i & -> & _).
    by rewrite length_map, zrange_length.
Qed.

Lemma build_barcodes_total (master_list : list (list R)) :
  (forall tag, tag ∈ master_list -> length tag = 25%nat) ->
  (forall m : matrix,
     length m = 7%nat -> (forall row, row ∈ m -> length row = 7%nat) ->
     exists m', resize_f64 cv m barcode_size = Some m' /\ length (concat m') = 49%nat) ->
  exists barcodes,
    build_barcodes cv master_list (5, 5)%Z 1%Z 0%Z barcode_size = Ok barcodes /\
    length barcodes = length master_list /\
    forall row, row ∈ barcodes -> length row = 49%nat.
Proof.
  intros Htags Hres. unfold build_barcodes.
  induction master_list as [|tag rest IH].
  - exists []. split; [reflexivity|]. split; [reflexivity|].
    intros row Hr. by apply elem_of_nil in Hr.
  - destruct IH as (rows & Hrest & Hlen & Hrows).
    { intros t Ht. apply Htags. by right. }
    destruct (add_border_cells 0 0 1 tag 5 5 1 0) as (b & Hb & Hs0 & Hs1 & _);
      try lia.
    { rewrite (Htags tag) by left. reflexivity. }
    cbn [mapM]. rewrite Hb. cbn [mbind result_bind].
    rewrite reshape2_ok; [| lia | lia |].
    2:{ rewrite flatten_length, Hs0, Hs1. reflexivity. }
    cbn [mbind result_bind].
    match goal with
    | |- context [resize_f64 cv (to_rows ?a) _] =>
        destruct (to_rows_shape a) as [H7 Hrow7];
        destruct (Hres (to_rows a) H7 Hrow7) as (m' & -> & Hm')
    end.
    cbn [mbind result_bind].
    change (mapM ?f rest) with (mapM f rest) in Hrest.
    rewrite Hrest. cbn [mbind result_bind].
    eexists. split; [reflexivity|]. split; [simpl; by rewrite Hlen|].
    intros row Hr. apply elem_of_cons in Hr as [->|Hr]; [done|by apply Hrows].
Qed.

Lemma frames_loop_levels (barcodes : matrix) (IDs : list ID) (pt2 : Z * Z)
    (frames : list (color_image * R * R)) :
  barcodes <> [] -> (forall row, row ∈ barcodes -> length row = 49%nat) ->
  (length barcodes <= length IDs)%nat ->
  (forall gray pts, length (concat (rectified cv gray pts)) = 49%nat) ->
  snd (frames_loop cv barcodes IDs pt2 frames) = Raise AssertionError ->
  exists image t n, (image, t, n) ∈ frames /\
    concat (crop image pt1 pt2) <> [] /\
    (0%Z ∉ np_unique (frame_threshold cv pt2 image) \/
     255%Z ∉ np_unique (frame_threshold cv pt2 image)).
Proof.
  intros Hne Hrows Hids Hp. induction frames as [|[[image t] n] rest IH];
    [discriminate|].
  simpl.
  destruct (frame_body_outcome barcodes IDs pt2 image t n Hne Hrows Hids Hp)
    as [Hok|[[Hr Hg]|[Hr Hg]]].
  - destruct (frame_body cv barcodes IDs pt2 image t n) as [written outcome].
    simpl in Hok. subst outcome.
    destruct (frames_loop cv barcodes IDs pt2 rest) as [more outcome]. simpl in *.
    intros H. destruct (IH H) as (image0 & t0 & n0 & Hin & Hrest).
    exists image0, t0, n0. split; [by right|done].
  - rewrite Hr. intros _. exists image, t, n. split; [left|].
    split.
    + intros He. rewrite (frame_body_no_pixels _ _ _ _ _ _ _ He) in Hr. discriminate Hr.
    + destruct (decide (0%Z ∈ np_unique (frame_threshold cv pt2 image)))
        as [H0|H0]; [|by left].
      destruct (decide (255%Z ∈ np_unique (frame_threshold cv pt2 image)))
        as [H255|H255]; [|by right].
      rewrite (get_contours_both_levels _ _ H0 H255) in Hg. discriminate Hg.
  - rewrite Hr. discriminate.
Qed.

(** X12: with a non-empty tag dictionary whose patterns all have 25 cells, at
    least as many IDs as patterns and a resize that returns 7x7 arrays, a run
    ends normally, or with the AssertionError of [get_contours] on a frame
    whose thresholded image lacks one of the levels 0 and 255, or with the
    ValueError of [get_grayscale] on a frame that has no pixel inside the
    crop; it raises no other exception. *)
Theorem run_raises_only_on_unusable_frames (master_list : list (list R))
    (IDs : list ID) (frame_size : Z * Z) (frames : list (color_image * R * R)) :
  master_list <> [] ->
  (forall tag, tag ∈ master_list -> length tag = 25%nat) ->
  (length master_list <= length IDs)%nat ->
  resize_well_behaved cv ->
  snd (run_decoder cv master_list IDs frame_size frames) = Ok tt \/
  (snd (run_decoder cv master_list IDs frame_size frames) = Raise AssertionError /\
   exists image t n, (image, t, n) ∈ frames /\
     concat (crop image pt1 frame_size) <> [] /\
     (0%Z ∉ np_unique (frame_threshold cv frame_size image) \/
      255%Z ∉ np_unique (frame_threshold cv frame_size image))) \/
  (snd (run_decoder cv master_list IDs frame_size frames) = Raise ValueError /\
   exists image t n, (image, t, n) ∈ frames /\
     concat (crop image pt1 frame_size) = []).
Proof.
  intros Hne Htags Hids [Hres Hrect]. unfold run_decoder.
  destruct (build_barcodes_total master_list Htags Hres)
    as (barcodes & -> & Hlen & Hrows).
  assert (Hb : barcodes <> []).
  { intros ->. destruct master_list; [done|discriminate Hlen]. }
  assert (Hi : (length barcodes <= length IDs)%nat) by lia.
  destruct (frames_loop_outcome barcodes IDs frame_size frames Hb Hrows Hi Hrect)
    as [Hok|[(Hr & Hex)|(Hr & Hex)]].
  - by left.
  - destruct (frames_loop_levels barcodes IDs frame_size frames Hb Hrows Hi Hrect Hr)
      as (image & t & n & Hin & Hpix & Hlev).
    right. left. split; [done|]. by exists image, t, n.
  - right. right. by split.
Qed.

End TotalFacts.

Section StopFacts.
Context (cv : Cv2) {ID : Type}.
Local Open Scope R_scope.

Lemma frames_loop_app (barcodes : matrix) (IDs : list ID) (pt2 : Z * Z)
    (before after : list (color_image * R * R)) :
  frames_loop cv barcodes IDs pt2 (before ++ after)
  = match frames_loop cv barcodes IDs pt2 before with
    | (written, Raise e) => (written, Raise e)
    | (written, Ok _) =>
        (written ++ fst (frames_loop cv barcodes IDs pt2 after),
         snd (frames_loop cv barcodes IDs pt2 after))
    end.
Proof.
  induction before as [|[[image t] n] rest IH]; simpl.
  - by destruct (frames_loop cv barcodes IDs pt2 after).
  - destruct (frame_body cv barcodes IDs pt2 image t n) as [written [?|e]];
      [|reflexivity].
    rewrite IH.
    destruct (frames_loop cv barcodes IDs pt2 rest) as [more [?|e]]; simpl.
    + by rewrite app_assoc.
    + reflexivity.
Qed.

(** X13: a frame whose thresholded image lacks one of the levels 0 and 255 ends
    the run with an exception: the output holds the records of the frames
    before it and nothing else, whatever frames follow. *)
Theorem one_level_frame_ends_the_run (master_list : list (list R)) (IDs : list ID)
    (frame_size : Z * Z) (before after : list (color_image * R * R))
    (image : color_image) (t n : R) :
  (0%Z ∉ np_unique (frame_threshold cv frame_size image) \/
   255%Z ∉ np_unique (frame_threshold cv frame_size image)) ->
  exists e,
    run_decoder cv master_list IDs frame_size (before ++ (image, t, n) :: after)
    = (fst (run_decoder cv master_list IDs frame_size before), Raise e).
Proof.
  intros Hl. unfold run_decoder.
  destruct (build_barcodes cv master_list (5, 5)%Z 1%Z 0%Z barcode_size)
    as [barcodes|e]; [|by exists e].
  rewrite frames_loop_app.
  destruct (frames_loop cv barcodes IDs frame_size before) as [written [?|e]];
    [|by exists e].
  destruct (decide (concat (crop image pt1 frame_size) = [])) as [He|He].
  - exists ValueError. simpl.
    rewrite (frame_body_no_pixels cv barcodes IDs frame_size image t n He).
    simpl. by rewrite app_nil_r.
  - exists AssertionError. simpl.
    rewrite (frame_body_one_level cv barcodes IDs frame_size image t n He Hl).
    simpl. by rewrite app_nil_r.
Qed.

End StopFacts.

Section RunWitnesses.
Local Open Scope R_scope.

Lemma black_frame_one_level :
  0%Z ∉ np_unique (frame_threshold (Scene.cv Footage.tag_patch) (4, 4)%Z Scene.black_frame) \/
  255%Z ∉ np_unique (frame_threshold (Scene.cv Footage.tag_patch) (4, 4)%Z Scene.black_frame).
Proof.
  right.
  change (frame_threshold (Scene.cv Footage.tag_patch) (4, 4)%Z Scene.black_frame)
    with (Scene.threshold_uniform (repeat (repeat 0%Z 4) 4) 255 (-25)).
  rewrite threshold_uniform_black. vm_compute. set_solver.
Qed.

Lemma concat_length_uniform {A : Type} (m : list (list A)) (k : nat) :
  (forall row, row ∈ m -> length row = k) -> length (concat m) = (length m * k)%nat.
Proof.
  induction m as [|row m IH]; intros H; [reflexivity|].
  simpl. rewrite length_app, (H row) by left. f_equal. apply IH.
  intros r Hr. apply H. by right.
Qed.

Lemma scene_resize_well_behaved (p : gray_image) :
  length (concat p) = 49%nat -> resize_well_behaved (Scene.cv p).
Proof.
  intros Hp. split.
  - intros m Hm Hrows. exists m. split; [reflexivity|].
    by rewrite (concat_length_uniform m 7 Hrows), Hm.
  - intros gray pts. exact Hp.
Qed.

Lemma written_records_are_well_formed_witness :
  exists rec : DetectionRecord,
    rec ∈ fst (run_decoder (Scene.cv Footage.tag_patch) [Scene.tag] [42%Z] (30, 30)%Z
                           [(Footage.frame, 0, 0)]) /\
    (exists image, (image, msec rec, frame_number rec) ∈ [(Footage.frame, 0, 0)]) /\
    well_formed_record 1 [42%Z] rec.
Proof.
  destruct footage_run as (rec & Hrun). exists rec.
  assert (Hin : rec ∈ fst (run_decoder (Scene.cv Footage.tag_patch) [Scene.tag] [42%Z]
                             (30, 30)%Z [(Footage.frame, 0, 0)])).
  { rewrite Hrun. left. }
  split; [exact Hin|].
  exact (written_records_are_well_formed (Scene.cv Footage.tag_patch) [Scene.tag] [42%Z]
           (30, 30)%Z [(Footage.frame, 0, 0)] rec Hin).
Defined.

Lemma run_raises_only_on_unusable_frames_witness :
  snd (run_decoder (Scene.cv Footage.tag_patch) [Scene.tag] [42%Z] (4, 4)%Z
                   [(Scene.black_frame, 0, 0)]) = Ok tt \/
  (snd (run_decoder (Scene.cv Footage.tag_patch) [Scene.tag] [42%Z] (4, 4)%Z
                    [(Scene.black_frame, 0, 0)]) = Raise AssertionError /\
   exists image t n, (image, t, n) ∈ [(Scene.black_frame, 0, 0)] /\
     concat (crop image pt1 (4, 4)%Z) <> [] /\
     (0%Z ∉ np_unique (frame_threshold (Scene.cv Footage.tag_patch) (4, 4)%Z image) \/
      255%Z ∉ np_unique (frame_threshold (Scene.cv Footage.tag_patch) (4, 4)%Z image))) \/
  (snd (run_decoder (Scene.cv Footage.tag_patch) [Scene.tag] [42%Z] (4, 4)%Z
                    [(Scene.black_frame, 0, 0)]) = Raise ValueError /\
   exists image t n, (image, t, n) ∈ [(Scene.black_frame, 0, 0)] /\
     concat (crop image pt1 (4, 4)%Z) = []).
Proof.
  apply (run_raises_only_on_unusable_frames (Scene.cv Footage.tag_patch) [Scene.tag]
           [42%Z] (4, 4)%Z [(Scene.black_frame, 0, 0)]).
  - discriminate.
  - intros tag Htag. apply list_elem_of_singleton in Htag as ->. reflexivity.
  - simpl. lia.
  - apply scene_resize_well_behaved. reflexivity.
Defined.

Lemma one_level_frame_ends_the_run_witness :
  exists e,
    run_decoder (Scene.cv Footage.tag_patch) [Scene.tag] [42%Z] (4, 4)%Z
                ([] ++ (Scene.black_frame, 0, 0) :: [(Scene.black_frame, 1, 1)])
    = (fst (run_decoder (Scene.cv Footage.tag_patch) [Scene.tag] [42%Z] (4, 4)%Z []),
       Raise e).
Proof.
  apply (one_level_frame_ends_the_run (Scene.cv Footage.tag_patch) [Scene.tag] [42%Z]
           (4, 4)%Z [] [(Scene.black_frame, 1, 1)] Scene.black_frame 0 0).
  apply black_frame_one_level.
Defined.

End RunWitnesses.

Section ExceptionFacts.
Context (cv : Cv2) {ID : Type}.
Local Open Scope R_scope.

Lemma corr2_coeff_raises (A B : matrix) (e : exn) :
  corr2_coeff A B = Raise e -> e = AxisError \/ e = ValueError.
Proof.
  unfold corr2_coeff. intros H.
  destruct A; [inversion H; by left|]. destruct B; [inversion H; by left|].
  destruct (negb _); inversion H. by right.
Qed.

Lemma max_raises (v : list npfloat) (e : exn) : Np.max v = Raise e -> e = ValueError.
Proof. destruct v; intros H; inversion H. reflexivity. Qed.

Lemma argmax_raises (v : list npfloat) (e : exn) :
  Np.argmax v = Raise e -> e = ValueError.
Proof. destruct v; intros H; inversion H. reflexivity. Qed.

Lemma match_and_write_raises (barcodes : matrix) (IDs : list ID)
    (pos_msec pos_frames : R) (pts : list point) (tl tr br bl : point)
    (resize_warp : gray_image) (e : exn) :
  match_and_write barcodes IDs pos_msec pos_frames pts tl tr br bl resize_warp
  = Raise e ->
  e = ValueError \/ e = AxisError \/ e = IndexError.
Proof.
  unfold match_and_write. intros H.
  apply bind_raises in H as [H|(C & _ & H)].
  { unfold correlate in H. apply bind_raises in H as [H|(? & _ & H)].
    - apply reshape2_raises in H. by left.
    - apply corr2_coeff_raises in H as [->| ->]; [right; by left|by left]. }
  apply bind_raises in H as [H|(best & _ & H)].
  { apply max_raises in H. by left. }
  destruct (np_gt best (Fin 0.8)); [|discriminate H].
  apply bind_raises in H as [H|(bi & _ & H)].
  { apply argmax_raises in H. by left. }
  apply bind_raises in H as [H|(i & _ & H)]; [|discriminate H].
  destruct (IDs !! bi); inversion H. right. by right.
Qed.

(** X14: a contour can raise only in the matching step, after it has passed all
    the gates, and only ValueError, AxisError or IndexError: the division of
    the perimeter by the area never raises ZeroDivisionError, because the
    area gate comes first, and [order_points] never fails on the polygon,
    because the four-vertex gate comes first. *)
Theorem contour_raises_only_when_matching (gray : gray_image) (image_shape : Z * Z)
    (barcodes : matrix) (IDs : list ID) (pos_msec pos_frames : R) (cnt : contour)
    (e : exn) :
  contour_body cv gray image_shape barcodes IDs pos_msec pos_frames cnt = Raise e ->
  passes_gates cv image_shape cnt /\
  (exists tl tr br bl,
     order_points (simplified cv cnt) = Ok [tl; tr; br; bl] /\
     match_and_write barcodes IDs pos_msec pos_frames [tl; tr; br; bl] tl tr br bl
                     (rectified cv gray [tl; tr; br; bl]) = Raise e) /\
  (e = ValueError \/ e = AxisError \/ e = IndexError).
Proof.
  intros H.
  destruct (passes_gates_dec cv image_shape cnt) as [Hg|Hg].
  2:{ rewrite (contour_body_rejected _ _ _ _ _ _ _ _ Hg) in H. discriminate H. }
  split; [exact Hg|].
  rewrite (contour_body_gated _ _ _ _ _ _ _ _ Hg) in H.
  destruct Hg as (_ & _ & _ & Hlen & _).
  destruct (order_points_sq_ok _ Hlen) as (tl & tr & br & bl & Ho).
  rewrite <- order_points_eq in Ho. rewrite Ho in H. cbn [mbind result_bind] in H.
  split.
  - by exists tl, tr, br, bl.
  - by apply match_and_write_raises in H.
Qed.

End ExceptionFacts.

Section ExceptionWitnesses.
Local Open Scope R_scope.

Lemma empty_library_raises :
  contour_body (Scene.cv Scene.patch) [] (100, 100)%Z [] [42%Z] 0 0 Scene.square
  = Raise AxisError.
Proof.
  rewrite (contour_body_gated _ _ _ _ _ _ _ _ (square_passes Scene.patch)).
  unfold simplified. simpl approxPolyDP. rewrite square_ordered. reflexivity.
Qed.

Lemma contour_raises_only_when_matching_witness :
  passes_gates (Scene.cv Scene.patch) (100, 100)%Z Scene.square /\
  (exists tl tr br bl,
     order_points (simplified (Scene.cv Scene.patch) Scene.square)
     = Ok [tl; tr; br; bl] /\
     match_and_write [] [42%Z] 0 0 [tl; tr; br; bl] tl tr br bl
                     (rectified (Scene.cv Scene.patch) [] [tl; tr; br; bl])
     = Raise AxisError) /\
  (AxisError = ValueError \/ AxisError = AxisError \/ AxisError = IndexError).
Proof.
  exact (contour_raises_only_when_matching (Scene.cv Scene.patch) [] (100, 100)%Z
           [] [42%Z] 0 0 Scene.square AxisError empty_library_raises).
Defined.

End ExceptionWitnesses.

(** ** [angle] and [unit_vector] *)

Section AngleFacts2.
Local Open Scope R_scope.

(** X16: angles are measured from the positive x axis towards the positive
    y axis: vectors along +x, +y, -x and -y give 0, 90, 180 and 270
    degrees. *)
Theorem angle_axis_directions (a : R) :
  0 < a ->
  angle (a, 0) true = 0 /\ angle (0, a) true = 90 /\
  angle (- a, 0) true = 180 /\ angle (0, - a) true = 270.
Proof.
  intros Ha. assert (Hpi := PI_RGT_0). unfold angle, degrees. cbn [fst snd].
  assert (H1 : arctan2 0 a = 0).
  { unfold arctan2. rewrite decide_True by lra.
    replace (0 / a) with 0 by (unfold Rdiv; ring). apply atan_0. }
  assert (H2 : arctan2 a 0 = PI / 2).
  { unfold arctan2. rewrite decide_False by lra. rewrite decide_False by lra.
    rewrite decide_True by lra. reflexivity. }
  assert (H3 : arctan2 0 (- a) = PI).
  { unfold arctan2. rewrite decide_False by lra. rewrite decide_True by lra.
    rewrite decide_True by lra.
    replace (0 / - a) with 0 by (unfold Rdiv; ring). rewrite atan_0. lra. }
  assert (H4 : arctan2 (- a) 0 = - PI / 2).
  { unfold arctan2. rewrite decide_False by lra. rewrite decide_False by lra.
    rewrite decide_False by lra. rewrite decide_True by lra. reflexivity. }
  rewrite H1, H2, H3, H4.
  rewrite !py_mod_small by lra. rewrite py_mod_negative by lra.
  repeat split; field; lra.
Qed.

Lemma angle_axis_directions_witness :
  angle (1, 0) true = 0 /\ angle (0, 1) true = 90 /\
  angle (- 1, 0) true = 180 /\ angle (0, - 1) true = 270.
Proof. apply (angle_axis_directions 1). lra. Defined.

End AngleFacts2.

Section VectorFacts.
Local Open Scope R_scope.

Lemma sum_square_zero_iff (v : list R) :
  Np.sum (Np.square v) = 0 <-> forall a, a ∈ v -> a = 0.
Proof.
  split; [apply sum_square_zero_all|].
  induction v as [|a v IH]; intros H; [reflexivity|].
  rewrite square_cons, sum_cons, IH.
  - rewrite (H a) by left. lra.
  - intros b Hb. apply H. by right.
Qed.

(** X19: on a vector whose components are all zero the division is 0/0: every
    component of the result is NaN, and nothing is raised. *)
Theorem unit_vector_of_zero_is_nan (v : list R) :
  (forall a, a ∈ v -> a = 0) -> unit_vector v = map (fun _ => NaN) v.
Proof.
  intros Hz. unfold unit_vector, linalg_norm.
  assert (Hn : sqrt (Np.sum (Np.square v)) = 0).
  { rewrite (proj2 (sum_square_zero_iff v) Hz). apply sqrt_0. }
  rewrite Hn. apply map_ext_in. intros a Ha.
  rewrite (Hz a) by (by apply list_elem_of_In). apply divide_zero_zero.
Qed.

Lemma unit_vector_of_zero_is_nan_witness :
  unit_vector [0; 0] = map (fun _ => NaN) [0; 0].
Proof.
  apply (unit_vector_of_zero_is_nan [0; 0]).
  intros a Ha. apply list_elem_of_In in Ha. simpl in Ha. intuition.
Defined.

End VectorFacts.

(** ** Grayscale conversion, contours and [undistort_image] *)

Section FrontFacts.
Context (cv : Cv2).
Local Open Scope Z_scope.

(** X21: [get_contours] only checks that the levels 0 and 255 both occur among
    the pixels: an image that holds both is accepted whatever other values
    it holds, and any other image raises AssertionError. *)
Theorem get_contours_checks_two_levels (threshold_image : gray_image) :
  get_contours cv threshold_image
  = if bool_decide (0 ∈ concat threshold_image /\ 255 ∈ concat threshold_image)
    then Ok (findContours cv threshold_image)
    else Raise AssertionError.
Proof.
  case_bool_decide as H.
  - destruct H as [H0 H255].
    apply get_contours_both_levels; unfold np_unique; by apply elem_of_list_to_set.
  - apply get_contours_needs_both_levels.
    destruct (decide (0 ∈ concat threshold_image)) as [H0|H0].
    + right. unfold np_unique. rewrite elem_of_list_to_set. tauto.
    + left. unfold np_unique. by rewrite elem_of_list_to_set.
Qed.

Lemma map_map_shape {A B : Type} (f : A -> B) (image : list (list A)) :
  height (map (map f) image) = height image /\
  width (map (map f) image) = width image.
Proof.
  unfold height, width. rewrite length_map. split; [reflexivity|].
  destruct image; simpl; [reflexivity|]. by rewrite length_map.
Qed.

(** X22: [get_grayscale] raises AssertionError for a channel value other
    than the five documented ones; for a documented value it succeeds exactly
    when the image has a pixel: a colour channel then gives an image of the
    same height and width, 'none' or None the result of [cv2.cvtColor]; on
    an image without pixels a colour channel raises ValueError (the unpacking
    of [cv2.split]) and 'none' or None the error of [cv2.cvtColor]. *)
Theorem get_grayscale_channels (image : color_image) (channel : option string) :
  (channel ∉ [Some "blue"; Some "green"; Some "red"; Some "none"; None]
   -> get_grayscale cv image channel = Raise AssertionError) /\
  (channel ∈ [Some "blue"; Some "green"; Some "red"] ->
   if bool_decide (concat image = [])
   then get_grayscale cv image channel = Raise ValueError
   else exists gray, get_grayscale cv image channel = Ok gray /\
          height gray = height image /\ width gray = width image) /\
  (channel ∈ [Some "none"; None] ->
   get_grayscale cv image channel
   = if bool_decide (concat image = []) then Raise Cv2Error
     else Ok (cvtColor_BGR2GRAY cv image)).
Proof.
  split; [|split].
  - intros Hn. unfold get_grayscale.
    by rewrite (bool_decide_eq_false_2 _ Hn).
  - intros Hin. unfold get_grayscale.
    repeat (apply elem_of_cons in Hin as [->|Hin]);
      [..|by apply elem_of_nil in Hin];
      destruct (bool_decide (concat image = [])); try reflexivity;
      eexists; (split; [reflexivity|]); apply map_map_shape.
  - intros Hin. unfold get_grayscale.
    repeat (apply elem_of_cons in Hin as [->|Hin]);
      [..|by apply elem_of_nil in Hin];
      destruct (bool_decide (concat image = [])); reflexivity.
Qed.

End FrontFacts.

Section FrontWitnesses.

Lemma get_grayscale_channels_witness :
  get_grayscale (Scene.cv []) Scene.black_frame (Some "gray") = Raise AssertionError /\
  (exists gray,
     get_grayscale (Scene.cv []) Scene.black_frame (Some "green") = Ok gray /\
     height gray = height Scene.black_frame /\ width gray = width Scene.black_frame) /\
  get_grayscale (Scene.cv []) [] (Some "green") = Raise ValueError.
Proof.
  pose proof (get_grayscale_channels (Scene.cv []) Scene.black_frame (Some "gray"))
    as (Hbad & _ & _).
  pose proof (get_grayscale_channels (Scene.cv []) Scene.black_frame (Some "green"))
    as (_ & Hgood & _).
  pose proof (get_grayscale_channels (Scene.cv []) [] (Some "green"))
    as (_ & Hempty & _).
  split; [|split].
  - apply Hbad. intros Hin. apply (bool_decide_eq_true_2 _) in Hin.
    vm_compute in Hin. discriminate Hin.
  - apply Hgood. by repeat constructor.
  - apply Hempty. by repeat constructor.
Defined.

End FrontWitnesses.

Section UndistortFacts.
Context {V Pixel : Type} (cvc : Cv2Calib V Pixel).
Local Open Scope Z_scope.

(** X23: [undistort_image] raises TypeError exactly when one of the five keys
    "ret", "mtx", "dist", "rvecs", "tvecs" is missing, although it reads only
    the values of "mtx" and "dist": two complete dictionaries that agree on
    these two give the same result. *)
Theorem undistort_needs_all_five_keys (image : list (list Pixel))
    (calib_params : gmap string V) (crop_flag : bool) :
  (undistort_image cvc image calib_params crop_flag = RaiseTypeError <->
   exists key, key ∈ ["ret"; "mtx"; "dist"; "rvecs"; "tvecs"] /\
               calib_params !! key = None) /\
  (forall other : gmap string V,
     (forall key, key ∈ ["ret"; "mtx"; "dist"; "rvecs"; "tvecs"] ->
                  is_Some (calib_params !! key) /\ is_Some (other !! key)) ->
     other !! "mtx" = calib_params !! "mtx" ->
     other !! "dist" = calib_params !! "dist" ->
     undistort_image cvc image other crop_flag
     = undistort_image cvc image calib_params crop_flag).
Proof.
  split.
  - unfold undistort_image. split.
    + intros H.
      destruct (calib_params !! "ret") eqn:E1;
        [|exists "ret"; split; [by repeat constructor|done]].
      destruct (calib_params !! "mtx") eqn:E2;
        [|exists "mtx"; split; [by repeat constructor|done]].
      destruct (calib_params !! "dist") eqn:E3;
        [|exists "dist"; split; [by repeat constructor|done]].
      destruct (calib_params !! "rvecs") eqn:E4;
        [|exists "rvecs"; split; [by repeat constructor|done]].
      destruct (calib_params !! "tvecs") eqn:E5;
        [|exists "tvecs"; split; [by repeat constructor|done]].
      exfalso. revert H.
      destruct (getOptimalNewCameraMatrix cvc _ _ _) as [? [[[? ?] ?] ?]].
      destruct (initUndistortRectifyMap cvc _ _ _ _).
      by destruct crop_flag.
    + intros (key & Hkey & Hnone).
      repeat (apply elem_of_cons in Hkey as [->|Hkey]);
        [..|by apply elem_of_nil in Hkey]; rewrite Hnone;
        repeat match goal with |- context [match ?o with Some _ => _ | None => _ end] =>
                 destruct o end; reflexivity.
  - intros other Hall Hm Hd. unfold undistort_image. rewrite Hm, Hd.
    destruct (Hall "ret") as [[? E1] [? E1']]; [by repeat constructor|].
    destruct (Hall "rvecs") as [[? E2] [? E2']]; [by repeat constructor|].
    destruct (Hall "tvecs") as [[? E3] [? E3']]; [by repeat constructor|].
    by rewrite E1, E1', E2, E2', E3, E3'.
Qed.

(** X24: with all five keys present, the cropped result is the region of
    interest cut out of the uncropped result; when that region lies inside
    the remapped image the result has its height and width. *)
Theorem undistort_crops_to_roi (image : list (list Pixel))
    (calib_params : gmap string V) (dst : list (list Pixel)) (x y w h : Z) :
  undistort_image cvc image calib_params false = Undistorted dst ->
  (forall mtx dist, calib_params !! "mtx" = Some mtx ->
                    calib_params !! "dist" = Some dist ->
     snd (getOptimalNewCameraMatrix cvc mtx dist (width image, height image))
     = (x, y, w, h)) ->
  undistort_image cvc image calib_params true
  = Undistorted (crop dst (x, y) (x + w, y + h)) /\
  (0 <= x -> 0 <= w -> 0 <= y -> 0 <= h -> y + h <= height dst ->
   (forall row, row ∈ dst -> x + w <= Z.of_nat (length row)) ->
   height (crop dst (x, y) (x + w, y + h)) = h /\
   forall row, row ∈ crop dst (x, y) (x + w, y + h) -> Z.of_nat (length row) = w).
Proof.
  intros Hu Hroi. split.
  - unfold undistort_image in *.
    destruct (calib_params !! "ret"); [|discriminate Hu].
    destruct (calib_params !! "mtx") as [mtx|]; [|discriminate Hu].
    destruct (calib_params !! "dist") as [dist|]; [|discriminate Hu].
    destruct (calib_params !! "rvecs"); [|discriminate Hu].
    destruct (calib_params !! "tvecs"); [|discriminate Hu].
    specialize (Hroi mtx dist eq_refl eq_refl).
    destruct (getOptimalNewCameraMatrix cvc mtx dist (width image, height image))
      as [newcameramtx roi].
    simpl in Hroi. subst roi.
    destruct (initUndistortRectifyMap cvc mtx dist newcameramtx _) as [mapx mapy].
    inversion Hu. reflexivity.
  - intros Hx Hw Hy Hh Hin Hrows. unfold crop, height in *. cbn [fst snd].
    rewrite py_slice_inside by lia.
    split.
    + rewrite length_map, length_take, length_drop. lia.
    + intros row Hr. apply list_elem_of_fmap in Hr as (r & -> & Hr).
      assert (Hsrc : r ∈ dst).
      { apply list_elem_of_lookup in Hr as [k Hk].
        apply lookup_take_Some in Hk as [Hk _]. rewrite lookup_drop in Hk.
        by eapply list_elem_of_lookup_2. }
      specialize (Hrows r Hsrc).
      rewrite py_slice_inside by lia.
      rewrite length_take, length_drop. lia.
Qed.

End UndistortFacts.

Section UndistortWitnesses.
Local Open Scope Z_scope.

Lemma undistort_needs_all_five_keys_witness :
  undistort_image Calib.cvc Calib.image (delete "rvecs" Calib.params) true
  = RaiseTypeError.
Proof.
  apply (proj1 (undistort_needs_all_five_keys Calib.cvc Calib.image
                  (delete "rvecs" Calib.params) true)).
  exists "rvecs". split; [by repeat constructor|]. reflexivity.
Defined.

Lemma undistort_crops_to_roi_witness :
  undistort_image Calib.cvc Calib.image Calib.params true
  = Undistorted (crop Calib.image (1, 1) (1 + 2, 1 + 2)) /\
  (0 <= 1 -> 0 <= 2 -> 0 <= 1 -> 0 <= 2 -> 1 + 2 <= height Calib.image ->
   (forall row, row ∈ Calib.image -> 1 + 2 <= Z.of_nat (length row)) ->
   height (crop Calib.image (1, 1) (1 + 2, 1 + 2)) = 2 /\
   forall row, row ∈ crop Calib.image (1, 1) (1 + 2, 1 + 2) ->
               Z.of_nat (length row) = 2).
Proof.
  apply (undistort_crops_to_roi Calib.cvc Calib.image Calib.params Calib.image 1 1 2 2).
  - reflexivity.
  - intros mtx dist _ _. reflexivity.
Defined.

End UndistortWitnesses.
